(** * Readwise Audio Summary Worker: feed assembly and state reconciliation

    A shallow embedding of the worker (v3, with the v1 [extractSource] that it
    shares) and the proofs of its specification's claims.

    The worker is asynchronous JavaScript running against three external
    services and a key-value store.  It is embedded as a state-and-exception
    monad over a [World]: the key-value store, the clock, the responses the
    outside network is going to give, and the trace of effects performed.
    The script of the page that the worker serves is embedded next to it, as
    functions on the variables of the script. *)

From Stdlib Require Import Ascii String ZArith Lia.
From stdpp Require Import gmap strings list fin_maps pretty sorting.

Local Open Scope string_scope.
Local Open Scope list_scope.
Local Open Scope Z_scope.

(** ** JavaScript values used by the worker *)

Module JS.

(** A property that may be [undefined] (or [null]) is an [option]; a string
    is a sequence of code units, one [ascii] each. *)

(** Truthiness of a possibly-undefined string: [undefined], [null] and the
    empty string are falsy. *)
Definition truthy (v : option string) : bool :=
  match v with
  | Some (String _ _) => true
  | _ => false
  end.

(** [a || b] on possibly-undefined strings. *)
Definition or (a b : option string) : option string :=
  if truthy a then a else b.

(** [a || 'literal']: the result is always a string. *)
Definition or_str (a : option string) (b : string) : string :=
  match a with
  | Some (String _ _ as s) => s
  | _ => b
  end.

(** Interpolation [`${v}`] of a possibly-undefined string. *)
Definition interpolate (v : option string) : string :=
  match v with
  | Some s => s
  | None => "undefined"
  end.

(** [s.startsWith(pat)] *)
Definition startsWith (s pat : string) : bool := String.prefix pat s.

(** [s.includes(pat)] *)
Fixpoint includes (s pat : string) : bool :=
  String.prefix pat s ||
  match s with
  | "" => false
  | String _ s' => includes s' pat
  end.

(** [s.endsWith(pat)] *)
Fixpoint endsWith (s pat : string) : bool :=
  String.eqb s pat ||
  match s with
  | "" => false
  | String _ s' => endsWith s' pat
  end.

(** [s.slice(0, n)] for [n] within the safe range. *)
Definition slice0 (n : nat) (s : string) : string := String.substring 0 n s.

Fixpoint drop (n : nat) (s : string) : string :=
  match n, s with
  | O, _ => s
  | S n', String _ s' => drop n' s'
  | S _, "" => ""
  end.

(** [s.replace(pat, rep)] with a string pattern: only the first occurrence
    of [pat] is replaced, wherever it is ([rep] holds no [$]). *)
Fixpoint replace (s pat rep : string) : string :=
  if String.prefix pat s then rep +:+ drop (String.length pat) s
  else match s with
       | "" => ""
       | String c s' => String c (replace s' pat rep)
       end.

(** The class [\s] on code units below 256. *)
Definition is_space (c : ascii) : bool :=
  let n := nat_of_ascii c in
  ((9 <=? n) && (n <=? 13) || (n =? 32) || (n =? 160))%nat.

(** [s.split(/\s+/).length]: one more than the number of maximal runs of
    white space.  [in_run] tells whether the previous code unit was white
    space. *)
Fixpoint count_runs (in_run : bool) (s : string) : nat :=
  match s with
  | "" => O
  | String c s' =>
      if is_space c then (if in_run then count_runs true s' else S (count_runs true s'))
      else count_runs false s'
  end.

Definition split_ws_length (s : string) : nat := S (count_runs false s).

(** [SortCompare]: a comparator's [NaN] counts as [+0]. *)
Definition SortCompare {A} (comparefn : A → A → option Z) (x y : A) : Z :=
  match comparefn x y with
  | Some v => v
  | None => 0
  end.

(** [Array.prototype.sort(comparefn)].  The language fixes the result for a
    consistent comparator: the stable arrangement in comparator order.
    Insertion from the right is one such sort; an element stays in front
    of the elements that followed it unless the comparator puts it
    strictly after them. *)
Fixpoint sort_insert {A} (comparefn : A → A → option Z) (x : A) (l : list A) : list A :=
  match l with
  | [] => [x]
  | y :: l' =>
      if 0 <? SortCompare comparefn x y
      then y :: sort_insert comparefn x l'
      else x :: l
  end.

Fixpoint sort {A} (comparefn : A → A → option Z) (l : list A) : list A :=
  match l with
  | [] => []
  | x :: l' => sort_insert comparefn x (sort comparefn l')
  end.

End JS.

(** ** Configuration *)

Definition CLAUDE_MODEL : string := "claude-3-haiku-20240307".
Definition SUMMARY_WORD_TARGET : Z := 120.
Definition MAX_ARTICLES : nat := 50.
Definition SUMMARY_CACHE_TTL : Z := 60 * 60 * 24 * 30.

Definition dquote : string := String (ascii_of_nat 34) "".

Definition SYSTEM_PROMPT : string :=
  "You are a concise audio news summarizer. Create a spoken summary of the article that:
- Is approximately " +:+ pretty SUMMARY_WORD_TARGET +:+ " words (about 30 seconds when read aloud)
- Captures the key insight or news
- Is written for listening (natural speech, no bullet points or formatting)
- Starts directly with the content (no " +:+ dquote +:+ "This article discusses..." +:+ dquote +:+ ")
- Uses simple, clear language

Respond with ONLY the summary text, nothing else.".

(** ** Data model *)

(** A document of the article store, as the list endpoint returns it.
    [art_saved_at] is the time value of [new Date(doc.saved_at)] in
    milliseconds, [None] for an invalid date. *)
Record Article := {
  art_id : string;
  art_title : option string;
  art_category : option string;
  art_location : option string;
  art_site_name : option string;
  art_source_url : option string;
  art_url : option string;
  art_content : option string;
  art_html : option string;
  art_text : option string;
  art_summary : option string;
  art_notes : option string;
  art_saved_at : option Z;
}.

(** One entry of the feed response. *)
Record FeedItem := {
  fi_id : string;
  fi_title : string;
  fi_source : string;
  fi_summary : string;
  fi_content : string;
  fi_url : option string;
  fi_readwise_url : string;
  fi_original_url : option string;
  fi_word_count : nat;
  fi_location : option string;
}.

(** The worker's bindings; the key-value namespace [env.KV] is state and
    lives in the [World]. *)
Record Env := {
  READWISE_TOKEN : option string;
  CLAUDE_API_KEY : option string;
  OPENAI_API_KEY : option string;
}.

(** *** Outgoing HTTP *)

Inductive request_body :=
| NoBody
| UpdateBody (location : string)
| MessagesBody (model : string) (max_tokens : Z) (system : string) (user_content : string)
| SpeechBody (model : string) (input : string) (voice : string) (format : string).

Record http_request := {
  rq_method : string;
  rq_url : string;
  rq_query : list (string * string);
  rq_headers : list (string * string);
  rq_body : request_body;
}.

(** What [response.json()] yields when the body is JSON. *)
Inductive payload :=
| ListPayload (results : option (list Article)) (nextPageCursor : option string)
| MessagePayload (text : string)
| OtherPayload.

(** A response of an external service.  [rs_retry_after] is
    [parseInt(headers.get('Retry-After'))], [None] for [NaN]; [rs_json] is
    [None] when the body does not parse as JSON. *)
Record http_response := {
  rs_status : Z;
  rs_retry_after : option Z;
  rs_text : string;
  rs_json : option payload;
}.

Definition rs_ok (r : http_response) : bool :=
  (200 <=? rs_status r) && (rs_status r <=? 299).

(** *** Incoming requests and the worker's responses *)

Record JsonBody := {
  jb_id : option string;
  jb_text : option string;
  jb_voice : option string;
}.

(** An incoming request, its URL already split: [req_pathname] is
    [new URL(request.url).pathname], [req_location] is
    [searchParams.get('location')]; [req_json] is [None] when the body is
    not JSON. *)
Record Request := {
  req_method : string;
  req_pathname : string;
  req_location : option string;
  req_json : option JsonBody;
}.

Inductive response_body :=
| BodyNull
| BodyText (s : string)
| BodyHTML
| BodyManifest
| BodyFeed (articles : list FeedItem) (total_available : nat) (location : string)
| BodySuccess
| BodyError (message : string)
| BodyBrowserTTS (text : option string)
| BodyStream (data : string).

Record Response := {
  resp_status : Z;
  resp_headers : list (string * string);
  resp_body : response_body;
}.

(** *** The world *)

(** An entry of the key-value store: its value and its absolute expiration
    in milliseconds since the epoch. *)
Record kv_entry := KvEntry {
  kv_value : string;
  kv_expiration : option Z;
}.

Inductive event :=
| EvFetch (rq : http_request)
| EvKvGet (key : string)
| EvKvPut (key value : string) (expirationTtl : Z)
| EvKvDelete (key : string)
| EvKvList (prefix : string)
| EvSleep (ms : Z)
| EvLog (args : list string).

(** [now] is [Date.now()], in milliseconds; it stands still while one request
    is handled.  [upstream] holds the responses the external services give to
    the successive [fetch] calls, in order. *)
Record World := {
  kv : gmap string kv_entry;
  now : Z;
  upstream : list http_response;
  trace : list event;
}.

Definition emit (e : event) (w : World) : World :=
  {| kv := kv w; now := now w; upstream := upstream w; trace := trace w ++ [e] |}.

Definition with_kv (m : gmap string kv_entry) (w : World) : World :=
  {| kv := m; now := now w; upstream := upstream w; trace := trace w |}.

(** Time passing between two requests. *)
Definition elapse (ms : Z) (w : World) : World :=
  {| kv := kv w; now := now w + ms; upstream := upstream w; trace := trace w |}.

(** ** The monad of asynchronous code *)

Inductive outcome (A : Type) :=
| Ok (a : A)
| Throw (message : string).
Arguments Ok {A} a.
Arguments Throw {A} message.

Definition M (A : Type) : Type := World → outcome A * World.

Definition ret {A} (a : A) : M A := λ w, (Ok a, w).

Definition bind {A B} (m : M A) (f : A → M B) : M B := λ w,
  match m w with
  | (Ok a, w') => f a w'
  | (Throw e, w') => (Throw e, w')
  end.

Definition throw {A} (message : string) : M A := λ w, (Throw message, w).

(** [try { body } catch (error) { handler }] *)
Definition try_catch {A} (body : M A) (handler : string → M A) : M A := λ w,
  match body w with
  | (Ok a, w') => (Ok a, w')
  | (Throw e, w') => handler e w'
  end.

Notation "'await' x ← m ; k" := (bind m (λ x, k))
  (at level 10, x name, m at level 100, k at level 200,
   format "'[v' 'await'  x  ←  m ; '/' k ']'").
Notation "'await_' m ; k" := (bind m (λ _, k))
  (at level 10, m at level 100, k at level 200,
   format "'[v' 'await_'  m ; '/' k ']'").

(** [console.log] and [console.error]; the trace keeps what was logged, not
    the stream. *)
Definition console_log (args : list string) : M unit := λ w, (Ok tt, emit (EvLog args) w).

Definition console_error (args : list string) : M unit := λ w, (Ok tt, emit (EvLog args) w).

(** [await new Promise(r => setTimeout(r, ms))] *)
Definition sleep (ms : Z) : M unit := λ w, (Ok tt, emit (EvSleep ms) w).

(** The platform's [fetch]: the next response of the outside world; the
    promise rejects when there is none. *)
Definition http_fetch (rq : http_request) : M http_response := λ w,
  match upstream w with
  | [] => (Throw "fetch failed", emit (EvFetch rq) w)
  | r :: rest =>
      (Ok r, {| kv := kv w; now := now w; upstream := rest; trace := trace w ++ [EvFetch rq] |})
  end.

(** [response.json()] *)
Definition response_json (r : http_response) : M payload :=
  match rs_json r with
  | Some p => ret p
  | None => throw "Unexpected token in JSON"
  end.

(** *** The key-value store [env.KV]

    The store maps keys to entries.  A [put] with [expirationTtl] makes the
    entry expire that many seconds after the time of the write; an expired
    entry is not seen by [get] nor by [list].  Each operation is atomic and
    does not fail. *)

Module KV.

Definition live (t : Z) (e : kv_entry) : bool :=
  match kv_expiration e with
  | None => true
  | Some x => t <? x
  end.

(** The value an observer reads under [key] at time [t]. *)
Definition read (t : Z) (m : gmap string kv_entry) (key : string) : option string :=
  match m !! key with
  | Some e => if live t e then Some (kv_value e) else None
  | None => None
  end.

Definition get (key : string) : M (option string) := λ w,
  (Ok (read (now w) (kv w) key), emit (EvKvGet key) w).

Definition put (key value : string) (expirationTtl : Z) : M unit := λ w,
  (Ok tt,
   emit (EvKvPut key value expirationTtl)
     (with_kv (<[key := KvEntry value (Some (now w + expirationTtl * 1000))]> (kv w)) w)).

Definition delete (key : string) : M unit := λ w,
  (Ok tt, emit (EvKvDelete key) (with_kv (base.delete key (kv w)) w)).

(** [list({ prefix })]: the names of the live keys that start with
    [prefix].  The worker only builds a [Set] from them. *)
Definition names (t : Z) (m : gmap string kv_entry) (prefix : string) : list string :=
  List.map fst
    (List.filter (λ kv, JS.startsWith (fst kv) prefix && live t (snd kv)) (map_to_list m)).

Definition list (prefix : string) : M (list string) := λ w,
  (Ok (names (now w) (kv w) prefix), emit (EvKvList prefix) w).

End KV.

(** ** The worker *)

Definition Date_now : M Z := λ w, (Ok (now w), w).

(** [request.json()] *)
Definition request_json (request : Request) : M JsonBody :=
  match req_json request with
  | Some b => ret b
  | None => throw "Unexpected token in JSON"
  end.

(** [v === 'literal'] on a possibly-undefined string. *)
Definition strict_eq (v : option string) (s : string) : bool :=
  match v with
  | Some v' => String.eqb v' s
  | None => false
  end.

Definition corsHeaders : list (string * string) :=
  [("Access-Control-Allow-Origin", "*");
   ("Access-Control-Allow-Methods", "GET, POST, OPTIONS");
   ("Access-Control-Allow-Headers", "Content-Type")].

Definition json_response (corsHeaders : list (string * string)) (body : response_body) : Response :=
  {| resp_status := 200;
     resp_headers := corsHeaders ++ [("Content-Type", "application/json")];
     resp_body := body |}.

Section Worker.

(** [new URL(s).hostname] of the platform; [None] when the constructor
    throws. *)
Variable URL_hostname : string → option string.

(** *** Helpers *)

Definition extractSource (article : Article) : string :=
  match art_site_name article with
  | Some (String _ _ as site_name) => site_name
  | _ =>
      match art_source_url article with
      | Some (String _ _ as source_url) =>
          match URL_hostname source_url with
          | Some hostname => JS.replace hostname "www." ""
          | None => "Unknown source"
          end
      | _ => "Unknown source"
      end
  end.

Definition getHeardIds : M (gset string) :=
  await names ← KV.list "heard:";
  ret (list_to_set (List.map (λ name, JS.replace name "heard:" "") names)).

Definition getLaterIds : M (gset string) :=
  await names ← KV.list "later:";
  ret (list_to_set (List.map (λ name, JS.replace name "later:" "") names)).

(** *** Readwise API *)

Definition maxPages : nat := 10.

(** The callback of the per-page [filter]. *)
Definition keep_document (locationFilter : string) (doc : Article) : bool :=
  if negb (strict_eq (art_category doc) "article") then false
  else if strict_eq (art_location doc) "archive" then false
  else if String.eqb locationFilter "feed" then
    strict_eq (art_location doc) "new" || strict_eq (art_location doc) "feed"
  else if String.eqb locationFilter "library" then
    strict_eq (art_location doc) "later" || strict_eq (art_location doc) "shortlist"
  else true.

Definition list_request (env : Env) (nextCursor : option string) : http_request :=
  {| rq_method := "GET";
     rq_url := "https://readwise.io/api/v3/list/";
     rq_query := if JS.truthy nextCursor then [("pageCursor", JS.interpolate nextCursor)] else [];
     rq_headers := [("Authorization", "Token " +:+ JS.interpolate (READWISE_TOKEN env));
                    ("Content-Type", "application/json")];
     rq_body := NoBody |}.

(** [parseInt(response.headers.get('Retry-After')) || 5] *)
Definition resetTime (r : http_response) : Z :=
  match rs_retry_after r with
  | Some n => if n =? 0 then 5 else n
  | None => 5
  end.

(** The inner [while (retries > 0)] loop; [response] is the variable it
    assigns. *)
Fixpoint fetch_page (retries : nat) (rq : http_request) (response : option http_response)
  : M (option http_response) :=
  match retries with
  | O => ret response
  | S retries' =>
      await r ← http_fetch rq;
      if rs_status r =? 429 then
        await_ console_log ["Rate limited. Waiting " +:+ pretty (resetTime r) +:+ "s..."];
        await_ sleep (resetTime r * 1000);
        fetch_page retries' rq (Some r)
      else ret (Some r)
  end.

Definition payload_results (data : payload) : list Article :=
  match data with
  | ListPayload (Some results) _ => results
  | _ => []
  end.

Definition payload_nextPageCursor (data : payload) : option string :=
  match data with
  | ListPayload _ nextPageCursor => nextPageCursor
  | _ => None
  end.

(** The [do ... while (nextCursor)] loop.  [fuel] bounds the iterations left;
    since the body leaves the loop once [pageCount >= maxPages],
    [maxPages - pageCount] is always enough (see [fetch_pages_fuel]). *)
Fixpoint fetch_pages (fuel : nat) (env : Env) (locationFilter : string)
    (allArticles : list Article) (nextCursor : option string) (pageCount : nat)
  : M (list Article) :=
  match fuel with
  | O => ret allArticles
  | S fuel' =>
      await_ (if (0 <? pageCount)%nat then sleep 1000 else ret tt);
      await response ← fetch_page 3 (list_request env nextCursor) None;
      match response with
      | None => throw "Cannot read properties of undefined (reading 'ok')"
      | Some response =>
          if negb (rs_ok response)
          then throw ("Readwise API error: " +:+ pretty (rs_status response))
          else
            await data ← response_json response;
            let articles := List.filter (keep_document locationFilter) (payload_results data) in
            let allArticles := allArticles ++ articles in
            let nextCursor := payload_nextPageCursor data in
            let pageCount := S pageCount in
            if (MAX_ARTICLES <=? length allArticles)%nat || (maxPages <=? pageCount)%nat
            then ret allArticles
            else if JS.truthy nextCursor
                 then fetch_pages fuel' env locationFilter allArticles nextCursor pageCount
                 else ret allArticles
      end
  end.

(** [(a, b) => new Date(b.saved_at) - new Date(a.saved_at)] *)
Definition by_saved_at_desc (a b : Article) : option Z :=
  match art_saved_at b, art_saved_at a with
  | Some tb, Some ta => Some (tb - ta)
  | _, _ => None
  end.

Definition fetchAllReadwiseArticles (env : Env) (locationFilter : string) : M (list Article) :=
  await allArticles ← fetch_pages maxPages env locationFilter [] None 0;
  ret (JS.sort by_saved_at_desc allArticles).

(** The request [updateReadwiseDocument] sends. *)
Definition update_request (id : option string) (updates : request_body) (env : Env)
  : http_request :=
  {| rq_method := "PATCH";
     rq_url := "https://readwise.io/api/v3/update/" +:+ JS.interpolate id +:+ "/";
     rq_query := [];
     rq_headers := [("Authorization", "Token " +:+ JS.interpolate (READWISE_TOKEN env));
                    ("Content-Type", "application/json")];
     rq_body := updates |}.

Definition updateReadwiseDocument (id : option string) (updates : request_body) (env : Env)
  : M payload :=
  await response ← http_fetch (update_request id updates env);
  if negb (rs_ok response)
  then throw ("Readwise update error: " +:+ pretty (rs_status response))
  else response_json response.

(** The request [deleteReadwiseDocument] sends. *)
Definition delete_request (id : option string) (env : Env) : http_request :=
  {| rq_method := "DELETE";
     rq_url := "https://readwise.io/api/v3/delete/" +:+ JS.interpolate id +:+ "/";
     rq_query := [];
     rq_headers := [("Authorization", "Token " +:+ JS.interpolate (READWISE_TOKEN env))];
     rq_body := NoBody |}.

Definition deleteReadwiseDocument (id : option string) (env : Env) : M bool :=
  await response ← http_fetch (delete_request id env);
  if negb (rs_ok response) && negb (rs_status response =? 404)
  then throw ("Readwise delete error: " +:+ pretty (rs_status response))
  else ret true.

(** *** Summary caching *)

Definition newline : string := String (ascii_of_nat 10) "".

Definition userPrompt (article : Article) : string :=
  let content :=
    JS.or_str (JS.or (JS.or (art_content article) (art_summary article)) (art_notes article)) "" in
  let title := JS.or_str (art_title article) "Untitled" in
  let source := extractSource article in
  "Article from " +:+ source +:+ ":" +:+ newline +:+
  "Title: " +:+ title +:+ newline +:+ newline +:+
  "Content:" +:+ newline +:+
  JS.slice0 (80 * 100) content.

(** The request [summarizeArticle] sends. *)
Definition messages_request (article : Article) (env : Env) : http_request :=
  {| rq_method := "POST";
     rq_url := "https://api.anthropic.com/v1/messages";
     rq_query := [];
     rq_headers := [("x-api-key", JS.interpolate (CLAUDE_API_KEY env));
                    ("anthropic-version", "2023-06-01");
                    ("content-type", "application/json")];
     rq_body := MessagesBody CLAUDE_MODEL 300 SYSTEM_PROMPT (userPrompt article) |}.

Definition summarizeArticle (article : Article) (env : Env) : M string :=
  await response ← http_fetch (messages_request article env);
  if negb (rs_ok response)
  then throw ("Claude API error: " +:+ pretty (rs_status response) +:+ " - " +:+ rs_text response)
  else
    await data ← response_json response;
    match data with
    | MessagePayload text => ret text
    | _ => throw "Cannot read properties of undefined (reading '0')"
    end.

Definition getCachedOrSummarize (article : Article) (env : Env) : M string :=
  let cacheKey := "summary:" +:+ art_id article in
  await cached ← KV.get cacheKey;
  match cached with
  | Some (String _ _ as cached) =>
      await_ console_log ["Cache hit for article " +:+ art_id article];
      ret cached
  | _ =>
      await_ console_log ["Cache miss for article " +:+ art_id article +:+ ", generating..."];
      await summary ← summarizeArticle article env;
      await_ KV.put cacheKey summary SUMMARY_CACHE_TTL;
      ret summary
  end.

(** *** API handlers *)

(** The object pushed onto [summaries]. *)
Definition feed_item (article : Article) (summary : string) : FeedItem :=
  {| fi_id := art_id article;
     fi_title := JS.or_str (art_title article) "Untitled";
     fi_source := extractSource article;
     fi_summary := summary;
     fi_content :=
       JS.or_str (JS.or (JS.or (art_content article) (art_html article)) (art_text article)) "";
     fi_url := art_url article;
     fi_readwise_url := "https://readwise.io/reader/document/" +:+ art_id article;
     fi_original_url := JS.or (art_source_url article) (art_url article);
     fi_word_count := JS.split_ws_length (JS.or_str (art_content article) "");
     fi_location := art_location article |}.

(** The callback of step 3's [filter]. *)
Definition not_heard_or_later (heardIds laterIds : gset string) (article : Article) : bool :=
  let isHeard := bool_decide (art_id article ∈ heardIds) in
  let isLater := bool_decide (art_id article ∈ laterIds) in
  negb isHeard || isLater.

(** The body of the [for ... of] loop of step 4, a [try] with its [catch];
    [summaries] is the array it pushes to.  The store's [delete] does not
    fail here, so nothing is thrown after the [push]. *)
Definition summarize_one (env : Env) (laterIds : gset string) (article : Article)
    (summaries : list FeedItem) : M (list FeedItem) :=
  try_catch
    (await summary ← getCachedOrSummarize article env;
     let summaries := summaries ++ [feed_item article summary] in
     await_ (if bool_decide (art_id article ∈ laterIds)
             then KV.delete ("later:" +:+ art_id article)
             else ret tt);
     ret summaries)
    (λ error,
       await_ console_error ["Failed to summarize article " +:+ art_id article +:+ ":"; error];
       ret summaries).

(** The loop itself, over the capped candidates. *)
Fixpoint summarize_each (env : Env) (laterIds : gset string) (articles : list Article)
    (summaries : list FeedItem) : M (list FeedItem) :=
  match articles with
  | [] => ret summaries
  | article :: rest =>
      await summaries ← summarize_one env laterIds article summaries;
      summarize_each env laterIds rest summaries
  end.

(** Steps 1 to 3 of [handleFeed]: [newArticles] together with the set of
    deferred ids read on the way. *)
Definition feed_candidates (env : Env) (location : string) : M (list Article * gset string) :=
  await articles ← fetchAllReadwiseArticles env location;
  await heardIds ← getHeardIds;
  await laterIds ← getLaterIds;
  ret (List.filter (not_heard_or_later heardIds laterIds) articles, laterIds).

Definition handleFeed (request : Request) (env : Env) (corsHeaders : list (string * string))
  : M Response :=
  let location := JS.or_str (req_location request) "all" in
  await candidates ← feed_candidates env location;
  let newArticles := fst candidates in
  let laterIds := snd candidates in
  await summaries ← summarize_each env laterIds (take MAX_ARTICLES newArticles) [];
  ret (json_response corsHeaders (BodyFeed summaries (length newArticles) location)).

Definition browser_tts (corsHeaders : list (string * string)) (text : option string) : Response :=
  json_response corsHeaders (BodyBrowserTTS text).

Definition handleTTS (request : Request) (env : Env) (corsHeaders : list (string * string))
  : M Response :=
  await body ← request_json request;
  let text := jb_text body in
  let voice := match jb_voice body with Some v => v | None => "alloy" end in
  await_ console_log
    ["API Key starts with sk-:";
     match OPENAI_API_KEY env with
     | Some k => if JS.startsWith k "sk-" then "true" else "false"
     | None => "undefined"
     end];
  if negb (JS.truthy (OPENAI_API_KEY env)) then ret (browser_tts corsHeaders text)
  else
    match text with
    | None => throw "Cannot read properties of undefined (reading 'slice')"
    | Some input =>
        await response ← http_fetch
          {| rq_method := "POST";
             rq_url := "https://api.openai.com/v1/audio/speech";
             rq_query := [];
             rq_headers :=
               [("Authorization", "Bearer " +:+ JS.interpolate (OPENAI_API_KEY env));
                ("Content-Type", "application/json")];
             rq_body := SpeechBody "gpt-4o-mini-tts" (JS.slice0 4096 input) voice "mp3" |};
        if negb (rs_ok response) then
          await_ console_error ["OpenAI TTS error:"; rs_text response];
          ret (browser_tts corsHeaders text)
        else
          ret {| resp_status := 200;
                 resp_headers := corsHeaders ++ [("Content-Type", "audio/mpeg")];
                 resp_body := BodyStream (rs_text response) |}
    end.

Definition handleArchive (request : Request) (env : Env) (corsHeaders : list (string * string))
  : M Response :=
  await body ← request_json request;
  let id := jb_id body in
  await t ← Date_now;
  await_ KV.put ("heard:" +:+ JS.interpolate id) (pretty t) (60 * 60 * 24 * 30);
  await_ updateReadwiseDocument id (UpdateBody "archive") env;
  ret (json_response corsHeaders BodySuccess).

Definition handleDelete (request : Request) (env : Env) (corsHeaders : list (string * string))
  : M Response :=
  await body ← request_json request;
  let id := jb_id body in
  await t ← Date_now;
  await_ KV.put ("heard:" +:+ JS.interpolate id) (pretty t) (60 * 60 * 24 * 30);
  await_ deleteReadwiseDocument id env;
  ret (json_response corsHeaders BodySuccess).

Definition handleLater (request : Request) (env : Env) (corsHeaders : list (string * string))
  : M Response :=
  await body ← request_json request;
  let id := jb_id body in
  await t ← Date_now;
  await_ KV.put ("later:" +:+ JS.interpolate id) (pretty t) (60 * 60 * 24 * 7);
  await_ KV.delete ("heard:" +:+ JS.interpolate id);
  ret (json_response corsHeaders BodySuccess).

(** *** Static content *)

Definition serveManifest : Response :=
  {| resp_status := 200;
     resp_headers := [("Content-Type", "application/json")];
     resp_body := BodyManifest |}.

Definition serveHTML (env : Env) : M Response :=
  ret {| resp_status := 200;
         resp_headers := [("Content-Type", "text/html")];
         resp_body := BodyHTML |}.

(** *** Main handler *)

(** The body of the [try] block: the routes, tried in order. *)
Definition dispatch (request : Request) (env : Env) : M Response :=
  let path := req_pathname request in
  if String.eqb path "/" || JS.endsWith path "/index.html" then serveHTML env
  else if JS.includes path "/api/feed" then handleFeed request env corsHeaders
  else if JS.includes path "/api/tts" && String.eqb (req_method request) "POST"
  then handleTTS request env corsHeaders
  else if JS.includes path "/api/archive" && String.eqb (req_method request) "POST"
  then handleArchive request env corsHeaders
  else if JS.includes path "/api/delete" && String.eqb (req_method request) "POST"
  then handleDelete request env corsHeaders
  else if JS.includes path "/api/later" && String.eqb (req_method request) "POST"
  then handleLater request env corsHeaders
  else if String.eqb path "/manifest.json" then ret serveManifest
  else ret {| resp_status := 404; resp_headers := []; resp_body := BodyText "Not Found" |}.

Definition fetch (request : Request) (env : Env) : M Response :=
  if String.eqb (req_method request) "OPTIONS"
  then ret {| resp_status := 200; resp_headers := corsHeaders; resp_body := BodyNull |}
  else
    try_catch (dispatch request env)
      (λ error,
         await_ console_error ["Worker error:"; error];
         ret {| resp_status := 500;
                resp_headers := corsHeaders ++ [("Content-Type", "application/json")];
                resp_body := BodyError error |}).

End Worker.

(** ** A small URL parser to run the worker on examples

    The platform's parser is a parameter of the worker.  This instance reads
    URLs of the form [scheme://host[:port][/path][?query][#fragment]] and
    rejects a string without [://] or without a host; the examples below use
    nothing else. *)

Module SimpleURL.

Fixpoint after_scheme (s : string) : option string :=
  if String.prefix "://" s then Some (JS.drop 3 s)
  else match s with
       | "" => None
       | String _ s' => after_scheme s'
       end.

Definition ends_host (c : ascii) : bool :=
  let n := nat_of_ascii c in
  ((n =? 47) || (n =? 63) || (n =? 35) || (n =? 58))%nat.

Fixpoint host_of (s : string) : string :=
  match s with
  | "" => ""
  | String c s' => if ends_host c then "" else String c (host_of s')
  end.

Definition hostname (s : string) : option string :=
  if String.prefix "://" s then None
  else match after_scheme s with
       | Some rest =>
           match host_of rest with
           | "" => None
           | h => Some h
           end
       | None => None
       end.

End SimpleURL.

(** * The script of the page

    The page that [serveHTML] sends holds a script: the list of articles of
    the last sync, the index of the current one, and the functions behind
    the buttons, the voice commands and the callbacks of speech, timers and
    requests.  They are modelled as the source has them, as functions on the
    state of the script.  What the script does to the document, to speech
    and to the network is recorded as the [page] of the state; a function
    that goes on after an [await] is split there, the part that follows
    being the function named [..._fetched], which takes the response (and
    [None] when the request itself failed).  The reader view
    ([readFullArticle], [playParagraph], [closeFullReader]), the functions
    that open a window and the recognition of voice commands are not
    modelled; of what happens to the document, the marking of the active
    buttons and tabs is left out. *)

Module Player.

Inductive view := Loading | PlayerView | Empty.

(** The arrow function that [play] hands to [speak] as [onEnd]; it holds
    the article that was current when [play] ran. *)
Inductive callback :=
| AfterSummary (article : FeedItem).

Inductive effect :=
| Toast (msg : string)
| Status (text : string)
| Show (v : view)
| Display (counter source title : string)
| Progress (width : string)
| PlayButton (playing : bool)
| RenderList
| Tab (tabId : string)
| SynthCancel
| AudioPause
| SynthSpeak (text : string) (onEnd : callback) (onerror : bool)
| AudioPlay (blob : response_body) (onEnd : callback)
| ProgressTimer
| ClearProgressTimer
| Timeout (ms : Z)
| Fetch (method url : string) (body : option JsonBody)
| ConsoleError (args : list string).

(** [localStorage], its JSON values parsed; they are the values the script
    has written, [None] where it has written none. *)
Record Storage := {
  st_articles : option (list FeedItem);
  st_played : option (list string);
  st_voice : option string;
  st_source : option string;
}.

(** The variables of the script.  [playedIds] is a [Set]: the list of its
    elements in the order of their insertion. *)
Record State := {
  articles : list FeedItem;
  currentIndex : Z;
  isPlaying : bool;
  currentAudio : option response_body;
  selectedVoice : string;
  selectedSource : string;
  playedIds : list string;
  localStorage : Storage;
  page : list effect;
}.

Definition set_articles (v : list FeedItem) (s : State) : State :=
  {| articles := v; currentIndex := currentIndex s; isPlaying := isPlaying s;
     currentAudio := currentAudio s; selectedVoice := selectedVoice s;
     selectedSource := selectedSource s; playedIds := playedIds s;
     localStorage := localStorage s; page := page s |}.

Definition set_currentIndex (v : Z) (s : State) : State :=
  {| articles := articles s; currentIndex := v; isPlaying := isPlaying s;
     currentAudio := currentAudio s; selectedVoice := selectedVoice s;
     selectedSource := selectedSource s; playedIds := playedIds s;
     localStorage := localStorage s; page := page s |}.

Definition set_isPlaying (v : bool) (s : State) : State :=
  {| articles := articles s; currentIndex := currentIndex s; isPlaying := v;
     currentAudio := currentAudio s; selectedVoice := selectedVoice s;
     selectedSource := selectedSource s; playedIds := playedIds s;
     localStorage := localStorage s; page := page s |}.

Definition set_currentAudio (v : option response_body) (s : State) : State :=
  {| articles := articles s; currentIndex := currentIndex s; isPlaying := isPlaying s;
     currentAudio := v; selectedVoice := selectedVoice s;
     selectedSource := selectedSource s; playedIds := playedIds s;
     localStorage := localStorage s; page := page s |}.

Definition set_selectedVoice (v : string) (s : State) : State :=
  {| articles := articles s; currentIndex := currentIndex s; isPlaying := isPlaying s;
     currentAudio := currentAudio s; selectedVoice := v;
     selectedSource := selectedSource s; playedIds := playedIds s;
     localStorage := localStorage s; page := page s |}.

Definition set_selectedSource (v : string) (s : State) : State :=
  {| articles := articles s; currentIndex := currentIndex s; isPlaying := isPlaying s;
     currentAudio := currentAudio s; selectedVoice := selectedVoice s;
     selectedSource := v; playedIds := playedIds s;
     localStorage := localStorage s; page := page s |}.

Definition set_playedIds (v : list string) (s : State) : State :=
  {| articles := articles s; currentIndex := currentIndex s; isPlaying := isPlaying s;
     currentAudio := currentAudio s; selectedVoice := selectedVoice s;
     selectedSource := selectedSource s; playedIds := v;
     localStorage := localStorage s; page := page s |}.

Definition set_localStorage (v : Storage) (s : State) : State :=
  {| articles := articles s; currentIndex := currentIndex s; isPlaying := isPlaying s;
     currentAudio := currentAudio s; selectedVoice := selectedVoice s;
     selectedSource := selectedSource s; playedIds := playedIds s;
     localStorage := v; page := page s |}.

Definition set_page (v : list effect) (s : State) : State :=
  {| articles := articles s; currentIndex := currentIndex s; isPlaying := isPlaying s;
     currentAudio := currentAudio s; selectedVoice := selectedVoice s;
     selectedSource := selectedSource s; playedIds := playedIds s;
     localStorage := localStorage s; page := v |}.

(** [localStorage.setItem] *)
Definition setItem_articles (v : list FeedItem) (st : Storage) : Storage :=
  {| st_articles := Some v; st_played := st_played st; st_voice := st_voice st;
     st_source := st_source st |}.

Definition setItem_played (v : list string) (st : Storage) : Storage :=
  {| st_articles := st_articles st; st_played := Some v; st_voice := st_voice st;
     st_source := st_source st |}.

Definition setItem_voice (v : string) (st : Storage) : Storage :=
  {| st_articles := st_articles st; st_played := st_played st; st_voice := Some v;
     st_source := st_source st |}.

Definition setItem_source (v : string) (st : Storage) : Storage :=
  {| st_articles := st_articles st; st_played := st_played st; st_voice := st_voice st;
     st_source := Some v |}.

(** ** Statements

    A function of the script takes the state to an outcome and a state; it
    throws where the source reads a property of [undefined]. *)

Definition Script : Type := State → outcome unit * State.

Definition skip : Script := λ s, (Ok tt, s).

Definition raise (message : string) : Script := λ s, (Throw message, s).

(** The statements of a block, one after the other. *)
Fixpoint block (statements : list Script) : Script :=
  match statements with
  | [] => skip
  | statement :: rest => λ s,
      match statement s with
      | (Ok _, s') => block rest s'
      | (Throw e, s') => (Throw e, s')
      end
  end.

(** [try { body } catch (error) { handler }] *)
Definition try_ (body : Script) (handler : string → Script) : Script := λ s,
  match body s with
  | (Ok _, s') => (Ok tt, s')
  | (Throw e, s') => handler e s'
  end.

Definition assign (update : State → State) : Script := λ s, (Ok tt, update s).

Definition does (e : effect) : Script := λ s, (Ok tt, set_page (page s ++ [e]) s).

(** ** Arrays and sets *)

(** [array[index]] *)
Definition at_index {A} (array : list A) (index : Z) : option A :=
  if index <? 0 then None else array !! Z.to_nat index.

(** [array.length] *)
Definition length_of {A} (array : list A) : Z := Z.of_nat (length array).

(** [array.splice(start, 1)] *)
Definition splice_one {A} (start : Z) (array : list A) : list A :=
  let actualStart :=
    if start <? 0 then Z.max (length_of array + start) 0 else Z.min start (length_of array) in
  delete (Z.to_nat actualStart) array.

(** [array.slice(-count)] *)
Definition slice_last {A} (count : nat) (array : list A) : list A :=
  drop (length array - count) array.

(** [set.add(value)] *)
Definition Set_add (value : string) (set : list string) : list string :=
  if bool_decide (value ∈ set) then set else set ++ [value].

(** [new Set(array)] *)
Definition Set_from (array : list string) : list string :=
  foldl (λ set value, Set_add value set) [] array.

(** ** The worker's response, as the script reads it *)

Definition lower_ascii (c : ascii) : ascii :=
  let n := nat_of_ascii c in
  if ((65 <=? n) && (n <=? 90))%nat then ascii_of_nat (n + 32) else c.

Fixpoint toLowerCase (s : string) : string :=
  match s with
  | "" => ""
  | String c s' => String (lower_ascii c) (toLowerCase s')
  end.

(** [response.headers.get(name)] *)
Definition headers_get (name : string) (headers : list (string * string)) : option string :=
  match List.filter (λ h, String.eqb (toLowerCase (fst h)) (toLowerCase name)) headers with
  | [] => None
  | found => Some (String.concat ", " (map snd found))
  end.

(** [response.ok] *)
Definition ok (response : Response) : bool :=
  (200 <=? resp_status response) && (resp_status response <=? 299).

(** What the script reads of [await response.json()]. *)
Record Data := {
  d_error : option string;
  d_articles : option (list FeedItem);
  d_use_browser_tts : bool;
}.

(** [response.json()]; [None] when the promise rejects, as it does on the
    bodies of the worker that are no JSON. *)
Definition json (response : Response) : option Data :=
  match resp_body response with
  | BodyFeed items _ _ =>
      Some {| d_error := None; d_articles := Some items; d_use_browser_tts := false |}
  | BodyError message =>
      Some {| d_error := Some message; d_articles := None; d_use_browser_tts := false |}
  | BodyBrowserTTS _ =>
      Some {| d_error := None; d_articles := None; d_use_browser_tts := true |}
  | BodySuccess | BodyManifest =>
      Some {| d_error := None; d_articles := None; d_use_browser_tts := false |}
  | BodyNull | BodyText _ | BodyHTML | BodyStream _ => None
  end.

(** ** The page *)

Definition showToast (msg : string) : Script := does (Toast msg).

Definition updateStatus (text : string) : Script := does (Status text).

Definition showLoading : Script := does (Show Loading).

Definition showPlayer : Script := does (Show PlayerView).

Definition showEmpty : Script := does (Show Empty).

Definition updatePlayButton : Script := λ s, does (PlayButton (isPlaying s)) s.

Definition renderList : Script := does RenderList.

Definition showTab (tabId : string) : Script := does (Tab tabId).

(** [articles[currentIndex]] *)
Definition current (s : State) : option FeedItem := at_index (articles s) (currentIndex s).

Definition updateDisplay : Script := λ s,
  if length_of (articles s) =? 0 then skip s
  else
    match current s with
    | None => raise "Cannot read properties of undefined (reading 'source')" s
    | Some article =>
        block
          [does (Display ("Article " +:+ pretty (currentIndex s + 1) +:+ " of "
                          +:+ pretty (length_of (articles s)))
                   (fi_source article) (fi_title article));
           does (Progress "0%")] s
    end.

(** ** Speech *)

Definition stop : Script :=
  block
    [does SynthCancel;
     λ s, match currentAudio s with
          | Some _ => block [does AudioPause; assign (set_currentAudio None)] s
          | None => skip s
          end].

(** [speak], up to its [await fetch]. *)
Definition speak (text : string) (onEnd : callback) : Script :=
  block
    [stop;
     λ s, if String.eqb (selectedVoice s) "browser"
          then does (SynthSpeak text onEnd true) s
          else
            block
              [showToast "Generating audio...";
               does (Fetch "POST" "/api/tts"
                       (Some {| jb_id := None; jb_text := Some text;
                                jb_voice := Some (selectedVoice s) |}))] s].

(** [speak], from the response on. *)
Definition speak_fetched (response : option Response) (text : string) (onEnd : callback)
  : Script :=
  try_
    (λ s,
       match response with
       | None => raise "Failed to fetch" s
       | Some response =>
           block
             [λ s,
                match headers_get "content-type" (resp_headers response) with
                | Some (String _ _ as contentType) =>
                    if JS.includes contentType "application/json"
                    then
                      match json response with
                      | None => raise "Unexpected token in JSON" s
                      | Some data =>
                          if d_use_browser_tts data
                          then raise "Server requested browser TTS" s
                          else skip s
                      end
                    else skip s
                | _ => skip s
                end;
              λ s, if negb (ok response) then raise "TTS Network Error" s else skip s;
              assign (set_currentAudio (Some (resp_body response)));
              does (AudioPlay (resp_body response) onEnd)] s
       end)
    (λ error,
       block
         [does (ConsoleError ["TTS error:"; error]);
          showToast "Audio failed, using browser";
          does (SynthSpeak text onEnd false)]).

(** ** Playback *)

Definition play : Script := λ s,
  if length_of (articles s) =? 0 then skip s
  else
    match current s with
    | None => raise "Cannot read properties of undefined (reading 'source')" s
    | Some article =>
        let text := "Next, from " +:+ fi_source article +:+ ". " +:+ fi_summary article in
        block
          [assign (set_isPlaying true);
           updatePlayButton;
           does ProgressTimer;
           speak text (AfterSummary article)] s
    end.

Definition pause : Script := block [stop; assign (set_isPlaying false); updatePlayButton].

Definition replay : Script := block [stop; does (Progress "0%"); play].

Definition togglePlayPause : Script := λ s, if isPlaying s then pause s else play s.

Definition markPlayed (id : string) : Script :=
  block
    [assign (λ s, set_playedIds (Set_add id (playedIds s)) s);
     assign (λ s, set_localStorage
                    (setItem_played (slice_last 200 (playedIds s)) (localStorage s)) s);
     renderList].

(** [markPlayed(articles[currentIndex].id)] *)
Definition markPlayed_current : Script := λ s,
  match current s with
  | None => raise "Cannot read properties of undefined (reading 'id')" s
  | Some article => markPlayed (fi_id article) s
  end.

Definition skipArticle : Script := λ s,
  if currentIndex s <? length_of (articles s) - 1 then
    block
      [stop; markPlayed_current;
       assign (λ s, set_currentIndex (currentIndex s + 1) s); updateDisplay; renderList;
       λ s, if isPlaying s then play s else skip s] s
  else showToast "Last article" s.

Definition previousArticle : Script := λ s,
  if 0 <? currentIndex s then
    block
      [stop;
       assign (λ s, set_currentIndex (currentIndex s - 1) s); updateDisplay; renderList;
       λ s, if isPlaying s then play s else skip s] s
  else showToast "First article" s.

Definition selectArticle (index : Z) : Script :=
  block
    [assign (set_currentIndex index); updateDisplay; renderList;
     showTab "player-view"; play].

(** The [onEnd] of [play]. *)
Definition play_onEnd (onEnd : callback) : Script :=
  match onEnd with
  | AfterSummary article =>
      block
        [does ClearProgressTimer; does (Progress "100%");
         markPlayed (fi_id article);
         does (Timeout 1000)]
  end.

(** The function [play_onEnd] hands to [setTimeout]. *)
Definition play_onTimeout : Script := λ s,
  if isPlaying s && (currentIndex s <? length_of (articles s) - 1) then
    block
      [assign (λ s, set_currentIndex (currentIndex s + 1) s); updateDisplay; renderList;
       play] s
  else if length_of (articles s) - 1 <=? currentIndex s then
    block
      [assign (set_isPlaying false); updatePlayButton;
       showToast "Finished all articles"] s
  else skip s.

(** The [onerror] of the utterance of the browser voice and of the audio. *)
Definition speech_onerror : Script := block [assign (set_isPlaying false); updatePlayButton].

(** ** Voice and source *)

Definition setVoice (voice : string) : Script :=
  block
    [assign (set_selectedVoice voice);
     assign (λ s, set_localStorage (setItem_voice voice (localStorage s)) s);
     showToast ("Voice: " +:+ voice)].

(** [syncFeed], up to its [await fetch]. *)
Definition syncFeed : Script :=
  block
    [showLoading; updateStatus "Syncing...";
     λ s, does (Fetch "GET" ("/api/feed?location=" +:+ selectedSource s) None) s].

(** [syncFeed], from the response on. *)
Definition syncFeed_fetched (response : option Response) : Script :=
  try_
    (λ s,
       match response with
       | None => raise "Failed to fetch" s
       | Some response =>
           match json response with
           | None => raise "Unexpected token in JSON" s
           | Some data =>
               match d_error data with
               | Some (String _ _ as error) => raise error s
               | _ =>
                   block
                     [assign (set_articles (default [] (d_articles data)));
                      assign (λ s, set_localStorage
                                     (setItem_articles (articles s) (localStorage s)) s);
                      assign (set_currentIndex 0);
                      λ s, if length_of (articles s) =? 0
                           then block [showEmpty; updateStatus "No new articles"] s
                           else
                             block
                               [showPlayer; updateDisplay; renderList;
                                updateStatus (pretty (length_of (articles s))
                                              +:+ " articles ready");
                                showToast (pretty (length_of (articles s))
                                           +:+ " articles loaded")] s] s
               end
           end
       end)
    (λ error,
       block
         [does (ConsoleError ["Sync error:"; error]);
          showToast ("Sync failed: " +:+ error);
          updateStatus "Sync failed";
          showEmpty]).

Definition setSource (source : string) : Script :=
  block
    [assign (set_selectedSource source);
     assign (λ s, set_localStorage (setItem_source source (localStorage s)) s);
     showToast ("Source: " +:+ source);
     syncFeed].

(** ** Actions *)

Definition removeCurrentArticle : Script :=
  block
    [stop;
     assign (λ s, set_articles (splice_one (currentIndex s) (articles s)) s);
     assign (λ s, set_localStorage (setItem_articles (articles s) (localStorage s)) s);
     λ s, if length_of (articles s) =? 0 then showEmpty s
          else
            block
              [λ s, if length_of (articles s) <=? currentIndex s
                    then assign (set_currentIndex (length_of (articles s) - 1)) s
                    else skip s;
               updateDisplay; renderList; play] s].

(** [archiveArticle], [deleteArticle] and [laterArticle], up to their
    [await fetch]: the toast, then the request for the current article. *)
Definition action_request (toast path : string) : Script := λ s,
  let article := current s in
  block
    [showToast toast;
     try_
       (match article with
        | None => raise "Cannot read properties of undefined (reading 'id')"
        | Some article =>
            does (Fetch "POST" path
                    (Some {| jb_id := Some (fi_id article); jb_text := None;
                             jb_voice := None |}))
        end)
       (λ _, showToast "Failed")] s.

(** The same, once the request is settled: [resolved] tells whether it was
    fulfilled, by a response of any status. *)
Definition action_fetched (resolved : bool) (toast : option string) : Script :=
  try_
    (if resolved then
       block
         [match toast with Some msg => showToast msg | None => skip end;
          removeCurrentArticle]
     else raise "Failed to fetch")
    (λ _, showToast "Failed").

Definition archiveArticle : Script := action_request "Archiving..." "/api/archive".

Definition archiveArticle_fetched (resolved : bool) : Script :=
  action_fetched resolved (Some "Archived").

Definition deleteArticle : Script := action_request "Deleting..." "/api/delete".

Definition deleteArticle_fetched (resolved : bool) : Script :=
  action_fetched resolved (Some "Deleted").

Definition laterArticle : Script := action_request "Saved for later" "/api/later".

Definition laterArticle_fetched (resolved : bool) : Script := action_fetched resolved None.

(** ** Start *)

(** The state the script starts in, given what [localStorage] holds. *)
Definition initial (stored : Storage) : State :=
  {| articles := [];
     currentIndex := 0;
     isPlaying := false;
     currentAudio := None;
     selectedVoice := JS.or_str (st_voice stored) "alloy";
     selectedSource := JS.or_str (st_source stored) "all";
     playedIds := Set_from (default [] (st_played stored));
     localStorage := stored;
     page := [] |}.

(** The [DOMContentLoaded] listener: the articles of the last sync come
    back from [localStorage]. *)
Definition onDOMContentLoaded : Script :=
  block
    [assign (λ s, match st_articles (localStorage s) with
                  | Some cached => set_articles cached s
                  | None => s
                  end);
     λ s, if 0 <? length_of (articles s)
          then block [showPlayer; updateDisplay; renderList] s
          else showEmpty s].

(** ** What the page reacts to

    The buttons of the page and the voice commands call the functions
    above; speech, the timer and the requests call back. *)
Inductive input :=
| TogglePlayPause
| PlayCommand
| PauseCommand
| StopButton
| Replay
| Skip
| Previous
| Select (index : Z)
| Archive
| Delete
| Later
| Voice (voice : string)
| Source (source : string)
| Sync
| SpeechEnded (onEnd : callback)
| SpeechFailed
| TimeoutFired
| SpeechFetched (response : option Response) (text : string) (onEnd : callback)
| FeedFetched (response : option Response)
| ArchiveFetched (resolved : bool)
| DeleteFetched (resolved : bool)
| LaterFetched (resolved : bool).

Definition react (i : input) : Script :=
  match i with
  | TogglePlayPause => togglePlayPause
  | PlayCommand => play
  | PauseCommand => pause
  | StopButton => stop
  | Replay => replay
  | Skip => skipArticle
  | Previous => previousArticle
  | Select index => selectArticle index
  | Archive => archiveArticle
  | Delete => deleteArticle
  | Later => laterArticle
  | Voice voice => setVoice voice
  | Source source => setSource source
  | Sync => syncFeed
  | SpeechEnded onEnd => play_onEnd onEnd
  | SpeechFailed => speech_onerror
  | TimeoutFired => play_onTimeout
  | SpeechFetched response text onEnd => speak_fetched response text onEnd
  | FeedFetched response => syncFeed_fetched response
  | ArchiveFetched resolved => archiveArticle_fetched resolved
  | DeleteFetched resolved => deleteArticle_fetched resolved
  | LaterFetched resolved => laterArticle_fetched resolved
  end.

End Player.

(** * The vocabulary of the specification *)

(** A [POST] request carrying a JSON body. *)
Definition post (path : string) (body : JsonBody) : Request :=
  {| req_method := "POST"; req_pathname := path; req_location := None; req_json := Some body |}.

(** A [GET] request, with its [location] query parameter. *)
Definition get (path : string) (location : option string) : Request :=
  {| req_method := "GET"; req_pathname := path; req_location := location; req_json := None |}.

(** The response of the [catch] block of the main handler. *)
Definition error_response (message : string) : Response :=
  {| resp_status := 500;
     resp_headers := corsHeaders ++ [("Content-Type", "application/json")];
     resp_body := BodyError message |}.

Definition thirty_days : Z := 30 * 24 * 60 * 60.

(** A request matches a route when one of the tests of the main handler
    accepts it: the page, the feed, one of the four [POST] actions, the
    manifest. *)
Definition matches_route (request : Request) : bool :=
  let path := req_pathname request in
  let is_post := String.eqb (req_method request) "POST" in
  String.eqb path "/" || JS.endsWith path "/index.html"
  || JS.includes path "/api/feed"
  || JS.includes path "/api/tts" && is_post
  || JS.includes path "/api/archive" && is_post
  || JS.includes path "/api/delete" && is_post
  || JS.includes path "/api/later" && is_post
  || String.eqb path "/manifest.json".

Definition not_found : Response :=
  {| resp_status := 404; resp_headers := []; resp_body := BodyText "Not Found" |}.

(** The [catch] block of the main handler. *)
Definition on_error (error : string) : M Response :=
  await_ console_error ["Worker error:"; error];
  ret (error_response error).

(** The label as the specification words it: the host name loses a
    _leading_ [www.] and nothing else. *)
Definition strip_leading_www (hostname : string) : string :=
  if String.prefix "www." hostname then JS.drop 4 hostname else hostname.

Definition source_label (URL_hostname : string → option string) (article : Article) : string :=
  match art_site_name article with
  | Some (String _ _ as site_name) => site_name
  | _ =>
      match art_source_url article with
      | Some (String _ _ as source_url) =>
          match URL_hostname source_url with
          | Some hostname => strip_leading_www hostname
          | None => "Unknown source"
          end
      | _ => "Unknown source"
      end
  end.

Definition article_from (site_name source_url : option string) : Article :=
  {| art_id := "a"; art_title := None; art_category := Some "article";
     art_location := Some "new"; art_site_name := site_name; art_source_url := source_url;
     art_url := None; art_content := None; art_html := None; art_text := None;
     art_summary := None; art_notes := None; art_saved_at := None |}.

Definition is_summarizer_call (e : event) : bool :=
  match e with
  | EvFetch rq => String.eqb (rq_url rq) "https://api.anthropic.com/v1/messages"
  | _ => false
  end.

(** The number of calls to the summarizer in a trace. *)
Definition summarizer_calls (t : list event) : nat :=
  length (List.filter is_summarizer_call t).

(** [a] was saved no earlier than [b]: the order of the feed, most recent
    first. *)
Definition newest_first (a b : Article) : Prop :=
  ∃ ta tb, art_saved_at a = Some ta ∧ art_saved_at b = Some tb ∧ tb ≤ ta.


(** The worlds that differ by effects other than writes to the store. *)
Definition same_store (w w' : World) : Prop := kv w' = kv w ∧ now w' = now w.

(** The message logged for an article whose summary could not be had. *)
Definition skipped (article : Article) (error : string) : event :=
  EvLog ["Failed to summarize article " +:+ art_id article +:+ ":"; error].





(** ** The vocabulary of the further properties *)

Definition list_url : string := "https://readwise.io/api/v3/list/".

Definition is_fetch (e : event) : bool :=
  match e with
  | EvFetch _ => true
  | _ => false
  end.

(** The number of requests to the network in a trace. *)
Definition fetch_count (t : list event) : nat := length (List.filter is_fetch t).

(** What pagination may do: [GET] the list endpoint, log and wait. *)
Definition list_traffic (e : event) : Prop :=
  match e with
  | EvFetch rq => rq_url rq = list_url ∧ rq_method rq = "GET"
  | EvLog _ | EvSleep _ => True
  | _ => False
  end.

(** The events of one attempt that is answered with a 429. *)
Definition rate_limited_attempt (rq : http_request) (r : http_response) : list event :=
  [EvFetch rq;
   EvLog ["Rate limited. Waiting " +:+ pretty (resetTime r) +:+ "s..."];
   EvSleep (resetTime r * 1000)].

(** The request [handleTTS] sends. *)
Definition speech_request (env : Env) (input voice : string) : http_request :=
  {| rq_method := "POST";
     rq_url := "https://api.openai.com/v1/audio/speech";
     rq_query := [];
     rq_headers := [("Authorization", "Bearer " +:+ JS.interpolate (OPENAI_API_KEY env));
                    ("Content-Type", "application/json")];
     rq_body := SpeechBody "gpt-4o-mini-tts" (JS.slice0 4096 input) voice "mp3" |}.

(** The line [handleTTS] logs about the key. *)
Definition key_log (env : Env) : event :=
  EvLog ["API Key starts with sk-:";
         match OPENAI_API_KEY env with
         | Some k => if JS.startsWith k "sk-" then "true" else "false"
         | None => "undefined"
         end].

(** The audio response of [handleTTS]. *)
Definition audio_response (cors : list (string * string)) (data : string) : Response :=
  {| resp_status := 200;
     resp_headers := cors ++ [("Content-Type", "audio/mpeg")];
     resp_body := BodyStream data |}.

(** The answer to a preflight request. *)
Definition preflight : Response :=
  {| resp_status := 200; resp_headers := corsHeaders; resp_body := BodyNull |}.

(** The summary of a feed item is the one the cache holds for its id;
    nothing is said of an empty summary, which the cache does not serve. *)
Definition cached_summary (w : World) (item : FeedItem) : Prop :=
  fi_summary item ≠ "" →
  KV.read (now w) (kv w) ("summary:" +:+ fi_id item) = Some (fi_summary item).

(** The documents of a page that a sync keeps. *)
Definition kept (locationFilter : string) (data : payload) : list Article :=
  List.filter (keep_document locationFilter) (payload_results data).

(** ** The vocabulary of the properties of the script *)

(** The list of articles, the index, the played ids and the storage are
    the same in both states. *)
Definition same_list (s s' : Player.State) : Prop :=
  Player.articles s' = Player.articles s
  ∧ Player.currentIndex s' = Player.currentIndex s
  ∧ Player.playedIds s' = Player.playedIds s
  ∧ Player.localStorage s' = Player.localStorage s.

(** What the script relies on: the index points into the list (it is 0
    when the list is empty), no id is twice among the played ones, and the
    list in memory is the one in storage. *)
Definition consistent (s : Player.State) : Prop :=
  0 ≤ Player.currentIndex s < Z.max 1 (Player.length_of (Player.articles s))
  ∧ NoDup (Player.playedIds s)
  ∧ default [] (Player.st_articles (Player.localStorage s)) = Player.articles s.


(** The state after a sequence of inputs. *)
Fixpoint run (inputs : list Player.input) (s : Player.State) : Player.State :=
  match inputs with
  | [] => s
  | i :: rest => run rest (snd (Player.react i s))
  end.



(** The state of the page once it is loaded. *)
Definition started (stored : Player.Storage) : Player.State :=
  snd (Player.onDOMContentLoaded (Player.initial stored)).

(** One article is spoken to its end and the timer fires. *)
Definition round (s : Player.State) : Player.State :=
  match Player.current s with
  | Some article =>
      snd (Player.play_onTimeout (snd (Player.play_onEnd (Player.AfterSummary article) s)))
  | None => s
  end.

(** The request the script sends for speech. *)
Definition speech_of (text voice : string) : Request :=
  {| req_method := "POST"; req_pathname := "/api/tts"; req_location := None;
     req_json := Some {| jb_id := None; jb_text := Some text; jb_voice := Some voice |} |}.

(** Nothing but the page and the audio differs between the states. *)
Definition untouched (s s' : Player.State) : Prop :=
  same_list s s'
  ∧ Player.isPlaying s' = Player.isPlaying s
  ∧ Player.selectedVoice s' = Player.selectedVoice s
  ∧ Player.selectedSource s' = Player.selectedSource s.

(** A statement that ends well and leaves the variables alone. *)
Definition keeps (m : Player.Script) : Prop :=
  ∀ s, ∃ s', m s = (Ok tt, s') ∧ untouched s s'.

(** From a state that satisfies [P] the statement ends well, in a state
    that satisfies [Q]. *)
Definition triple (P : Player.State → Prop) (m : Player.Script) (Q : Player.State → Prop)
  : Prop :=
  ∀ s, P s → ∃ s', m s = (Ok tt, s') ∧ Q s'.

(** A property of the list, the index, the played ids and the storage. *)
Definition stable (P : Player.State → Prop) : Prop :=
  ∀ s s', same_list s s' → P s → P s'.

(** A consistent state whose list and index are related by [R]. *)
Definition within (R : list FeedItem → Z → Prop) (s : Player.State) : Prop :=
  consistent s ∧ R (Player.articles s) (Player.currentIndex s).

(** [n] articles in a row are spoken to their end. *)
Fixpoint rounds (n : nat) (s : Player.State) : Player.State :=
  match n with
  | O => s
  | S n' => rounds n' (round s)
  end.

(** The request the script sends for an action on an article. *)
Definition action_body (article : FeedItem) : JsonBody :=
  {| jb_id := Some (fi_id article); jb_text := None; jb_voice := None |}.

(** What the script does when it has no audio to play. *)
Definition browser_fallback (text : string) (onEnd : Player.callback) (error : string)
  : list Player.effect :=
  [Player.ConsoleError ["TTS error:"; error];
   Player.Toast "Audio failed, using browser";
   Player.SynthSpeak text onEnd false].

(** What the script does when a sync fails. *)
Definition sync_failure (error : string) : list Player.effect :=
  [Player.ConsoleError ["Sync error:"; error];
   Player.Toast ("Sync failed: " +:+ error);
   Player.Status "Sync failed";
   Player.Show Player.Empty].

(** With a voice other than [browser], [speak] ends on the request that
    [speech_of] describes. *)
Definition speech_is_requested (text : string) (onEnd : Player.callback) : Prop :=
  ∀ s, String.eqb (Player.selectedVoice s) "browser" = false →
    ∃ s1, Player.speak text onEnd s = (Ok tt, s1)
          ∧ last (Player.page s1)
            = Some (Player.Fetch "POST" "/api/tts"
                      (req_json (speech_of text (Player.selectedVoice s)))).

(** * Example worlds

    The fixtures of the repository's tests, with saved dates. *)

Definition example_env : Env :=
  {| READWISE_TOKEN := Some "test-readwise-token";
     CLAUDE_API_KEY := Some "test-claude-key";
     OPENAI_API_KEY := None |}.

Definition example_article (id location : string) (site_name source_url : option string)
    (saved_at : Z) : Article :=
  {| art_id := id; art_title := Some "Test Article"; art_category := Some "article";
     art_location := Some location; art_site_name := site_name;
     art_source_url := source_url; art_url := source_url;
     art_content := Some "This is the full content of the test article.";
     art_html := None; art_text := None; art_summary := None; art_notes := None;
     art_saved_at := Some saved_at |}.

Definition article_1 : Article :=
  example_article "article-1" "feed" (Some "The Atlantic")
    (Some "https://www.theatlantic.com/article/test-1") 1700000001000.

Definition article_2 : Article :=
  example_article "article-2" "new" None
    (Some "https://arstechnica.com/science/test-2") 1700000002000.

Definition article_3 : Article :=
  example_article "article-3" "archive" (Some "TechCrunch") None 1700000003000.

(** An article of the library. *)
Definition article_4 : Article :=
  example_article "article-4" "later" None None 1700000004000.

Definition list_page (results : list Article) (next : option string) : http_response :=
  {| rs_status := 200; rs_retry_after := None; rs_text := "";
     rs_json := Some (ListPayload (Some results) next) |}.

Definition message (text : string) : http_response :=
  {| rs_status := 200; rs_retry_after := None; rs_text := "";
     rs_json := Some (MessagePayload text) |}.

Definition failure (status : Z) (text : string) : http_response :=
  {| rs_status := status; rs_retry_after := None; rs_text := text; rs_json := None |}.

Definition marker : kv_entry := KvEntry "1699999990000" None.

Definition example_world (store : gmap string kv_entry) (responses : list http_response)
  : World :=
  {| kv := store; now := 1700000010000; upstream := responses; trace := [] |}.

Definition id_body (id : string) : JsonBody :=
  {| jb_id := Some id; jb_text := None; jb_voice := None |}.

(** [article-2] is heard; the page holds an archived article and one of the
    library as well. *)
Definition world_feed_scope : World :=
  example_world {["heard:article-2" := marker]}
    [list_page [article_1; article_2; article_3; article_4] None].


Definition world_one_summary : World :=
  example_world ∅ [message "A short summary."].

(** The summarizer answers with an empty text, twice. *)
Definition world_empty_summaries : World :=
  example_world ∅ [message ""; message ""].

(** [article-1] is heard and deferred; its page comes oldest first. *)
Definition world_deferred : World :=
  example_world {["heard:article-1" := marker; "later:article-1" := marker]}
    [list_page [article_1; article_2; article_3] None;
     message "Summary two."; message "Summary one."].

(** As [world_deferred], with the summary of [article-1] in the cache. *)
Definition world_deferred_cached : World :=
  example_world {["heard:article-1" := marker; "later:article-1" := marker;
                  "summary:article-1" := KvEntry "Summary one." None]}
    [list_page [article_1; article_2; article_3] None; message "Summary two."].

Definition world_failing_update : World :=
  example_world ∅ [failure 500 "Internal Server Error"].


(** The article store has the document at the first delete and not at the
    second. *)
Definition world_deleting_twice : World :=
  example_world ∅ [failure 204 ""; failure 404 "Not Found"].

Definition world_heard : World :=
  example_world {["heard:article-1" := marker]} [].

Definition html_page : Response :=
  {| resp_status := 200;
     resp_headers := [("Content-Type", "text/html")];
     resp_body := BodyHTML |}.

(** The article store answers 429 twice, then with the page. *)
Definition world_rate_limited_twice : World :=
  example_world ∅
    [{| rs_status := 429; rs_retry_after := Some 2; rs_text := ""; rs_json := None |};
     failure 429 "";
     list_page [article_1] None].

(** The article store answers 429 three times in a row. *)
Definition world_rate_limited_thrice : World :=
  example_world ∅ [failure 429 ""; failure 429 ""; failure 429 ""; list_page [article_1] None].

Definition world_unauthorized : World :=
  example_world {["heard:article-1" := marker]} [failure 401 "Unauthorized"].

(** An environment with a key for the speech service. *)
Definition speaking_env : Env :=
  {| READWISE_TOKEN := Some "test-readwise-token";
     CLAUDE_API_KEY := Some "test-claude-key";
     OPENAI_API_KEY := Some "sk-test" |}.

Definition speech_body (text : option string) : JsonBody :=
  {| jb_id := None; jb_text := text; jb_voice := None |}.

(** The speech service turns the request down. *)
Definition world_speech_refused : World :=
  example_world ∅ [failure 401 "Invalid key"].

(** The summarizer fails once and then answers. *)
Definition world_summarizer_recovers : World :=
  example_world ∅ [failure 529 "Overloaded"; message "A short summary."].



(** An action request whose body is no JSON. *)
Definition malformed_archive : Request :=
  {| req_method := "POST"; req_pathname := "/api/archive"; req_location := None;
     req_json := None |}.

(** The article store serves two pages. *)
Definition world_two_pages : World :=
  example_world ∅ [list_page [article_1] (Some "cursor-2"); list_page [article_2] None].

(** The items of a sync and a storage that holds them. *)
Definition item_1 : FeedItem := feed_item SimpleURL.hostname article_1 "Summary one.".

Definition item_2 : FeedItem := feed_item SimpleURL.hostname article_2 "Summary two.".

Definition item_4 : FeedItem := feed_item SimpleURL.hostname article_4 "Summary four.".

Definition stored_feed : Player.Storage :=
  {| Player.st_articles := Some [item_1; item_2; item_4];
     Player.st_played := Some ["article-0"];
     Player.st_voice := Some "browser";
     Player.st_source := None |}.

(** The page loaded from this storage, and the same once [play] has run. *)
Definition loaded : Player.State := started stored_feed.

Definition playing : Player.State := snd (Player.play loaded).

(** * Properties *)

(** ** Strings *)

Lemma append_String (c : ascii) (p t : string) : String c p +:+ t = String c (p +:+ t).
Proof. reflexivity. Qed.


Lemma prefix_append (p t : string) : String.prefix p (p +:+ t) = true.
Proof.
  induction p as [|c p IH].
  - by destruct t.
  - rewrite append_String. simpl.
    destruct (Ascii.ascii_dec c c); [exact IH | congruence].
Qed.





(** ** The key-value store *)



(** ** Running monadic code *)

Lemma bind_Ok {A B} (m : M A) (f : A → M B) (w w1 : World) (a : A) :
  m w = (Ok a, w1) → bind m f w = f a w1.
Proof. unfold bind. by intros ->. Qed.

Lemma bind_Throw {A B} (m : M A) (f : A → M B) (w w1 : World) (e : string) :
  m w = (Throw e, w1) → bind m f w = (Throw e, w1).
Proof. unfold bind. by intros ->. Qed.

Lemma bind_inv_Ok {A B} (m : M A) (f : A → M B) (w w' : World) (b : B) :
  bind m f w = (Ok b, w') → ∃ a w1, m w = (Ok a, w1) ∧ f a w1 = (Ok b, w').
Proof.
  unfold bind. destruct (m w) as [[a|e] w1]; [eauto | discriminate].
Qed.

Lemma bind_inv {A B} (m : M A) (f : A → M B) (w w' : World) (res : outcome B) :
  bind m f w = (res, w') →
  (∃ a w1, m w = (Ok a, w1) ∧ f a w1 = (res, w'))
  ∨ (∃ e, m w = (Throw e, w') ∧ res = Throw e).
Proof.
  unfold bind. destruct (m w) as [[a|e] w1]; [eauto|].
  intros [= <- <-]. eauto.
Qed.

Lemma try_catch_Ok {A} (body : M A) (handler : string → M A) (w w1 : World) (a : A) :
  body w = (Ok a, w1) → try_catch body handler w = (Ok a, w1).
Proof. unfold try_catch. by intros ->. Qed.

Lemma try_catch_Throw {A} (body : M A) (handler : string → M A) (w w1 : World) (e : string) :
  body w = (Throw e, w1) → try_catch body handler w = handler e w1.
Proof. unfold try_catch. by intros ->. Qed.

(** ** The actions *)

Section Actions.

Variable URL_hostname : string → option string.
Variable env : Env.

Lemma live_after_put (w : World) (ttl : Z) (v : string) :
  0 < ttl → KV.live (now w) (KvEntry v (Some (now w + ttl * 1000))) = true.
Proof. intros H. unfold KV.live. simpl. apply Z.ltb_lt. lia. Qed.

(** The upstream update is one [PATCH] and leaves the store alone, whatever
    its outcome. *)
Lemma updateReadwiseDocument_effects (id : option string) (updates : request_body)
    (w w' : World) (res : outcome payload) :
  updateReadwiseDocument id updates env w = (res, w') →
  kv w' = kv w ∧ now w' = now w
  ∧ trace w' = trace w ++ [EvFetch (update_request id updates env)].
Proof.
  unfold updateReadwiseDocument, http_fetch, response_json, bind, ret, throw.
  destruct (upstream w) as [|r rest]; [by intros [= <- <-]|].
  destruct (negb (rs_ok r)); [by intros [= <- <-]|].
  destruct (rs_json r); by intros [= <- <-].
Qed.

(** C4.  Archiving writes [heard:<id>] with a 30-day TTL and only then asks
    the article store to move the document to the archive.  When that call
    fails, the caller receives the error (a 500 carrying the message, which
    holds the status of a non-success answer) and the marker written before
    is not taken back: it is the last write to the store and can be read
    back. *)
Theorem archive_keeps_marker_when_upstream_fails
    (body : JsonBody) (w w1 : World) (e : string) :
  let key := "heard:" +:+ JS.interpolate (jb_id body) in
  let written :=
    <[key := KvEntry (pretty (now w)) (Some (now w + thirty_days * 1000))]> (kv w) in
  updateReadwiseDocument (jb_id body) (UpdateBody "archive") env
    (emit (EvKvPut key (pretty (now w)) thirty_days) (with_kv written w))
  = (Throw e, w1) →
  handleArchive (post "/api/archive" body) env corsHeaders w = (Throw e, w1)
  ∧ fetch URL_hostname (post "/api/archive" body) env w
    = (Ok (error_response e), emit (EvLog ["Worker error:"; e]) w1)
  ∧ trace w1 = trace w ++ [EvKvPut key (pretty (now w)) thirty_days;
                           EvFetch (update_request (jb_id body) (UpdateBody "archive") env)]
  ∧ kv w1 = written
  ∧ KV.read (now w1) (kv w1) key = Some (pretty (now w))
  ∧ (∀ r rest, upstream w = r :: rest → rs_ok r = false →
       e = "Readwise update error: " +:+ pretty (rs_status r)).
Proof.
  intros key written Hup.
  destruct (updateReadwiseDocument_effects _ _ _ _ _ Hup) as (Hkv & Hnow & Htrace).
  cbn [emit with_kv kv now trace] in Hkv, Hnow, Htrace.
  assert (handleArchive (post "/api/archive" body) env corsHeaders w = (Throw e, w1)) as Hh.
  { unfold handleArchive, request_json, Date_now, KV.put, post. cbn [req_json].
    unfold bind at 1 2 3, ret. fold key. fold written.
    change (60 * 60 * 24 * 30) with thirty_days.
    erewrite bind_Throw; [reflexivity | exact Hup]. }
  split; [exact Hh|]. split.
  { unfold fetch, dispatch, post. simpl. fold (post "/api/archive" body).
    erewrite try_catch_Throw; [|exact Hh]. reflexivity. }
  split; [by rewrite Htrace, <- app_assoc|].
  split; [exact Hkv|]. split.
  { unfold KV.read. rewrite Hkv, Hnow. unfold written. rewrite lookup_insert_eq.
    by rewrite (live_after_put w thirty_days). }
  intros r rest Hr Hok. revert Hup.
  unfold updateReadwiseDocument, http_fetch, bind, throw. cbn [emit with_kv upstream].
  rewrite Hr, Hok. cbn [negb]. by intros [= <- _].
Qed.

(** One [delete] request whose upstream call answers with a success status
    or with 404. *)
Lemma delete_succeeds (body : JsonBody) (w : World) (r : http_response)
    (rest : list http_response) :
  upstream w = r :: rest →
  rs_ok r = true ∨ rs_status r = 404 →
  ∃ w', fetch URL_hostname (post "/api/delete" body) env w
          = (Ok (json_response corsHeaders BodySuccess), w')
        ∧ upstream w' = rest.
Proof.
  intros Hup Hr. eexists.
  unfold fetch, dispatch, try_catch, handleDelete, deleteReadwiseDocument, request_json,
    Date_now, KV.put, http_fetch, bind, ret, throw, console_log, post.
  simpl. rewrite Hup. simpl.
  assert (negb (rs_ok r) && negb (rs_status r =? 404) = false) as ->.
  { destruct Hr as [-> | ->]; [done|]. by rewrite andb_false_r. }
  split; reflexivity.
Qed.

(** C7.  Deleting is idempotent with respect to an upstream not-found: a 404
    from the article store's delete call counts as success, so two deletes
    of the same id in a row both succeed; any other non-success status makes
    the operation fail with an error that carries the status. *)
Theorem delete_is_idempotent_on_not_found
    (body : JsonBody) (w : World) (r : http_response) (rest : list http_response) :
  upstream w = r :: rest →
  let request := post "/api/delete" body in
  let message := "Readwise delete error: " +:+ pretty (rs_status r) in
  (rs_status r = 404 →
     ∃ w', fetch URL_hostname request env w = (Ok (json_response corsHeaders BodySuccess), w'))
  ∧ (rs_ok r = false → rs_status r ≠ 404 →
     ∃ w1 w', deleteReadwiseDocument (jb_id body) env w = (Throw message, w1)
              ∧ fetch URL_hostname request env w = (Ok (error_response message), w'))
  ∧ (∀ r2 rest2, rest = r2 :: rest2 →
       rs_ok r = true ∨ rs_status r = 404 →
       rs_ok r2 = true ∨ rs_status r2 = 404 →
       ∃ w1 w2,
         fetch URL_hostname request env w = (Ok (json_response corsHeaders BodySuccess), w1)
         ∧ fetch URL_hostname request env w1 = (Ok (json_response corsHeaders BodySuccess), w2)).
Proof.
  intros Hup request message. split; [|split].
  - intros H404. destruct (delete_succeeds body w r rest Hup) as (w' & H & _); eauto.
  - intros Hok H404. eexists _, _.
    unfold request, fetch, dispatch, try_catch, handleDelete, deleteReadwiseDocument,
      request_json, Date_now, KV.put, http_fetch, bind, ret, throw, console_log, post.
    simpl. rewrite Hup. simpl. rewrite Hok.
    apply Z.eqb_neq in H404. rewrite H404.
    simpl. split; reflexivity.
  - intros r2 rest2 -> H1 H2.
    destruct (delete_succeeds body w r (r2 :: rest2) Hup H1) as (w1 & Hf1 & Hup1).
    destruct (delete_succeeds body w1 r2 rest2 Hup1 H2) as (w2 & Hf2 & _).
    eauto.
Qed.


End Actions.

(** ** The router *)

Section Router.

Variable URL_hostname : string → option string.
Variable env : Env.

Lemma fetch_unfold (request : Request) :
  String.eqb (req_method request) "OPTIONS" = false →
  fetch URL_hostname request env = try_catch (dispatch URL_hostname request env) on_error.
Proof. unfold fetch. by intros ->. Qed.

Lemma handleFeed_status (request : Request) (cors : list (string * string))
    (w w' : World) (resp : Response) :
  handleFeed URL_hostname request env cors w = (Ok resp, w') → resp_status resp = 200.
Proof.
  unfold handleFeed. intros H.
  apply bind_inv_Ok in H as (c & w1 & _ & H).
  apply bind_inv_Ok in H as (s & w2 & _ & H).
  unfold ret in H. by injection H as <- _.
Qed.

Lemma handleTTS_status (request : Request) (cors : list (string * string))
    (w w' : World) (resp : Response) :
  handleTTS request env cors w = (Ok resp, w') → resp_status resp = 200.
Proof.
  unfold handleTTS, request_json. intros H.
  destruct (req_json request) as [body|]; [|discriminate].
  apply bind_inv_Ok in H as (b & w1 & _ & H).
  apply bind_inv_Ok in H as (u & w2 & _ & H).
  destruct (negb (JS.truthy (OPENAI_API_KEY env))).
  { unfold ret in H. by injection H as <- _. }
  destruct (jb_text b) as [input|]; [|discriminate].
  apply bind_inv_Ok in H as (r & w3 & _ & H).
  destruct (negb (rs_ok r)).
  - apply bind_inv_Ok in H as (u' & w4 & _ & H). unfold ret in H. by injection H as <- _.
  - unfold ret in H. by injection H as <- _.
Qed.

Lemma action_status (m : M Response) (request : Request) (w w' : World) (resp : Response) :
  m = handleArchive request env corsHeaders
  ∨ m = handleDelete request env corsHeaders
  ∨ m = handleLater request env corsHeaders →
  m w = (Ok resp, w') → resp_status resp = 200.
Proof.
  intros [-> | [-> | ->]]; intros H;
    unfold handleArchive, handleDelete, handleLater in H;
    apply bind_inv_Ok in H as (b & w1 & _ & H);
    apply bind_inv_Ok in H as (t & w2 & _ & H);
    apply bind_inv_Ok in H as (u & w3 & _ & H);
    apply bind_inv_Ok in H as (u' & w4 & _ & H);
    unfold ret in H; by injection H as <- _.
Qed.

(** The main handler answers every request. *)
Lemma fetch_total (request : Request) (w : World) :
  ∃ resp w', fetch URL_hostname request env w = (Ok resp, w').
Proof.
  unfold fetch. destruct (String.eqb (req_method request) "OPTIONS"); [by eexists _, _|].
  unfold try_catch. destruct (dispatch URL_hostname request env w) as [[resp|e] w1].
  - by eexists _, _.
  - by eexists _, _.
Qed.

(** A path that contains [/api/feed] is not the root path. *)
Lemma includes_not_root (path pat : string) (c d : ascii) (rest : string) :
  pat = String c (String d rest) → JS.includes path pat = true → String.eqb path "/" = false.
Proof.
  intros -> H. destruct (String.eqb_spec path "/") as [->|]; [|done].
  simpl in H. by destruct (ascii_dec c "/").
Qed.

(** C10 (amended).  A request other than [OPTIONS] whose path contains
    [/api/feed] and does not end in [/index.html] goes to the feed handler,
    whatever its method; the action routes match their path by substring and
    require [POST], each after the routes tested before it; and a request
    receives the 404 [Not Found] response exactly when it matches no
    route. *)
Theorem router_matches_by_substring (request : Request) :
  req_method request ≠ "OPTIONS" →
  let path := req_pathname request in
  let run := λ handler, try_catch handler on_error in
  (JS.includes path "/api/feed" = true → JS.endsWith path "/index.html" = false →
     fetch URL_hostname request env = run (handleFeed URL_hostname request env corsHeaders))
  ∧ (req_method request = "POST" →
     String.eqb path "/" || JS.endsWith path "/index.html" || JS.includes path "/api/feed" = false →
     (JS.includes path "/api/tts" = true →
        fetch URL_hostname request env = run (handleTTS request env corsHeaders))
     ∧ (JS.includes path "/api/tts" = false → JS.includes path "/api/archive" = true →
        fetch URL_hostname request env = run (handleArchive request env corsHeaders))
     ∧ (JS.includes path "/api/tts" || JS.includes path "/api/archive" = false →
        JS.includes path "/api/delete" = true →
        fetch URL_hostname request env = run (handleDelete request env corsHeaders))
     ∧ (JS.includes path "/api/tts" || JS.includes path "/api/archive"
        || JS.includes path "/api/delete" = false →
        JS.includes path "/api/later" = true →
        fetch URL_hostname request env = run (handleLater request env corsHeaders)))
  ∧ (∀ w resp w', fetch URL_hostname request env w = (Ok resp, w') →
       (resp_status resp = 404 ↔ matches_route request = false)
       ∧ (resp_status resp = 404 → resp = not_found ∧ w' = w)).
Proof.
  intros Hm path run.
  assert (String.eqb (req_method request) "OPTIONS" = false) as Hopt.
  { by apply String.eqb_neq. }
  rewrite (fetch_unfold request Hopt). unfold dispatch. fold path.
  split; [|split].
  - intros Hfeed Hidx.
    rewrite (includes_not_root path "/api/feed" _ _ _ eq_refl Hfeed), Hidx, Hfeed.
    reflexivity.
  - intros Hpost Hearly. rewrite Hpost.
    apply orb_false_iff in Hearly as [Hhtml Hfeed]. rewrite Hhtml, Hfeed.
    change (String.eqb "POST" "POST") with true. rewrite !andb_true_r.
    repeat split.
    + by intros ->.
    + by intros -> ->.
    + intros H ->. apply orb_false_iff in H as [-> ->]. reflexivity.
    + intros H ->. apply orb_false_iff in H as [H ->].
      apply orb_false_iff in H as [-> ->]. reflexivity.
  - intros w resp w' H. unfold matches_route. fold path.
    unfold try_catch in H.
    destruct (String.eqb path "/" || JS.endsWith path "/index.html") eqn:E1.
    { unfold serveHTML, ret in H. injection H as <- <-. simpl. split; [split|]; discriminate. }
    rewrite orb_false_l.
    destruct (JS.includes path "/api/feed") eqn:E2.
    { simpl. destruct (handleFeed _ _ _ _ w) as [[r|e] w1] eqn:E.
      - injection H as <- <-. rewrite (handleFeed_status _ _ _ _ _ E).
        split; [split|]; discriminate.
      - unfold on_error, bind, console_log, console_error, ret in H. injection H as <- <-.
        split; [split|]; discriminate. }
    rewrite orb_false_l.
    destruct (JS.includes path "/api/tts" && String.eqb (req_method request) "POST") eqn:E3.
    { simpl. destruct (handleTTS _ _ _ w) as [[r|e] w1] eqn:E.
      - injection H as <- <-. rewrite (handleTTS_status _ _ _ _ _ E).
        split; [split|]; discriminate.
      - unfold on_error, bind, console_log, console_error, ret in H. injection H as <- <-.
        split; [split|]; discriminate. }
    rewrite orb_false_l.
    destruct (JS.includes path "/api/archive" && String.eqb (req_method request) "POST") eqn:E4.
    { simpl. destruct (handleArchive _ _ _ w) as [[r|e] w1] eqn:E.
      - injection H as <- <-. rewrite (action_status _ request _ _ _ (or_introl eq_refl) E).
        split; [split|]; discriminate.
      - unfold on_error, bind, console_log, console_error, ret in H. injection H as <- <-.
        split; [split|]; discriminate. }
    rewrite orb_false_l.
    destruct (JS.includes path "/api/delete" && String.eqb (req_method request) "POST") eqn:E5.
    { simpl. destruct (handleDelete _ _ _ w) as [[r|e] w1] eqn:E.
      - injection H as <- <-.
        rewrite (action_status _ request _ _ _ (or_intror (or_introl eq_refl)) E).
        split; [split|]; discriminate.
      - unfold on_error, bind, console_log, console_error, ret in H. injection H as <- <-.
        split; [split|]; discriminate. }
    rewrite orb_false_l.
    destruct (JS.includes path "/api/later" && String.eqb (req_method request) "POST") eqn:E6.
    { simpl. destruct (handleLater _ _ _ w) as [[r|e] w1] eqn:E.
      - injection H as <- <-.
        rewrite (action_status _ request _ _ _ (or_intror (or_intror eq_refl)) E).
        split; [split|]; discriminate.
      - unfold on_error, bind, console_log, console_error, ret in H. injection H as <- <-.
        split; [split|]; discriminate. }
    rewrite orb_false_l.
    destruct (String.eqb path "/manifest.json") eqn:E7.
    { unfold ret in H. injection H as <- <-. simpl. split; [split|]; discriminate. }
    unfold ret in H. injection H as <- <-. simpl. by repeat split.
Qed.

End Router.

(** ** The source label *)

Lemma replace_absent (s pat rep : string) :
  JS.includes s pat = false → JS.replace s pat rep = s.
Proof.
  induction s as [|c s IH]; intros H.
  - simpl in *. apply orb_false_iff in H as [-> _]. done.
  - cbn [JS.includes] in H. apply orb_false_iff in H as [Hp Hi].
    cbn [JS.replace]. rewrite Hp. f_equal. by apply IH.
Qed.

(** Where the code and the wording agree: a host name that starts with
    [www.], or holds no [www.] at all. *)
Lemma replace_www_leading (hostname : string) :
  String.prefix "www." hostname = true ∨ JS.includes hostname "www." = false →
  JS.replace hostname "www." "" = strip_leading_www hostname.
Proof.
  unfold strip_leading_www. intros [H | H].
  - rewrite H. destruct hostname; cbn [JS.replace]; by rewrite H.
  - rewrite (replace_absent _ _ _ H).
    destruct hostname as [|c s]; [done|].
    cbn [JS.includes] in H. apply orb_false_iff in H as [-> _]. done.
Qed.

Lemma extractSource_agrees (URL_hostname : string → option string) (article : Article) :
  (∀ url hostname, art_source_url article = Some url → URL_hostname url = Some hostname →
     String.prefix "www." hostname = true ∨ JS.includes hostname "www." = false) →
  extractSource URL_hostname article = source_label URL_hostname article.
Proof.
  intros H. unfold extractSource, source_label.
  destruct (art_site_name article) as [[|? ?]|]; try done;
    destruct (art_source_url article) as [[|c u]|]; try done;
    destruct (URL_hostname (String c u)) as [h|] eqn:E; try done;
    apply replace_www_leading; eauto.
Qed.

(** The examples of the specification, on which the code does what the
    wording says. *)
Example extractSource_examples :
  extractSource SimpleURL.hostname (article_from (Some "X") None) = "X"
  ∧ extractSource SimpleURL.hostname (article_from None (Some "https://www.example.com/a"))
    = "example.com"
  ∧ extractSource SimpleURL.hostname (article_from None (Some "https://blog.example.com/a"))
    = "blog.example.com"
  ∧ extractSource SimpleURL.hostname (article_from None None) = "Unknown source"
  ∧ extractSource SimpleURL.hostname (article_from None (Some "not-a-url")) = "Unknown source".
Proof. repeat split; reflexivity. Qed.

(** C8.  The code replaces the first [www.] of the host name wherever it
    stands, not only a leading one: for [https://notwww.example.com/a] the
    label loses the inner [www.], where the wording keeps the host name as it
    is. *)
Theorem extractSource_strips_inner_www :
  let article := article_from None (Some "https://notwww.example.com/a") in
  SimpleURL.hostname "https://notwww.example.com/a" = Some "notwww.example.com"
  ∧ extractSource SimpleURL.hostname article = "notexample.com"
  ∧ source_label SimpleURL.hostname article = "notwww.example.com".
Proof. repeat split; reflexivity. Qed.

(** ** The summary cache *)

Lemma summarizer_calls_app (t1 t2 : list event) :
  summarizer_calls (t1 ++ t2) = (summarizer_calls t1 + summarizer_calls t2)%nat.
Proof. unfold summarizer_calls. by rewrite List.filter_app, length_app. Qed.

Section Cache.

Variable URL_hostname : string → option string.
Variable env : Env.

(** C2 (amended).  On a miss, the first call asks the summarizer once and
    stores the text under [summary:<id>] with the 30-day TTL; when that text
    is not empty, a second call made before the TTL has run out returns the
    stored text, takes no response from the network and adds no summarizer
    call: two calls, one summarizer call. *)
Theorem second_call_hits_the_cache
    (article : Article) (w : World) (r : http_response) (rest : list http_response)
    (text : string) (elapsed : Z) :
  JS.truthy (KV.read (now w) (kv w) ("summary:" +:+ art_id article)) = false →
  upstream w = r :: rest →
  rs_ok r = true →
  rs_json r = Some (MessagePayload text) →
  text ≠ "" →
  0 ≤ elapsed < SUMMARY_CACHE_TTL * 1000 →
  ∃ w1 w2,
    getCachedOrSummarize URL_hostname article env w = (Ok text, w1)
    ∧ kv w1 !! ("summary:" +:+ art_id article)
      = Some (KvEntry text (Some (now w + SUMMARY_CACHE_TTL * 1000)))
    ∧ getCachedOrSummarize URL_hostname article env (elapse elapsed w1) = (Ok text, w2)
    ∧ upstream w2 = rest
    ∧ summarizer_calls (trace w2) = S (summarizer_calls (trace w)).
Proof.
  intros Hmiss Hup Hok Hjson Htext Hel.
  eexists _, _.
  assert (getCachedOrSummarize URL_hostname article env w
          = (Ok text,
             emit (EvKvPut ("summary:" +:+ art_id article) text SUMMARY_CACHE_TTL)
               (with_kv (<["summary:" +:+ art_id article :=
                           KvEntry text (Some (now w + SUMMARY_CACHE_TTL * 1000))]> (kv w))
                  {| kv := kv w; now := now w; upstream := rest;
                     trace := ((trace w ++ [EvKvGet ("summary:" +:+ art_id article)])
                               ++ [EvLog ["Cache miss for article " +:+ art_id article
                                          +:+ ", generating..."]])
                              ++ [EvFetch (messages_request URL_hostname article env)] |}))) as H1.
  { unfold getCachedOrSummarize, summarizeArticle, KV.get, KV.put, http_fetch, response_json,
      console_log, bind, ret, throw.
    destruct (KV.read (now w) (kv w) ("summary:" +:+ art_id article)) as [[|c s]|];
      try discriminate; cbn [emit upstream kv now trace];
      rewrite Hup, Hok, Hjson; reflexivity. }
  split; [exact H1|].
  split; [unfold emit, with_kv; cbn [kv]; apply lookup_insert_eq|].
  unfold getCachedOrSummarize, KV.get, KV.read, console_log, bind, ret, elapse, emit, with_kv.
  cbn [kv now upstream trace]. rewrite lookup_insert_eq. cbn [kv_value].
  assert (KV.live (now w + elapsed) (KvEntry text (Some (now w + SUMMARY_CACHE_TTL * 1000)))
          = true) as ->.
  { unfold KV.live. cbn [kv_expiration]. apply Z.ltb_lt. lia. }
  destruct text as [|c s]; [done|].
  split; [reflexivity|]. split; [reflexivity|].
  cbn [trace]. rewrite !summarizer_calls_app.
  change (summarizer_calls [EvFetch (messages_request URL_hostname article env)]) with 1%nat.
  unfold summarizer_calls. cbn [List.filter is_summarizer_call length]. lia.
Qed.

End Cache.

(** ** Sorting *)

Section Sorting.

Context {A : Type} (comparefn : A → A → option Z).




(** [R] is the order the comparator stands for: whenever the comparator
    does not put [x] strictly after [y], [x] may come first, and the other
    way round. *)
Context (R : relation A) `{!Transitive R}.
Context (valid : A → Prop).
Hypothesis keeps : ∀ x y, valid x → valid y → ¬ (0 < JS.SortCompare comparefn x y) → R x y.
Hypothesis swaps : ∀ x y, valid x → valid y → 0 < JS.SortCompare comparefn x y → R y x.



End Sorting.



#[local] Instance newest_first_trans : Transitive newest_first.
Proof.
  intros a b c (ta & tb & Ha & Hb & Hab) (tb' & tc & Hb' & Hc & Hbc).
  exists ta, tc. rewrite Hb in Hb'. injection Hb' as <-. repeat split; [done..|lia].
Qed.


(** ** Pagination *)

#[local] Instance same_store_refl : Reflexive same_store.
Proof. by intros w. Qed.

Lemma same_store_trans (w1 w2 w3 : World) :
  same_store w1 w2 → same_store w2 w3 → same_store w1 w3.
Proof. intros [? ?] [? ?]. split; congruence. Qed.


Lemma ok_not_rate_limited (r : http_response) :
  rs_ok r = true → (rs_status r =? 429) = false.
Proof. unfold rs_ok. intros H. apply andb_true_iff in H as [_ H]. lia. Qed.


(** Pagination leaves the store alone, whatever its outcome. *)
Lemma fetch_page_same_store (retries : nat) (rq : http_request) (prev : option http_response)
    (w w' : World) (res : outcome (option http_response)) :
  fetch_page retries rq prev w = (res, w') → same_store w w'.
Proof.
  revert prev w. induction retries as [|n IH]; intros prev w H; simpl in H.
  - unfold ret in H. by injection H as _ <-.
  - unfold bind at 1 in H. unfold http_fetch in H.
    destruct (upstream w) as [|r rest]; [by injection H as _ <-|].
    destruct (rs_status r =? 429).
    + unfold bind, console_log, sleep in H. simpl in H.
      apply IH in H as [Hkv Hnow]. by split.
    + unfold ret in H. by injection H as _ <-.
Qed.

Lemma fetch_pages_same_store (fuel : nat) (env : Env) (locationFilter : string)
    (allArticles : list Article) (nextCursor : option string) (pageCount : nat)
    (w w' : World) (res : outcome (list Article)) :
  fetch_pages fuel env locationFilter allArticles nextCursor pageCount w = (res, w') →
  same_store w w'.
Proof.
  revert allArticles nextCursor pageCount w.
  induction fuel as [|fuel IH]; intros allArticles nextCursor pageCount w H.
  - simpl in H. unfold ret in H. by injection H as _ <-.
  - cbn [fetch_pages] in H. unfold bind at 1 in H.
    destruct ((if (0 <? pageCount)%nat then sleep 1000 else ret ()) w) as [[u|e] w1] eqn:H1.
    2:{ destruct (0 <? pageCount)%nat; discriminate. }
    assert (same_store w w1) as Hs1.
    { destruct (0 <? pageCount)%nat; unfold sleep, ret in H1; by injection H1 as _ <-. }
    unfold bind at 1 in H.
    destruct (fetch_page 3 _ None w1) as [[ro|e] w2] eqn:H2;
      apply fetch_page_same_store in H2 as Hs2.
    2:{ injection H as _ <-. by eapply same_store_trans. }
    assert (same_store w w2) as Hs.
    { by eapply same_store_trans. }
    destruct ro as [r|]; [|unfold throw in H; by injection H as _ <-].
    destruct (negb (rs_ok r)); [unfold throw in H; by injection H as _ <-|].
    unfold bind, response_json in H.
    destruct (rs_json r) as [data|]; [|unfold throw in H; by injection H as _ <-].
    unfold ret at 1 in H.
    destruct (_ || _); [unfold ret in H; by injection H as _ <-|].
    destruct (JS.truthy _); [|unfold ret in H; by injection H as _ <-].
    apply IH in H. by eapply same_store_trans.
Qed.

(** The iteration bound of the pagination loop is never what ends it: with
    [maxPages - pageCount] iterations allowed, more fuel changes nothing. *)
Lemma fetch_pages_fuel (extra : nat) (env : Env) (locationFilter : string)
    (allArticles : list Article) (nextCursor : option string) (pageCount : nat) (w : World) :
  (pageCount < maxPages)%nat →
  fetch_pages (maxPages - pageCount + extra) env locationFilter allArticles nextCursor
    pageCount w
  = fetch_pages (maxPages - pageCount) env locationFilter allArticles nextCursor pageCount w.
Proof.
  remember (maxPages - pageCount)%nat as fuel eqn:Hfuel.
  revert allArticles nextCursor pageCount w Hfuel.
  induction fuel as [|fuel IH]; intros allArticles nextCursor pageCount w Hfuel Hlt; [lia|].
  cbn [Nat.add fetch_pages]. unfold bind.
  destruct ((if (0 <? pageCount)%nat then sleep 1000 else ret ()) w) as [[u|e] w1]; [|done].
  destruct (fetch_page 3 _ None w1) as [[[r|]|e] w2]; [|done..].
  destruct (negb (rs_ok r)); [done|].
  destruct (response_json r w2) as [[data|e] w3]; [|done].
  destruct (decide (S pageCount < maxPages)%nat) as [Hlt'|Hge].
  - destruct (_ || _); [done|]. destruct (JS.truthy _); [|done].
    apply IH; [lia | done].
  - assert ((maxPages <=? S pageCount)%nat = true) as Hmax.
    { apply Nat.leb_le. lia. }
    by rewrite Hmax, orb_true_r.
Qed.

(** ** Feed assembly *)

Section Feed.

Variable URL_hostname : string → option string.
Variable env : Env.

(** The cache touches no key but the article's [summary:<id>]. *)
Lemma getCachedOrSummarize_store (article : Article) (w w' : World) (res : outcome string) :
  getCachedOrSummarize URL_hostname article env w = (res, w') →
  now w' = now w
  ∧ (kv w' = kv w ∨ ∃ e, kv w' = <["summary:" +:+ art_id article := e]> (kv w)).
Proof.
  unfold getCachedOrSummarize, summarizeArticle, KV.get, KV.put, http_fetch,
    response_json, console_log, bind, ret, throw.
  cbn [emit upstream kv now trace].
  destruct (KV.read (now w) (kv w) ("summary:" +:+ art_id article)) as [[|c s]|];
    cbn [emit upstream kv now trace];
    try (intros [= <- <-]; by eauto);
    (destruct (upstream w) as [|r rest]; [intros [= <- <-]; by eauto|]);
    (destruct (negb (rs_ok r)); [intros [= <- <-]; by eauto|]);
    destruct (rs_json r) as [[| |]|]; intros [= <- <-]; cbn [emit with_kv kv now]; eauto.
Qed.

Lemma summarize_one_skips (laterIds : gset string) (article : Article)
    (summaries : list FeedItem) (w w1 : World) (e : string) :
  getCachedOrSummarize URL_hostname article env w = (Throw e, w1) →
  summarize_one URL_hostname env laterIds article summaries w = (Ok summaries, emit (skipped article e) w1).
Proof.
  intros H. unfold summarize_one.
  erewrite try_catch_Throw; [reflexivity|]. by apply bind_Throw.
Qed.

Lemma summarize_one_serves (laterIds : gset string) (article : Article)
    (summaries : list FeedItem) (w w1 : World) (summary : string) :
  getCachedOrSummarize URL_hostname article env w = (Ok summary, w1) →
  summarize_one URL_hostname env laterIds article summaries w
  = (Ok (summaries ++ [feed_item URL_hostname article summary]),
     if bool_decide (art_id article ∈ laterIds)
     then emit (EvKvDelete ("later:" +:+ art_id article))
            (with_kv (delete ("later:" +:+ art_id article) (kv w1)) w1)
     else w1).
Proof.
  intros H. unfold summarize_one.
  erewrite try_catch_Ok; [reflexivity|].
  erewrite bind_Ok; [|exact H]. unfold bind, KV.delete, ret.
  by destruct (bool_decide (art_id article ∈ laterIds)).
Qed.


Lemma later_key_inj (id id' : string) : "later:" +:+ id = "later:" +:+ id' → id = id'.
Proof. apply (String.app_inj "later:"). Qed.

Lemma summary_key_not_later (id k : string) :
  String.prefix "summary:" k = false → "summary:" +:+ id ≠ k.
Proof. intros H <-. by rewrite prefix_append in H. Qed.

(** What one pass of the loop does: it always runs to its end; the items it
    adds stand for a subsequence of the articles, in their order; in the
    store it removes the [later] markers of the deferred ids it serves and
    leaves every other key outside [summary:*] as it was. *)
Lemma summarize_each_spec (laterIds : gset string) (articles : list Article)
    (summaries : list FeedItem) (w : World) :
  ∃ new w',
    summarize_each URL_hostname env laterIds articles summaries w = (Ok (summaries ++ new), w')
    ∧ now w' = now w
    ∧ (∃ served, served `sublist_of` articles
                 ∧ Forall2 (λ item a, ∃ summary, item = feed_item URL_hostname a summary) new served)
    ∧ (∀ id, id ∈ laterIds → id ∈ map fi_id new → kv w' !! ("later:" +:+ id) = None)
    ∧ (∀ k, String.prefix "summary:" k = false →
         (∀ id, id ∈ laterIds → id ∈ map fi_id new → k ≠ "later:" +:+ id) →
         kv w' !! k = kv w !! k).
Proof.
  revert summaries w. induction articles as [|a rest IH]; intros summaries w.
  - exists [], w. rewrite app_nil_r. repeat split; try done.
    + exists []. split; constructor.
    + intros id _ Hin. by apply elem_of_nil in Hin.
  - cbn [summarize_each].
    destruct (getCachedOrSummarize URL_hostname a env w) as [[summary|e] w1] eqn:Hc.
    + (* served *)
      pose proof (getCachedOrSummarize_store _ _ _ _ Hc) as [Hnow1 Hkv1].
      erewrite bind_Ok; [|by apply summarize_one_serves].
      set (w2 := if bool_decide _ then _ else _).
      destruct (IH (summaries ++ [feed_item URL_hostname a summary]) w2)
        as (new & w' & Hrun & Hnow & (served & Hsub & Hall) & Hgone & Hkept).
      assert (now w2 = now w) as Hnow2.
      { unfold w2. by destruct (bool_decide _). }
      assert (∀ k, String.prefix "summary:" k = false →
                (art_id a ∈ laterIds → k ≠ "later:" +:+ art_id a) →
                kv w2 !! k = kv w !! k) as Hstep.
      { intros k Hk Hne. unfold w2.
        assert (kv w1 !! k = kv w !! k) as <-.
        { destruct Hkv1 as [-> | [e ->]]; [done|].
          apply lookup_insert_ne. by apply summary_key_not_later. }
        destruct (bool_decide_reflect (art_id a ∈ laterIds)) as [Hl|]; [|done].
        cbn [kv emit with_kv]. apply lookup_delete_ne. intros Heq. by apply (Hne Hl). }
      assert (art_id a ∈ laterIds → kv w2 !! ("later:" +:+ art_id a) = None) as Hdel.
      { intros Hl. unfold w2. rewrite (bool_decide_eq_true_2 _ Hl).
        cbn [kv emit with_kv]. apply lookup_delete_eq. }
      exists (feed_item URL_hostname a summary :: new), w'.
      split; [by rewrite Hrun, <- app_assoc|].
      split; [congruence|].
      split; [exists (a :: served); split; [by constructor | constructor; eauto]|].
      split.
      * intros id Hl Hin. cbn [map] in Hin.
        destruct (decide (id ∈ map fi_id new)) as [Hnew|Hnew]; [by apply Hgone|].
        apply elem_of_cons in Hin as [-> | ?]; [|done].
        cbn [fi_id feed_item] in *.
        rewrite Hkept; [by apply Hdel | reflexivity |].
        intros id' _ Hin' Heq. apply later_key_inj in Heq as <-. done.
      * intros k Hk Hne. rewrite Hkept; [apply Hstep; [done|]| done |].
        -- intros Hl. apply Hne; [done|]. cbn [map]. apply elem_of_cons. by left.
        -- intros id Hl Hin. apply Hne; [done|]. cbn [map]. apply elem_of_cons. by right.
    + (* skipped *)
      pose proof (getCachedOrSummarize_store _ _ _ _ Hc) as [Hnow1 Hkv1].
      erewrite bind_Ok; [|by apply summarize_one_skips].
      destruct (IH summaries (emit (skipped a e) w1))
        as (new & w' & Hrun & Hnow & (served & Hsub & Hall) & Hgone & Hkept).
      exists new, w'. split; [done|]. split; [cbn [now emit] in Hnow; congruence|].
      split; [exists served; split; [by constructor | done]|].
      split; [done|].
      intros k Hk Hne. rewrite Hkept; [|done..]. cbn [kv emit].
      destruct Hkv1 as [-> | [e' ->]]; [done|].
      apply lookup_insert_ne. by apply summary_key_not_later.
Qed.








(** [handleFeed] is the candidates, then the loop, then the response. *)
Lemma handleFeed_inv (request : Request) (cors : list (string * string))
    (w w' : World) (resp : Response) :
  handleFeed URL_hostname request env cors w = (Ok resp, w') →
  let location := JS.or_str (req_location request) "all" in
  ∃ cands laterIds w1 items,
    feed_candidates env location w = (Ok (cands, laterIds), w1)
    ∧ summarize_each URL_hostname env laterIds (take MAX_ARTICLES cands) [] w1 = (Ok items, w')
    ∧ resp = json_response cors (BodyFeed items (length cands) location).
Proof.
  intros H location. unfold handleFeed in H.
  apply bind_inv_Ok in H as ([cands laterIds] & w1 & H1 & H).
  apply bind_inv_Ok in H as (items & w2 & H2 & H).
  unfold ret in H. injection H as <- <-. by exists cands, laterIds, w1, items.
Qed.
















End Feed.

(** * The theorems at work on the example worlds *)



(** One summary, asked for again a day later. *)
Lemma second_call_witness :
  ∃ w1 w2,
    getCachedOrSummarize SimpleURL.hostname article_1 example_env world_one_summary
    = (Ok "A short summary.", w1)
    ∧ getCachedOrSummarize SimpleURL.hostname article_1 example_env (elapse 86400000 w1)
      = (Ok "A short summary.", w2)
    ∧ upstream w2 = []
    ∧ summarizer_calls (trace w2) = 1%nat.
Proof.
  destruct (second_call_hits_the_cache SimpleURL.hostname example_env article_1
              world_one_summary (message "A short summary.") [] "A short summary." 86400000)
    as (w1 & w2 & H1 & _ & H2 & Hup & Hn).
  - vm_compute. reflexivity.
  - reflexivity.
  - reflexivity.
  - reflexivity.
  - discriminate.
  - unfold SUMMARY_CACHE_TTL. lia.
  - exists w1, w2. split; [exact H1|]. split; [exact H2|]. split; [exact Hup|]. exact Hn.
Defined.

(** C2 as it is worded, for an empty summary: two calls in a row for one
    article, a second apart; the empty text of the first call is stored and
    is no hit for the second, which asks the summarizer again. *)
Lemma empty_summary_is_generated_twice :
  JS.truthy (KV.read (now world_empty_summaries) (kv world_empty_summaries) "summary:article-1")
  = false
  ∧ fst (getCachedOrSummarize SimpleURL.hostname article_1 example_env world_empty_summaries)
    = Ok ""
  ∧ kv (snd (getCachedOrSummarize SimpleURL.hostname article_1 example_env
               world_empty_summaries)) !! "summary:article-1"
    = Some (KvEntry "" (Some (now world_empty_summaries + SUMMARY_CACHE_TTL * 1000)))
  ∧ fst (getCachedOrSummarize SimpleURL.hostname article_1 example_env
           (elapse 1000
              (snd (getCachedOrSummarize SimpleURL.hostname article_1 example_env
                      world_empty_summaries))))
    = Ok ""
  ∧ summarizer_calls
      (trace
         (snd (getCachedOrSummarize SimpleURL.hostname article_1 example_env
                 (elapse 1000
                    (snd (getCachedOrSummarize SimpleURL.hostname article_1 example_env
                            world_empty_summaries))))))
    = 2%nat.
Proof. repeat split; vm_compute; reflexivity. Defined.


(** Archiving [article-1] while the article store answers 500. *)
Lemma archive_witness :
  upstream world_failing_update = [failure 500 "Internal Server Error"]
  ∧ ∃ w',
      fetch SimpleURL.hostname (post "/api/archive" (id_body "article-1")) example_env
        world_failing_update
      = (Ok (error_response "Readwise update error: 500"), w')
      ∧ KV.read (now w') (kv w') "heard:article-1" = Some "1700000010000".
Proof.
  split; [reflexivity|].
  destruct (archive_keeps_marker_when_upstream_fails SimpleURL.hostname example_env
              (id_body "article-1") world_failing_update
              (snd (handleArchive (post "/api/archive" (id_body "article-1")) example_env
                      corsHeaders world_failing_update))
              "Readwise update error: 500")
    as (_ & Hfetch & _ & _ & Hread & _).
  { vm_compute. reflexivity. }
  eexists. split; [exact Hfetch | exact Hread].
Defined.



(** Deleting [article-2] twice; and a delete answered with a 500. *)
Lemma delete_witness :
  upstream world_deleting_twice = [failure 204 ""; failure 404 "Not Found"]
  ∧ (∃ w1 w2,
       fetch SimpleURL.hostname (post "/api/delete" (id_body "article-2")) example_env
         world_deleting_twice
       = (Ok (json_response corsHeaders BodySuccess), w1)
       ∧ fetch SimpleURL.hostname (post "/api/delete" (id_body "article-2")) example_env w1
         = (Ok (json_response corsHeaders BodySuccess), w2))
  ∧ ∃ w',
      fetch SimpleURL.hostname (post "/api/delete" (id_body "article-2")) example_env
        world_failing_update
      = (Ok (error_response "Readwise delete error: 500"), w').
Proof.
  split; [reflexivity|]. split.
  - destruct (delete_is_idempotent_on_not_found SimpleURL.hostname example_env
                (id_body "article-2") world_deleting_twice (failure 204 "")
                [failure 404 "Not Found"] eq_refl) as (_ & _ & Htwice).
    apply (Htwice (failure 404 "Not Found") [] eq_refl); [by left | by right].
  - destruct (delete_is_idempotent_on_not_found SimpleURL.hostname example_env
                (id_body "article-2") world_failing_update
                (failure 500 "Internal Server Error") [] eq_refl) as (_ & Hfail & _).
    destruct Hfail as (w1 & w' & _ & Hfetch); [reflexivity | discriminate |].
    exists w'. exact Hfetch.
Defined.



(** [GET /api/feed], [POST /api/archive] and [GET /api/archive]. *)
Lemma router_witness :
  req_method (get "/api/feed" None) ≠ "OPTIONS"
  ∧ fetch SimpleURL.hostname (get "/api/feed" None) example_env
    = try_catch (handleFeed SimpleURL.hostname (get "/api/feed" None) example_env corsHeaders)
        on_error
  ∧ fetch SimpleURL.hostname (post "/api/archive" (id_body "article-1")) example_env
    = try_catch (handleArchive (post "/api/archive" (id_body "article-1")) example_env
                   corsHeaders)
        on_error
  ∧ fetch SimpleURL.hostname (get "/api/archive" None) example_env world_heard
    = (Ok not_found, world_heard).
Proof.
  assert (req_method (get "/api/feed" None) ≠ "OPTIONS") as Hget by discriminate.
  assert (req_method (post "/api/archive" (id_body "article-1")) ≠ "OPTIONS") as Hpost
    by discriminate.
  split; [exact Hget|]. split; [|split].
  - destruct (router_matches_by_substring SimpleURL.hostname example_env _ Hget)
      as (Hfeed & _ & _).
    apply Hfeed; reflexivity.
  - destruct (router_matches_by_substring SimpleURL.hostname example_env _ Hpost)
      as (_ & Hactions & _).
    destruct (Hactions eq_refl eq_refl) as (_ & Harchive & _).
    apply Harchive; reflexivity.
  - destruct (router_matches_by_substring SimpleURL.hostname example_env
                (get "/api/archive" None) Hget) as (_ & _ & H404).
    destruct (fetch_total SimpleURL.hostname example_env (get "/api/archive" None) world_heard)
      as (resp & w' & Hrun).
    destruct (H404 _ _ _ Hrun) as [Hiff Hnf].
    destruct (Hnf (proj2 Hiff eq_refl)) as [-> ->]. exact Hrun.
Defined.

(** C10 as it is worded: a [GET] of [/api/feed/index.html] is not
    [OPTIONS] and has [/api/feed] in its path, and it is answered with the
    page, not by the feed handler. *)
Lemma feed_path_ending_in_index_html_gets_the_page :
  req_method (get "/api/feed/index.html" None) ≠ "OPTIONS"
  ∧ JS.includes (req_pathname (get "/api/feed/index.html" None)) "/api/feed" = true
  ∧ fetch SimpleURL.hostname (get "/api/feed/index.html" None) example_env world_deferred
    = (Ok html_page, world_deferred)
  ∧ fetch SimpleURL.hostname (get "/api/feed/index.html" None) example_env world_deferred
    ≠ try_catch
        (handleFeed SimpleURL.hostname (get "/api/feed/index.html" None) example_env
           corsHeaders)
        on_error world_deferred.
Proof.
  split; [discriminate|]. split; [reflexivity|]. split; [reflexivity|].
  intros H. vm_compute in H. discriminate H.
Defined.

(** * Further properties of the worker *)

(** ** Rate limits and the cost of pagination *)

Lemma fetch_count_app (t1 t2 : list event) :
  fetch_count (t1 ++ t2) = (fetch_count t1 + fetch_count t2)%nat.
Proof. unfold fetch_count. by rewrite List.filter_app, length_app. Qed.

Section Pagination.

Variable env : Env.

(** Fewer rate-limited answers than attempts: the loop goes through them
    and returns the answer that follows. *)
Lemma fetch_page_limited (retries : nat) (rq : http_request) (prev : option http_response)
    (limited : list http_response) (r : http_response) (rest : list http_response)
    (w : World) :
  upstream w = limited ++ r :: rest →
  Forall (λ x, rs_status x = 429) limited →
  (length limited < retries)%nat →
  rs_status r ≠ 429 →
  ∃ w', fetch_page retries rq prev w = (Ok (Some r), w')
        ∧ upstream w' = rest
        ∧ kv w' = kv w ∧ now w' = now w
        ∧ trace w' = trace w ++ flat_map (rate_limited_attempt rq) limited ++ [EvFetch rq].
Proof.
  revert retries prev w.
  induction limited as [|x limited IH]; intros retries prev w Hup Hall Hlen Hr.
  - destruct retries as [|n]; [simpl in Hlen; lia|].
    eexists. cbn [fetch_page]. unfold bind, http_fetch. rewrite Hup. cbn [app].
    apply Z.eqb_neq in Hr. rewrite Hr. unfold ret. repeat split; reflexivity.
  - destruct retries as [|n]; [simpl in Hlen; lia|].
    apply Forall_cons in Hall as [Hx Hall].
    cbn [fetch_page]. unfold bind at 1. unfold http_fetch. rewrite Hup. cbn [app].
    rewrite Hx. change (429 =? 429) with true. cbv iota.
    unfold bind, console_log, sleep.
    match goal with
    | |- ∃ w', fetch_page n rq ?p ?w0 = _ ∧ _ =>
        destruct (IH n p w0) as (w' & Hrun & Hup' & Hkv & Hnow & Htrace)
    end.
    + reflexivity.
    + exact Hall.
    + simpl in Hlen. lia.
    + exact Hr.
    + exists w'. split; [exact Hrun|]. split; [exact Hup'|].
      split; [exact Hkv|]. split; [exact Hnow|].
      rewrite Htrace. cbn [emit trace flat_map rate_limited_attempt app].
      unfold rate_limited_attempt. rewrite <- !app_assoc. reflexivity.
Qed.

(** X2.  A page that is rate-limited fewer than three times in a row is
    fetched all the same: the loop sends the same request again after each
    429, having waited the time the server named (five seconds when it named
    none), and hands over the first answer that is no 429.  The store is not
    touched. *)
Theorem rate_limited_page_is_retried
    (rq : http_request) (limited : list http_response) (r : http_response)
    (rest : list http_response) (w : World) :
  upstream w = limited ++ r :: rest →
  Forall (λ x, rs_status x = 429) limited →
  (length limited < 3)%nat →
  rs_status r ≠ 429 →
  ∃ w', fetch_page 3 rq None w = (Ok (Some r), w')
        ∧ upstream w' = rest
        ∧ kv w' = kv w ∧ now w' = now w
        ∧ trace w' = trace w ++ flat_map (rate_limited_attempt rq) limited ++ [EvFetch rq].
Proof. apply fetch_page_limited. Qed.

(** As many rate-limited answers as attempts: the loop goes through all of
    them, waits after each, and is left with the last one. *)
Lemma fetch_page_exhausted (rq : http_request) (prev : option http_response)
    (limited rest : list http_response) (w : World) :
  upstream w = limited ++ rest →
  Forall (λ x, rs_status x = 429) limited →
  ∃ w', fetch_page (length limited) rq prev w
        = (Ok (from_option Some prev (last limited)), w')
        ∧ upstream w' = rest
        ∧ kv w' = kv w ∧ now w' = now w
        ∧ trace w' = trace w ++ flat_map (rate_limited_attempt rq) limited.
Proof.
  revert prev w. induction limited as [|x limited IH]; intros prev w Hup Hall.
  - exists w. cbn. unfold ret. by rewrite app_nil_r.
  - apply Forall_cons in Hall as [Hx Hall].
    cbn [length fetch_page]. unfold bind at 1. unfold http_fetch. rewrite Hup. cbn [app].
    rewrite Hx. change (429 =? 429) with true. cbv iota.
    unfold bind, console_log, sleep.
    match goal with
    | |- ∃ w', fetch_page _ rq ?p ?w0 = _ ∧ _ =>
        destruct (IH p w0 eq_refl Hall) as (w' & Hrun & Hup' & Hkv & Hnow & Htrace)
    end.
    exists w'. split.
    { rewrite Hrun. clear. destruct limited as [|y limited]; [reflexivity|].
      change (last (x :: y :: limited)) with (last (y :: limited)).
      destruct (last (y :: limited)) eqn:E; [reflexivity|].
      by apply last_None in E. }
    split; [exact Hup'|]. split; [exact Hkv|]. split; [exact Hnow|].
    rewrite Htrace. cbn [emit trace flat_map rate_limited_attempt app].
    unfold rate_limited_attempt. rewrite <- !app_assoc. reflexivity.
Qed.

(** X1.  Three 429 answers in a row to one page end the sync: the page is
    asked for three times and no more, the loop waits after each of the
    three answers, and the sync fails with [Readwise API error: 429]. *)
Theorem three_rate_limits_fail_the_sync
    (locationFilter : string) (w : World) (r1 r2 r3 : http_response)
    (rest : list http_response) :
  upstream w = r1 :: r2 :: r3 :: rest →
  rs_status r1 = 429 → rs_status r2 = 429 → rs_status r3 = 429 →
  ∃ w', fetchAllReadwiseArticles env locationFilter w
        = (Throw "Readwise API error: 429", w')
        ∧ upstream w' = rest
        ∧ kv w' = kv w
        ∧ trace w' = trace w
                     ++ rate_limited_attempt (list_request env None) r1
                     ++ rate_limited_attempt (list_request env None) r2
                     ++ rate_limited_attempt (list_request env None) r3.
Proof.
  intros Hup H1 H2 H3.
  destruct (fetch_page_exhausted (list_request env None) None [r1; r2; r3] rest w Hup)
    as (w' & Hrun & Hup' & Hkv & _ & Htrace).
  { by repeat constructor. }
  exists w'. unfold fetchAllReadwiseArticles, maxPages. cbn [fetch_pages Nat.ltb Nat.leb].
  unfold bind at 1 2. unfold ret at 1. unfold bind at 1.
  change 3%nat with (length [r1; r2; r3]). rewrite Hrun. cbn [from_option last].
  unfold rs_ok. rewrite H3. cbn [negb andb Z.leb Z.compare Pos.compare Pos.compare_cont].
  unfold throw. split; [reflexivity|]. split; [exact Hup'|]. split; [exact Hkv|].
  rewrite Htrace. cbn [flat_map]. by rewrite app_nil_r.
Qed.

(** The traffic of the retry loop. *)
Lemma fetch_page_traffic (retries : nat) (rq : http_request) (prev : option http_response)
    (w w' : World) (res : outcome (option http_response)) :
  rq_url rq = list_url → rq_method rq = "GET" →
  fetch_page retries rq prev w = (res, w') →
  ∃ evs, trace w' = trace w ++ evs
         ∧ Forall list_traffic evs
         ∧ (fetch_count evs ≤ retries)%nat
         ∧ (length (upstream w) ≤ length (upstream w') + retries)%nat.
Proof.
  intros Hurl Hmeth. revert prev w.
  induction retries as [|n IH]; intros prev w H; simpl in H.
  - unfold ret in H. injection H as _ <-. exists []. rewrite app_nil_r.
    repeat split; [constructor | done | lia].
  - unfold bind at 1 in H. unfold http_fetch in H.
    destruct (upstream w) as [|r rest] eqn:Hup.
    { injection H as _ <-. exists [EvFetch rq]. cbn [emit trace upstream].
      rewrite Hup. repeat split; [by repeat constructor | cbn; lia | cbn; lia]. }
    destruct (rs_status r =? 429).
    + unfold bind, console_log, sleep in H. simpl in H.
      apply IH in H as (evs & Ht & Hall & Hcount & Hlen). simpl in Ht, Hlen.
      exists (rate_limited_attempt rq r ++ evs). split.
      { rewrite Ht. unfold rate_limited_attempt. rewrite <- !app_assoc. reflexivity. }
      split.
      { apply Forall_app. split; [|done]. unfold rate_limited_attempt.
        by repeat constructor. }
      split.
      { rewrite fetch_count_app. unfold rate_limited_attempt at 1.
        change (fetch_count [EvFetch rq; _; _]) with 1%nat. lia. }
      cbn [length]. lia.
    + unfold ret in H. injection H as _ <-. exists [EvFetch rq]. cbn [trace upstream].
      repeat split; [by repeat constructor | cbn; lia | cbn; lia].
Qed.

Lemma fetch_pages_traffic (fuel : nat) (locationFilter : string)
    (allArticles : list Article) (nextCursor : option string) (pageCount : nat)
    (w w' : World) (res : outcome (list Article)) :
  fetch_pages fuel env locationFilter allArticles nextCursor pageCount w = (res, w') →
  ∃ evs, trace w' = trace w ++ evs
         ∧ Forall list_traffic evs
         ∧ (fetch_count evs ≤ 3 * fuel)%nat
         ∧ (length (upstream w) ≤ length (upstream w') + 3 * fuel)%nat.
Proof.
  revert allArticles nextCursor pageCount w.
  induction fuel as [|fuel IH]; intros allArticles nextCursor pageCount w H.
  - simpl in H. unfold ret in H. injection H as _ <-. exists []. rewrite app_nil_r.
    repeat split; [constructor | cbn; lia | lia].
  - cbn [fetch_pages] in H.
    apply bind_inv in H as [(u & w1 & H1 & H) | (e & H1 & _)].
    2:{ destruct (0 <? pageCount)%nat; discriminate. }
    assert (∃ evs1, trace w1 = trace w ++ evs1 ∧ Forall list_traffic evs1
                    ∧ fetch_count evs1 = 0%nat ∧ upstream w1 = upstream w)
      as (evs1 & Ht1 & Hall1 & Hc1 & Hu1).
    { destruct (0 <? pageCount)%nat; unfold sleep, ret in H1; injection H1 as _ <-.
      - exists [EvSleep 1000]. repeat split. by repeat constructor.
      - exists []. rewrite app_nil_r. repeat split. constructor. }
    assert (∀ w2 evs2, trace w2 = trace w1 ++ evs2 → Forall list_traffic evs2 →
              (fetch_count evs2 ≤ 3)%nat →
              (length (upstream w1) ≤ length (upstream w2) + 3)%nat →
              ∃ evs, trace w2 = trace w ++ evs ∧ Forall list_traffic evs
                     ∧ (fetch_count evs ≤ 3 * S fuel)%nat
                     ∧ (length (upstream w) ≤ length (upstream w2) + 3 * S fuel)%nat)
      as Hstop.
    { intros w2 evs2 Ht2 Hall2 Hc2 Hl2. exists (evs1 ++ evs2).
      split; [by rewrite Ht2, Ht1, app_assoc|].
      split; [by apply Forall_app|].
      rewrite fetch_count_app, <- Hu1. lia. }
    apply bind_inv in H as [(ro & w2 & H2 & H) | (e & H2 & _)];
      apply fetch_page_traffic in H2 as (evs2 & Ht2 & Hall2 & Hc2 & Hl2); try reflexivity.
    2:{ by apply (Hstop w' evs2). }
    destruct ro as [r|]; [|unfold throw in H; injection H as _ <-; by apply (Hstop w2 evs2)].
    destruct (negb (rs_ok r));
      [unfold throw in H; injection H as _ <-; by apply (Hstop w2 evs2)|].
    unfold bind, response_json in H.
    destruct (rs_json r) as [data|];
      [|unfold throw in H; injection H as _ <-; by apply (Hstop w2 evs2)].
    unfold ret at 1 in H.
    destruct (_ || _); [unfold ret in H; injection H as _ <-; by apply (Hstop w2 evs2)|].
    destruct (JS.truthy _); [|unfold ret in H; injection H as _ <-; by apply (Hstop w2 evs2)].
    apply IH in H as (evs3 & Ht3 & Hall3 & Hc3 & Hl3).
    exists (evs1 ++ evs2 ++ evs3).
    split; [by rewrite Ht3, Ht2, Ht1, <- !app_assoc|].
    split; [by repeat (apply Forall_app; split)|].
    rewrite !fetch_count_app, <- Hu1. lia.
Qed.

(** The traffic of a sync. *)
Lemma sync_costs_at_most_thirty_requests_aux
    (locationFilter : string) (w w' : World) (res : outcome (list Article)) :
  fetchAllReadwiseArticles env locationFilter w = (res, w') →
  ∃ evs, trace w' = trace w ++ evs
         ∧ Forall list_traffic evs
         ∧ (fetch_count evs ≤ 30)%nat
         ∧ (length (upstream w) ≤ length (upstream w') + 30)%nat
         ∧ kv w' = kv w.
Proof.
  unfold fetchAllReadwiseArticles. intros H.
  apply bind_inv in H as [(all & w1 & H1 & H) | (e & H1 & _)].
  - unfold ret in H. injection H as _ <-.
    destruct (fetch_pages_same_store _ _ _ _ _ _ _ _ _ H1) as [Hkv _].
    apply fetch_pages_traffic in H1 as (evs & Ht & Hall & Hc & Hl).
    exists evs. unfold maxPages in *. repeat split; [done..|lia|lia|done].
  - destruct (fetch_pages_same_store _ _ _ _ _ _ _ _ _ H1) as [Hkv _].
    apply fetch_pages_traffic in H1 as (evs & Ht & Hall & Hc & Hl).
    exists evs. unfold maxPages in *. repeat split; [done..|lia|lia|done].
Qed.

(** X3.  One sync costs the article store at most thirty requests (ten
    pages, three attempts each) and takes at most thirty of its answers,
    whatever they are; all it does on the way is [GET] the list endpoint, log
    and wait: it reads and writes nothing in the store. *)
Theorem sync_costs_at_most_thirty_requests
    (locationFilter : string) (w w' : World) (res : outcome (list Article)) :
  fetchAllReadwiseArticles env locationFilter w = (res, w') →
  ∃ evs, trace w' = trace w ++ evs
         ∧ Forall list_traffic evs
         ∧ (fetch_count evs ≤ 30)%nat
         ∧ (length (upstream w) ≤ length (upstream w') + 30)%nat
         ∧ kv w' = kv w.
Proof. apply sync_costs_at_most_thirty_requests_aux. Qed.

End Pagination.

(** ** The cost of a feed pass and the cache *)

Lemma summarizer_calls_list_traffic (evs : list event) :
  Forall list_traffic evs → summarizer_calls evs = 0%nat.
Proof.
  induction 1 as [|e evs He _ IH]; [done|].
  change (e :: evs) with ([e] ++ evs). rewrite summarizer_calls_app, IH.
  destruct e as [rq| | | | | |]; try done.
  destruct He as [Hurl _]. unfold summarizer_calls. cbn. by rewrite Hurl.
Qed.

Section Cost.

Variable URL_hostname : string → option string.
Variable env : Env.

(** One call of the cache: at most one request, to the summarizer, and none
    on a hit. *)
Lemma getCachedOrSummarize_traffic (article : Article) (w w' : World) (res : outcome string) :
  getCachedOrSummarize URL_hostname article env w = (res, w') →
  ∃ evs, trace w' = trace w ++ evs
         ∧ (summarizer_calls evs ≤ 1)%nat
         ∧ fetch_count evs = summarizer_calls evs.
Proof.
  unfold getCachedOrSummarize, summarizeArticle, KV.get, KV.put, http_fetch,
    response_json, console_log, bind, ret, throw.
  assert (∀ (t : list event) a b c, ((t ++ [a]) ++ [b]) ++ [c] = t ++ [a; b; c]) as H3.
  { intros. by rewrite <- !app_assoc. }
  assert (∀ (t : list event) a b c d,
            (((t ++ [a]) ++ [b]) ++ [c]) ++ [d] = t ++ [a; b; c; d]) as H4.
  { intros. by rewrite <- !app_assoc. }
  destruct (KV.read (now w) (kv w) ("summary:" +:+ art_id article)) as [[|c s]|];
    cbn [emit upstream kv now trace];
    try (intros [= <- <-]; cbn [trace emit]; rewrite <- app_assoc; eexists;
         split; [reflexivity|]; split; cbn; lia);
    (destruct (upstream w) as [|r rest];
       [intros [= <- <-]; cbn [trace emit]; rewrite H3; eexists;
        split; [reflexivity|]; split; cbn; lia|]);
    (destruct (negb (rs_ok r));
       [intros [= <- <-]; cbn [trace emit]; rewrite H3; eexists;
        split; [reflexivity|]; split; cbn; lia|]);
    destruct (rs_json r) as [[| |]|]; intros [= <- <-]; cbn [trace emit with_kv];
    rewrite ?H4, ?H3; eexists; (split; [reflexivity|]); split; cbn; lia.
Qed.

Lemma summarize_one_traffic (laterIds : gset string) (article : Article)
    (summaries out : list FeedItem) (w w' : World) :
  summarize_one URL_hostname env laterIds article summaries w = (Ok out, w') →
  ∃ evs, trace w' = trace w ++ evs
         ∧ (summarizer_calls evs ≤ 1)%nat
         ∧ fetch_count evs = summarizer_calls evs.
Proof.
  intros H.
  destruct (getCachedOrSummarize URL_hostname article env w) as [[summary|e] w1] eqn:Hc;
    destruct (getCachedOrSummarize_traffic _ _ _ _ Hc) as (evs & Ht & Hn & Hf).
  - rewrite (summarize_one_serves URL_hostname env laterIds article summaries w w1 summary Hc)
      in H.
    injection H as _ <-. destruct (bool_decide _).
    + exists (evs ++ [EvKvDelete ("later:" +:+ art_id article)]). cbn [trace emit with_kv].
      rewrite Ht, <- app_assoc, summarizer_calls_app, fetch_count_app. split; [done|].
      cbn. lia.
    + exists evs. done.
  - rewrite (summarize_one_skips URL_hostname env laterIds article summaries w w1 e Hc) in H.
    injection H as _ <-. exists (evs ++ [skipped article e]). cbn [trace emit].
    rewrite Ht, <- app_assoc, summarizer_calls_app, fetch_count_app. split; [done|].
    cbn. lia.
Qed.

Lemma summarize_each_traffic (laterIds : gset string) (articles : list Article)
    (summaries out : list FeedItem) (w w' : World) :
  summarize_each URL_hostname env laterIds articles summaries w = (Ok out, w') →
  ∃ evs, trace w' = trace w ++ evs
         ∧ (summarizer_calls evs ≤ length articles)%nat
         ∧ fetch_count evs = summarizer_calls evs.
Proof.
  revert summaries w. induction articles as [|a rest IH]; intros summaries w H.
  - cbn in H. unfold ret in H. injection H as _ <-. exists []. by rewrite app_nil_r.
  - cbn [summarize_each] in H. apply bind_inv_Ok in H as (s1 & w1 & H1 & H).
    apply summarize_one_traffic in H1 as (evs1 & Ht1 & Hn1 & Hf1).
    apply IH in H as (evs2 & Ht2 & Hn2 & Hf2).
    exists (evs1 ++ evs2). rewrite Ht2, Ht1, <- app_assoc, summarizer_calls_app, fetch_count_app.
    split; [done|]. cbn [length]. lia.
Qed.

(** X5.  A feed response holds at most [MAX_ARTICLES] (50) items and no
    more than [total_available], which counts every candidate, those beyond
    the cap too; the pass asks the summarizer at most 50 times, and at most
    once per capped candidate. *)
Theorem feed_pass_is_capped
    (request : Request) (cors : list (string * string)) (w w' : World) (resp : Response) :
  handleFeed URL_hostname request env cors w = (Ok resp, w') →
  ∃ cands laterIds w1 items evs,
    feed_candidates env (JS.or_str (req_location request) "all") w = (Ok (cands, laterIds), w1)
    ∧ resp_body resp = BodyFeed items (length cands) (JS.or_str (req_location request) "all")
    ∧ (length items ≤ MAX_ARTICLES)%nat
    ∧ (length items ≤ length cands)%nat
    ∧ trace w' = trace w ++ evs
    ∧ (summarizer_calls evs ≤ MAX_ARTICLES)%nat
    ∧ (summarizer_calls evs ≤ length cands)%nat.
Proof.
  intros H.
  apply handleFeed_inv in H as (cands & laterIds & w1 & items & Hc & Hloop & ->).
  destruct (summarize_each_spec URL_hostname env laterIds (take MAX_ARTICLES cands) [] w1)
    as (new & w2 & Hrun & _ & (served & Hsub & Hall) & _).
  rewrite Hloop in Hrun. cbn [app] in Hrun. injection Hrun as <- <-.
  apply sublist_length in Hsub. apply Forall2_length in Hall.
  rewrite length_take in Hsub.
  apply summarize_each_traffic in Hloop as (evs2 & Ht2 & Hn2 & _).
  rewrite length_take in Hn2.
  assert (∃ evs1, trace w1 = trace w ++ evs1 ∧ summarizer_calls evs1 = 0%nat)
    as (evs1 & Ht1 & Hn1).
  { revert Hc. unfold feed_candidates. intros Hc.
    apply bind_inv_Ok in Hc as (articles & w0 & Hf & Hc).
    apply (sync_costs_at_most_thirty_requests_aux env) in Hf as (evs & Ht & Hall' & _).
    unfold getHeardIds, getLaterIds, KV.list, bind, ret in Hc. injection Hc as _ _ <-.
    exists (evs ++ [EvKvList "heard:"; EvKvList "later:"]). cbn [trace emit].
    rewrite Ht, <- !app_assoc, summarizer_calls_app, (summarizer_calls_list_traffic _ Hall').
    done. }
  exists cands, laterIds, w1, items, (evs1 ++ evs2).
  split; [done|]. split; [done|]. split; [lia|]. split; [lia|].
  split; [by rewrite Ht2, Ht1, app_assoc|].
  rewrite summarizer_calls_app. lia.
Qed.

(** X6.  A summary that is in the cache is served from it whatever the
    network does: the call reads the store, logs the hit and returns the
    stored text; it sends nothing, takes no answer and writes nothing. *)
Theorem cache_hit_needs_no_network (article : Article) (w : World) :
  JS.truthy (KV.read (now w) (kv w) ("summary:" +:+ art_id article)) = true →
  ∃ cached,
    KV.read (now w) (kv w) ("summary:" +:+ art_id article) = Some cached
    ∧ getCachedOrSummarize URL_hostname article env w
      = (Ok cached,
         {| kv := kv w; now := now w; upstream := upstream w;
            trace := trace w ++ [EvKvGet ("summary:" +:+ art_id article);
                                 EvLog ["Cache hit for article " +:+ art_id article]] |}).
Proof.
  intros Hhit. unfold getCachedOrSummarize, KV.get, console_log, bind, ret.
  destruct (KV.read (now w) (kv w) ("summary:" +:+ art_id article)) as [[|c s]|];
    try discriminate.
  eexists. split; [reflexivity|]. unfold emit. cbn [kv now upstream trace].
  by rewrite <- app_assoc.
Qed.

(** A miss answered by the summarizer with a text: the text is returned and
    stored. *)
Lemma generation_is_stored (article : Article) (w : World) (r : http_response)
    (rest : list http_response) (text : string) :
  JS.truthy (KV.read (now w) (kv w) ("summary:" +:+ art_id article)) = false →
  upstream w = r :: rest →
  rs_ok r = true →
  rs_json r = Some (MessagePayload text) →
  ∃ w', getCachedOrSummarize URL_hostname article env w = (Ok text, w')
        ∧ kv w' = <["summary:" +:+ art_id article :=
                     KvEntry text (Some (now w + SUMMARY_CACHE_TTL * 1000))]> (kv w)
        ∧ upstream w' = rest.
Proof.
  intros Hmiss Hup Hok Hjson. eexists.
  unfold getCachedOrSummarize, summarizeArticle, KV.get, KV.put, http_fetch, response_json,
    console_log, bind, ret, throw.
  destruct (KV.read (now w) (kv w) ("summary:" +:+ art_id article)) as [[|c s]|];
    try discriminate; cbn [emit upstream kv now trace];
    rewrite Hup, Hok, Hjson; repeat split; reflexivity.
Qed.

(** X7.  A generation that fails is not cached: the store is as it was, one
    request went to the summarizer, and the next call for the article is a
    miss again, which stores the text once the summarizer answers. *)
Theorem failed_generation_is_not_cached
    (article : Article) (w w' : World) (e : string) :
  getCachedOrSummarize URL_hostname article env w = (Throw e, w') →
  kv w' = kv w
  ∧ now w' = now w
  ∧ JS.truthy (KV.read (now w') (kv w') ("summary:" +:+ art_id article)) = false
  ∧ fetch_count (trace w') = S (fetch_count (trace w))
  ∧ summarizer_calls (trace w') = S (summarizer_calls (trace w))
  ∧ (∀ r rest text,
       upstream w' = r :: rest → rs_ok r = true → rs_json r = Some (MessagePayload text) →
       ∃ w'', getCachedOrSummarize URL_hostname article env w' = (Ok text, w'')
              ∧ kv w'' !! ("summary:" +:+ art_id article)
                = Some (KvEntry text (Some (now w + SUMMARY_CACHE_TTL * 1000)))).
Proof.
  intros H.
  assert (kv w' = kv w ∧ now w' = now w
          ∧ JS.truthy (KV.read (now w) (kv w) ("summary:" +:+ art_id article)) = false
          ∧ trace w' = trace w ++ [EvKvGet ("summary:" +:+ art_id article);
                                   EvLog ["Cache miss for article " +:+ art_id article
                                          +:+ ", generating..."];
                                   EvFetch (messages_request URL_hostname article env)])
    as (Hkv & Hnow & Hmiss & Htrace).
  { revert H.
    unfold getCachedOrSummarize, summarizeArticle, KV.get, KV.put, http_fetch,
      response_json, console_log, bind, ret, throw.
    destruct (KV.read (now w) (kv w) ("summary:" +:+ art_id article)) as [[|c s]|];
      cbn [emit upstream kv now trace]; try discriminate;
      (destruct (upstream w) as [|r rest];
         [intros [= _ <-]; cbn [emit kv now trace]; by rewrite <- !app_assoc|]);
      (destruct (negb (rs_ok r));
         [intros [= _ <-]; cbn [emit kv now trace]; by rewrite <- !app_assoc|]);
      destruct (rs_json r) as [[| |]|]; try discriminate;
      intros [= _ <-]; cbn [emit kv now trace]; by rewrite <- !app_assoc. }
  split; [exact Hkv|]. split; [exact Hnow|].
  split; [by rewrite Hkv, Hnow|].
  split; [rewrite Htrace, fetch_count_app; cbn; lia|].
  split.
  { rewrite Htrace, summarizer_calls_app.
    change (summarizer_calls [_; _; EvFetch (messages_request URL_hostname article env)])
      with 1%nat. lia. }
  intros r rest text Hup Hok Hjson.
  destruct (generation_is_stored article w' r rest text) as (w'' & Hrun & Hkv' & _);
    [by rewrite Hkv, Hnow | done..|].
  exists w''. split; [exact Hrun|]. rewrite Hkv', Hnow. apply lookup_insert_eq.
Qed.

(** X4.  When the article store answers the first list request with a
    non-success status other than 429, the feed request fails as a whole: a
    500 that carries [Readwise API error: <status>]; one request was sent,
    the markers were not read, the summarizer was not asked and the store is
    as it was. *)
Theorem failed_list_fetch_fails_the_feed
    (location : option string) (w : World) (r : http_response) (rest : list http_response) :
  upstream w = r :: rest →
  rs_status r ≠ 429 →
  rs_ok r = false →
  let message := "Readwise API error: " +:+ pretty (rs_status r) in
  fetch URL_hostname (get "/api/feed" location) env w
  = (Ok (error_response message),
     {| kv := kv w; now := now w; upstream := rest;
        trace := trace w ++ [EvFetch (list_request env None);
                             EvLog ["Worker error:"; message]] |}).
Proof.
  intros Hup H429 Hok message. apply Z.eqb_neq in H429.
  unfold fetch, dispatch, handleFeed, feed_candidates, fetchAllReadwiseArticles, maxPages,
    try_catch, get.
  cbn [req_method req_pathname fetch_pages fetch_page Nat.ltb Nat.leb].
  unfold bind, http_fetch, ret, throw, console_error. simpl.
  rewrite Hup, H429, Hok. cbn [negb]. unfold emit, error_response, message.
  cbn [kv now upstream trace]. f_equal. f_equal. by rewrite <- app_assoc.
Qed.

End Cost.

(** ** Speech *)

Section Speech.

Variable URL_hostname : string → option string.
Variable env : Env.

(** X8.  Text to speech degrades to the browser: without a key the answer
    is the fallback and nothing is sent; with a key, one request goes to the
    speech service, carrying the first 4096 characters of the text and the
    voice asked for ([alloy] when none is), and the answer is the audio
    stream when the service succeeds and the fallback, with the whole text,
    when it answers with a non-success status.  In each case the status is
    200 and the store is not touched. *)
Theorem speech_falls_back_to_the_browser
    (request : Request) (body : JsonBody) (cors : list (string * string)) (w : World) :
  req_json request = Some body →
  let voice := match jb_voice body with Some v => v | None => "alloy" end in
  (JS.truthy (OPENAI_API_KEY env) = false →
     handleTTS request env cors w
     = (Ok (browser_tts cors (jb_text body)), emit (key_log env) w))
  ∧ (∀ input r rest,
       JS.truthy (OPENAI_API_KEY env) = true →
       jb_text body = Some input →
       upstream w = r :: rest →
       handleTTS request env cors w
       = (Ok (if rs_ok r then audio_response cors (rs_text r)
              else browser_tts cors (Some input)),
          {| kv := kv w; now := now w; upstream := rest;
             trace := trace w
                      ++ [key_log env; EvFetch (speech_request env input voice)]
                      ++ (if rs_ok r then [] else [EvLog ["OpenAI TTS error:"; rs_text r]]) |})).
Proof.
  intros Hbody voice. split.
  - intros Hkey. unfold handleTTS, request_json. rewrite Hbody.
    unfold bind, ret, console_log. rewrite Hkey. reflexivity.
  - intros input r rest Hkey Htext Hup. unfold handleTTS, request_json. rewrite Hbody.
    unfold bind, ret, console_log, console_error, http_fetch. rewrite Hkey, Htext.
    cbn [negb emit upstream kv now trace]. rewrite Hup.
    destruct (rs_ok r); unfold emit; cbn [negb upstream kv now trace];
      f_equal; f_equal; rewrite <- ?app_assoc; reflexivity.
Qed.

(** X9.  Two failures of text to speech do reach the client as a 500: a
    body without [text] when a key is set, which fails before anything is
    sent, and a speech service that cannot be reached. *)
Theorem speech_errors_that_reach_the_client (body : JsonBody) (w : World) :
  JS.truthy (OPENAI_API_KEY env) = true →
  (jb_text body = None →
     ∃ e, fetch URL_hostname (post "/api/tts" body) env w
          = (Ok (error_response e), emit (EvLog ["Worker error:"; e]) (emit (key_log env) w)))
  ∧ (∀ input, jb_text body = Some input → upstream w = [] →
       ∃ e w', fetch URL_hostname (post "/api/tts" body) env w = (Ok (error_response e), w')
               ∧ kv w' = kv w
               ∧ fetch_count (trace w') = S (fetch_count (trace w))).
Proof.
  intros Hkey. split.
  - intros Htext. eexists.
    unfold fetch, dispatch, try_catch, handleTTS, request_json, post.
    cbn [req_method req_pathname req_json]. simpl.
    unfold bind, ret, throw, console_log, console_error. rewrite Hkey, Htext.
    reflexivity.
  - intros input Htext Hup. eexists _, _.
    unfold fetch, dispatch, try_catch, handleTTS, request_json, post.
    cbn [req_method req_pathname req_json]. simpl.
    unfold bind, ret, throw, console_log, console_error, http_fetch. rewrite Hkey, Htext.
    cbn [negb emit upstream kv now trace]. rewrite Hup.
    split; [reflexivity|]. split; [reflexivity|].
    cbn [emit trace]. rewrite !fetch_count_app. cbn. lia.
Qed.

End Speech.

(** ** Markers *)

Section Markers.

Variable URL_hostname : string → option string.
Variable env : Env.

Lemma read_put_eq (w : World) (key value : string) (ttl : Z) :
  0 < ttl →
  KV.read (now w) (<[key := KvEntry value (Some (now w + ttl * 1000))]> (kv w)) key
  = Some value.
Proof.
  intros H. unfold KV.read. rewrite lookup_insert_eq.
  by rewrite (live_after_put w ttl).
Qed.

Lemma read_put_ne (t : Z) (m : gmap string kv_entry) (key key' : string) (e : kv_entry) :
  key ≠ key' → KV.read t (<[key := e]> m) key' = KV.read t m key'.
Proof. intros H. unfold KV.read. by rewrite lookup_insert_ne. Qed.



(** The upstream delete is one [DELETE] and leaves the store alone. *)
Lemma deleteReadwiseDocument_effects (id : option string) (w w' : World) (res : outcome bool) :
  deleteReadwiseDocument id env w = (res, w') →
  kv w' = kv w ∧ now w' = now w
  ∧ trace w' = trace w ++ [EvFetch (delete_request id env)].
Proof.
  unfold deleteReadwiseDocument, http_fetch, bind, ret, throw.
  destruct (upstream w) as [|r rest]; [by intros [= <- <-]|].
  destruct (_ && _); by intros [= <- <-].
Qed.

(** X11.  Deleting, like archiving, writes [heard:<id>] with a 30-day TTL
    before it calls the article store, and keeps it when the call fails: the
    caller gets a 500 with the error, the store is the old one with the
    marker added, and the marker can be read back. *)
Theorem delete_keeps_marker_when_upstream_fails
    (body : JsonBody) (w w1 : World) (e : string) :
  let key := "heard:" +:+ JS.interpolate (jb_id body) in
  let written :=
    <[key := KvEntry (pretty (now w)) (Some (now w + thirty_days * 1000))]> (kv w) in
  deleteReadwiseDocument (jb_id body) env
    (emit (EvKvPut key (pretty (now w)) thirty_days) (with_kv written w))
  = (Throw e, w1) →
  fetch URL_hostname (post "/api/delete" body) env w
  = (Ok (error_response e), emit (EvLog ["Worker error:"; e]) w1)
  ∧ trace w1 = trace w ++ [EvKvPut key (pretty (now w)) thirty_days;
                           EvFetch (delete_request (jb_id body) env)]
  ∧ kv w1 = written
  ∧ KV.read (now w1) (kv w1) key = Some (pretty (now w)).
Proof.
  intros key written Hdel.
  destruct (deleteReadwiseDocument_effects _ _ _ _ Hdel) as (Hkv & Hnow & Htrace).
  cbn [emit with_kv kv now trace] in Hkv, Hnow, Htrace.
  assert (handleDelete (post "/api/delete" body) env corsHeaders w = (Throw e, w1)) as Hh.
  { unfold handleDelete, request_json, Date_now, KV.put, post. cbn [req_json].
    unfold bind at 1 2 3, ret. fold key. fold written.
    change (60 * 60 * 24 * 30) with thirty_days.
    erewrite bind_Throw; [reflexivity | exact Hdel]. }
  split.
  { unfold fetch, dispatch, post. simpl. fold (post "/api/delete" body).
    erewrite try_catch_Throw; [|exact Hh]. reflexivity. }
  split; [by rewrite Htrace, <- app_assoc|].
  split; [exact Hkv|].
  rewrite Hkv, Hnow. unfold written. by apply read_put_eq.
Qed.




End Markers.

(** ** The main handler as a whole *)

Section Answers.

Variable URL_hostname : string → option string.
Variable env : Env.

(** What the routes answer when they do not fail. *)
Lemma dispatch_status (request : Request) (w w' : World) (resp : Response) :
  dispatch URL_hostname request env w = (Ok resp, w') →
  resp_status resp = 200 ∨ (resp = not_found ∧ w' = w).
Proof.
  unfold dispatch.
  destruct (_ || _); [unfold serveHTML, ret; intros [= <- _]; by left|].
  destruct (JS.includes _ "/api/feed"); [intros H; left; by eapply handleFeed_status|].
  destruct (_ && _); [intros H; left; by eapply handleTTS_status|].
  destruct (_ && _); [intros H; left; eapply action_status; [|exact H]; eauto|].
  destruct (_ && _); [intros H; left; eapply action_status; [|exact H]; eauto|].
  destruct (_ && _); [intros H; left; eapply action_status; [|exact H]; eauto|].
  destruct (String.eqb _ "/manifest.json"); unfold ret; intros [= <- <-]; [by left | by right].
Qed.

(** X14.  An action request whose body is not JSON is answered with a 500
    before anything is done: the store is not written, no request leaves the
    worker, and the only trace is the logged error. *)
Theorem malformed_body_changes_nothing (request : Request) (w : World) :
  req_method request = "POST" →
  req_pathname request ∈ ["/api/tts"; "/api/archive"; "/api/delete"; "/api/later"] →
  req_json request = None →
  ∃ e, fetch URL_hostname request env w
       = (Ok (error_response e), emit (EvLog ["Worker error:"; e]) w).
Proof.
  destruct request as [method path location json]. cbn [req_method req_pathname req_json].
  intros -> Hpath ->. eexists.
  repeat (apply elem_of_cons in Hpath as [-> | Hpath]); [..|by apply elem_of_nil in Hpath];
    reflexivity.
Qed.

(** X15.  The worker answers every request and never fails: the status is
    200, or the answer is the 404 [Not Found] response with the world left
    as it was, or it is the 500 response that carries the error some route
    has thrown, which is logged; and a preflight request gets the bare 200
    with the cross-origin headers, whatever its path, and touches nothing. *)
Theorem every_request_is_answered (request : Request) (w : World) :
  ∃ resp w',
    fetch URL_hostname request env w = (Ok resp, w')
    ∧ (resp_status resp = 200
       ∨ (resp = not_found ∧ w' = w)
       ∨ (∃ e w1, dispatch URL_hostname request env w = (Throw e, w1)
                  ∧ resp = error_response e
                  ∧ w' = emit (EvLog ["Worker error:"; e]) w1))
    ∧ (req_method request = "OPTIONS" → resp = preflight ∧ w' = w).
Proof.
  unfold fetch. destruct (String.eqb_spec (req_method request) "OPTIONS") as [Hm|Hm].
  { eexists _, _. split; [reflexivity|]. split; [by left | done]. }
  unfold try_catch.
  destruct (dispatch URL_hostname request env w) as [[resp|e] w1] eqn:Hd.
  - eexists _, _. split; [reflexivity|]. split; [|done].
    apply dispatch_status in Hd as [H | H]; [by left | right; by left].
  - eexists _, _. split; [reflexivity|]. split; [|done].
    right; right. by eexists _, _.
Qed.

End Answers.

(** ** Pages and cursors *)

Section Cursors.

Variable env : Env.

(** One turn of the pagination loop on a page that is served at once. *)
Lemma fetch_pages_step (fuel : nat) (locationFilter : string) (allArticles : list Article)
    (nextCursor : option string) (pageCount : nat) (w : World)
    (r : http_response) (rest : list http_response) (data : payload) :
  upstream w = r :: rest →
  rs_ok r = true →
  rs_json r = Some data →
  let w1 := {| kv := kv w; now := now w; upstream := rest;
               trace := trace w ++ (if (0 <? pageCount)%nat then [EvSleep 1000] else [])
                                ++ [EvFetch (list_request env nextCursor)] |} in
  let allArticles' := allArticles ++ kept locationFilter data in
  fetch_pages (S fuel) env locationFilter allArticles nextCursor pageCount w
  = if (MAX_ARTICLES <=? length allArticles')%nat || (maxPages <=? S pageCount)%nat
    then (Ok allArticles', w1)
    else if JS.truthy (payload_nextPageCursor data)
         then fetch_pages fuel env locationFilter allArticles' (payload_nextPageCursor data)
                (S pageCount) w1
         else (Ok allArticles', w1).
Proof.
  intros Hup Hok Hjson w1 allArticles'.
  cbn [fetch_pages]. unfold bind at 1.
  assert (∃ w0, (if (0 <? pageCount)%nat then sleep 1000 else ret tt) w = (Ok tt, w0)
                ∧ upstream w0 = r :: rest ∧ kv w0 = kv w ∧ now w0 = now w
                ∧ trace w0 = trace w ++ (if (0 <? pageCount)%nat then [EvSleep 1000] else []))
    as (w0 & -> & Hup0 & Hkv0 & Hnow0 & Htrace0).
  { destruct (0 <? pageCount)%nat.
    - eexists. split; [reflexivity|]. cbn [emit upstream kv now trace]. by rewrite Hup.
    - exists w. unfold ret. by rewrite app_nil_r. }
  destruct (fetch_page_limited 3 (list_request env nextCursor) None [] r rest w0)
    as (w2 & Hrun & Hup2 & Hkv2 & Hnow2 & Htrace2).
  { exact Hup0. } { constructor. } { simpl. lia. }
  { intros H429. apply ok_not_rate_limited in Hok. rewrite H429 in Hok. discriminate. }
  unfold bind at 1. rewrite Hrun. rewrite Hok. cbn [negb].
  unfold bind at 1. unfold response_json. rewrite Hjson. unfold ret at 1.
  assert (w2 = w1) as ->.
  { destruct w2 as [k n u t]. cbn [kv now upstream trace] in *. unfold w1.
    rewrite Hup2, Hkv2, Hnow2, Htrace2, Hkv0, Hnow0, Htrace0. cbn [flat_map app].
    by rewrite <- app_assoc. }
  fold (kept locationFilter data). fold allArticles'.
  destruct (_ || _); [reflexivity|].
  destruct (JS.truthy (payload_nextPageCursor data)); reflexivity.
Qed.

(** X17.  The sync ends with the first page when that page fills the quota
    of [MAX_ARTICLES] kept documents or names no next page (none, or an
    empty cursor): one request is sent and the result holds every kept
    document of the page, sorted, also when they are more than the quota. *)
Theorem sync_ends_with_a_full_or_last_page
    (locationFilter : string) (w : World) (r : http_response) (rest : list http_response)
    (data : payload) :
  upstream w = r :: rest →
  rs_ok r = true →
  rs_json r = Some data →
  (MAX_ARTICLES ≤ length (kept locationFilter data))%nat
  ∨ JS.truthy (payload_nextPageCursor data) = false →
  fetchAllReadwiseArticles env locationFilter w
  = (Ok (JS.sort by_saved_at_desc (kept locationFilter data)),
     {| kv := kv w; now := now w; upstream := rest;
        trace := trace w ++ [EvFetch (list_request env None)] |}).
Proof.
  intros Hup Hok Hjson Hend. unfold fetchAllReadwiseArticles, bind.
  change maxPages with (S 9).
  rewrite (fetch_pages_step 9 locationFilter [] None 0 w r rest data Hup Hok Hjson).
  cbn [app Nat.ltb Nat.leb].
  change (S 9 <=? 1)%nat with false. rewrite orb_false_r.
  destruct Hend as [Hfull | Hlast].
  - apply Nat.leb_le in Hfull. rewrite Hfull. reflexivity.
  - rewrite Hlast. by destruct (MAX_ARTICLES <=? _)%nat.
Qed.

(** X18.  A page that leaves the quota unfilled and names a cursor is
    followed: the sync waits a second, asks for the page of that cursor, and
    appends its kept documents to those of the first page before it sorts. *)
Theorem sync_follows_the_cursor
    (locationFilter : string) (w : World) (r1 r2 : http_response)
    (rest : list http_response) (data1 data2 : payload) (cursor : string) :
  upstream w = r1 :: r2 :: rest →
  rs_ok r1 = true → rs_json r1 = Some data1 →
  rs_ok r2 = true → rs_json r2 = Some data2 →
  payload_nextPageCursor data1 = Some cursor → cursor ≠ "" →
  (length (kept locationFilter data1) < MAX_ARTICLES)%nat →
  (MAX_ARTICLES ≤ length (kept locationFilter data1 ++ kept locationFilter data2))%nat
  ∨ JS.truthy (payload_nextPageCursor data2) = false →
  fetchAllReadwiseArticles env locationFilter w
  = (Ok (JS.sort by_saved_at_desc (kept locationFilter data1 ++ kept locationFilter data2)),
     {| kv := kv w; now := now w; upstream := rest;
        trace := trace w ++ [EvFetch (list_request env None); EvSleep 1000;
                             EvFetch (list_request env (Some cursor))] |}).
Proof.
  intros Hup Hok1 Hjson1 Hok2 Hjson2 Hcursor Hne Hfew Hend.
  unfold fetchAllReadwiseArticles, bind. change maxPages with (S 9).
  rewrite (fetch_pages_step 9 locationFilter [] None 0 w r1 (r2 :: rest) data1 Hup Hok1 Hjson1).
  cbn [app Nat.ltb Nat.leb].
  change (S 9 <=? 1)%nat with false. rewrite orb_false_r.
  apply Nat.leb_gt in Hfew. rewrite Hfew, Hcursor.
  assert (JS.truthy (Some cursor) = true) as ->.
  { destruct cursor; [done | reflexivity]. }
  change 9%nat with (S 8).
  erewrite fetch_pages_step; [|reflexivity | exact Hok2 | exact Hjson2].
  cbn [kv now upstream trace Nat.ltb Nat.leb].
  change (S 9 <=? 2)%nat with false. rewrite orb_false_r.
  assert (∀ (t : list event) a b c, (t ++ [a]) ++ [b] ++ [c] = t ++ [a; b; c]) as Happ.
  { intros. by rewrite <- app_assoc. }
  destruct Hend as [Hfull | Hlast].
  - apply Nat.leb_le in Hfull. rewrite Hfull. by rewrite Happ.
  - rewrite Hlast. destruct (MAX_ARTICLES <=? length (_ ++ _))%nat; by rewrite Happ.
Qed.

End Cursors.

(** ** What is served is what is cached *)

Section Served.

Variable URL_hostname : string → option string.
Variable env : Env.

Lemma summary_key_inj (id id' : string) : "summary:" +:+ id = "summary:" +:+ id' → id = id'.
Proof. apply (String.app_inj "summary:"). Qed.

(** The three ways a lookup ends: a hit, a generation that is stored, a
    failure that leaves the store alone. *)
Lemma getCachedOrSummarize_cases (article : Article) (w w' : World) (res : outcome string) :
  getCachedOrSummarize URL_hostname article env w = (res, w') →
  let key := "summary:" +:+ art_id article in
  now w' = now w
  ∧ match res with
    | Ok summary =>
        (JS.truthy (KV.read (now w) (kv w) key) = true
         ∧ KV.read (now w) (kv w) key = Some summary ∧ kv w' = kv w)
        ∨ (JS.truthy (KV.read (now w) (kv w) key) = false
           ∧ kv w' = <[key := KvEntry summary (Some (now w + SUMMARY_CACHE_TTL * 1000))]> (kv w))
    | Throw _ => kv w' = kv w
    end.
Proof.
  unfold getCachedOrSummarize, summarizeArticle, KV.get, KV.put, http_fetch,
    response_json, console_log, bind, ret, throw.
  cbn [emit upstream kv now trace].
  destruct (KV.read (now w) (kv w) ("summary:" +:+ art_id article)) as [[|c s]|];
    cbn [emit upstream kv now trace];
    try (intros [= <- <-]; cbn [emit with_kv kv now JS.truthy]; by eauto);
    (destruct (upstream w) as [|r rest];
       [intros [= <- <-]; cbn [emit with_kv kv now]; by eauto|]);
    (destruct (negb (rs_ok r)); [intros [= <- <-]; cbn [emit with_kv kv now]; by eauto|]);
    destruct (rs_json r) as [[| |]|]; intros [= <- <-];
    cbn [emit with_kv kv now JS.truthy]; eauto.
Qed.

Lemma summarize_one_cached (laterIds : gset string) (article : Article)
    (summaries out : list FeedItem) (w w' : World) :
  summarize_one URL_hostname env laterIds article summaries w = (Ok out, w') →
  Forall (cached_summary w) summaries →
  Forall (cached_summary w') out.
Proof.
  intros Hrun Hall.
  destruct (getCachedOrSummarize URL_hostname article env w) as [[summary|e] w1] eqn:Hget.
  - rewrite (summarize_one_serves _ _ _ _ _ _ _ _ Hget) in Hrun.
    destruct (getCachedOrSummarize_cases _ _ _ _ Hget) as [Hnow Hcases].
    assert (Forall (cached_summary w1) (summaries ++ [feed_item URL_hostname article summary]))
      as Hall1.
    { apply Forall_app. split.
      - eapply Forall_impl; [exact Hall|]. intros item Hitem Hne.
        specialize (Hitem Hne). rewrite Hnow.
        destruct Hcases as [(_ & _ & ->) | (Hmiss & ->)]; [exact Hitem|].
        rewrite read_put_ne; [exact Hitem|].
        intros Heq. apply summary_key_inj in Heq. rewrite Heq, Hitem in Hmiss.
        destruct (fi_summary item); [done | discriminate].
      - apply Forall_singleton. intros Hne. cbn [feed_item fi_id fi_summary] in *.
        rewrite Hnow.
        destruct Hcases as [(_ & Hread & ->) | (_ & ->)]; [exact Hread|].
        apply read_put_eq. unfold SUMMARY_CACHE_TTL. lia. }
    injection Hrun as <- <-.
    destruct (bool_decide (art_id article ∈ laterIds)); [|exact Hall1].
    eapply Forall_impl; [exact Hall1|]. intros item Hitem Hne.
    specialize (Hitem Hne). unfold KV.read in *. cbn [emit with_kv kv now].
    rewrite lookup_delete_ne; [exact Hitem | discriminate].
  - rewrite (summarize_one_skips _ _ _ _ _ _ _ _ Hget) in Hrun. injection Hrun as <- <-.
    destruct (getCachedOrSummarize_cases _ _ _ _ Hget) as [Hnow Hkv].
    eapply Forall_impl; [exact Hall|]. intros item Hitem Hne.
    unfold cached_summary in Hitem. cbn [emit kv now]. rewrite Hnow, Hkv. by apply Hitem.
Qed.

Lemma summarize_each_cached (laterIds : gset string) (articles : list Article)
    (summaries out : list FeedItem) (w w' : World) :
  summarize_each URL_hostname env laterIds articles summaries w = (Ok out, w') →
  Forall (cached_summary w) summaries →
  Forall (cached_summary w') out.
Proof.
  revert summaries w. induction articles as [|a articles IH]; intros summaries w Hrun Hall.
  - unfold summarize_each, ret in Hrun. by injection Hrun as <- <-.
  - cbn [summarize_each] in Hrun. apply bind_inv_Ok in Hrun as (s1 & w1 & Hone & Hrest).
    eapply IH; [exact Hrest|]. eapply summarize_one_cached; [exact Hone | exact Hall].
Qed.

(** X16.  What a feed response serves is what the cache holds: when the
    pass is over, the summary of each item, unless it is empty, can be read
    from the store under [summary:<id>], whether it was found there or
    generated on the way, and also when several articles share an id. *)
Theorem served_summaries_are_cached
    (request : Request) (cors : list (string * string)) (w w' : World) (resp : Response)
    (items : list FeedItem) (total : nat) (location : string) :
  handleFeed URL_hostname request env cors w = (Ok resp, w') →
  resp_body resp = BodyFeed items total location →
  ∀ item, item ∈ items →
    fi_summary item ≠ "" →
    KV.read (now w') (kv w') ("summary:" +:+ fi_id item) = Some (fi_summary item).
Proof.
  intros Hfeed Hbody item Hin.
  apply handleFeed_inv in Hfeed as (cands & laterIds & w1 & items' & _ & Heach & ->).
  cbn in Hbody. injection Hbody as <- _ _.
  apply summarize_each_cached in Heach; [|constructor].
  rewrite Forall_forall in Heach. by apply Heach.
Qed.

End Served.

(** ** The life of a marker *)

Section Lifetimes.

Variable URL_hostname : string → option string.
Variable env : Env.



End Lifetimes.

(** * Properties of the script of the page *)

Section Script.

Import Player.

Lemma same_list_refl (s : State) : same_list s s.
Proof. by repeat split. Qed.

Lemma same_list_trans (s1 s2 s3 : State) :
  same_list s1 s2 → same_list s2 s3 → same_list s1 s3.
Proof.
  intros (H1 & H2 & H3 & H4) (H1' & H2' & H3' & H4').
  repeat split; congruence.
Qed.

Lemma untouched_trans (s1 s2 s3 : State) :
  untouched s1 s2 → untouched s2 s3 → untouched s1 s3.
Proof.
  intros (H1 & H2 & H3 & H4) (H1' & H2' & H3' & H4').
  split; [by eapply same_list_trans|]. repeat split; congruence.
Qed.

Lemma stable_consistent : stable consistent.
Proof.
  intros s s' (H1 & H2 & H3 & H4) (Hi & Hn & Hs). unfold consistent.
  by rewrite H1, H2, H3, H4.
Qed.

(** A consistent state has a current article unless its list is empty. *)
Lemma consistent_current (s : State) :
  consistent s → length_of (articles s) ≠ 0 → is_Some (current s).
Proof.
  intros ((H0 & Hlt) & _) Hne. unfold current, at_index, length_of in *.
  destruct (Z.ltb_spec (currentIndex s) 0) as [|_]; [lia|].
  apply lookup_lt_is_Some. lia.
Qed.

(** ** Statements that leave the variables alone *)

Lemma keeps_does (e : effect) : keeps (does e).
Proof. intros s. eexists. split; [reflexivity|]. by repeat split. Qed.

Lemma keeps_skip : keeps skip.
Proof. intros s. exists s. by repeat split. Qed.

Lemma keeps_block (statements : list Script) : Forall keeps statements → keeps (block statements).
Proof.
  induction 1 as [|m rest Hm _ IH]; [apply keeps_skip|].
  intros s. destruct (Hm s) as (s1 & Hrun & Hu).
  destruct (IH s1) as (s2 & Hrun' & Hu').
  exists s2. cbn [block]. rewrite Hrun. split; [exact Hrun'|].
  by eapply untouched_trans.
Qed.

Lemma keeps_stop : keeps stop.
Proof.
  apply keeps_block. repeat constructor; [apply keeps_does|].
  intros s. destruct (currentAudio s).
  - eexists. split; [reflexivity|]. by repeat split.
  - exists s. by repeat split.
Qed.

Lemma keeps_speak (text : string) (onEnd : callback) : keeps (speak text onEnd).
Proof.
  apply keeps_block. repeat constructor; [apply keeps_stop|].
  intros s. destruct (String.eqb (selectedVoice s) "browser").
  - apply keeps_does.
  - apply keeps_block. repeat constructor; apply keeps_does.
Qed.

Lemma keeps_updatePlayButton : keeps updatePlayButton.
Proof. intros s. apply keeps_does. Qed.




(** ** Triples *)

Lemma triple_keeps (P : State → Prop) (m : Script) : stable P → keeps m → triple P m P.
Proof.
  intros HP Hm s Hs. destruct (Hm s) as (s' & Hrun & (Hl & _)).
  exists s'. split; [exact Hrun|]. by eapply HP.
Qed.

Lemma triple_nil (P Q : State → Prop) : (∀ s, P s → Q s) → triple P (block []) Q.
Proof. intros H s Hs. exists s. split; [reflexivity | by apply H]. Qed.

Lemma triple_cons (P R Q : State → Prop) (m : Script) (rest : list Script) :
  triple P m R → triple R (block rest) Q → triple P (block (m :: rest)) Q.
Proof.
  intros Hm Hrest s Hs. destruct (Hm s Hs) as (s1 & Hrun & Hr).
  destruct (Hrest s1 Hr) as (s2 & Hrun' & Hq).
  exists s2. cbn [block]. by rewrite Hrun.
Qed.

Lemma triple_assign (P Q : State → Prop) (update : State → State) :
  (∀ s, P s → Q (update s)) → triple P (assign update) Q.
Proof. intros H s Hs. eexists. split; [reflexivity | by apply H]. Qed.

Lemma triple_weaken (P P' Q Q' : State → Prop) (m : Script) :
  (∀ s, P' s → P s) → (∀ s, Q s → Q' s) → triple P m Q → triple P' m Q'.
Proof.
  intros HP HQ Hm s Hs. destruct (Hm s (HP s Hs)) as (s' & Hrun & Hq). eauto.
Qed.

Lemma triple_if (P Q : State → Prop) (test : State → bool) (m1 m2 : Script) :
  triple (λ s, P s ∧ test s = true) m1 Q →
  triple (λ s, P s ∧ test s = false) m2 Q →
  triple P (λ s, if test s then m1 s else m2 s) Q.
Proof.
  intros H1 H2 s Hs. destruct (test s) eqn:E; [apply H1 | apply H2]; done.
Qed.

Lemma untouched_consistent (s s' : State) : untouched s s' → consistent s → consistent s'.
Proof. intros [Hl _]. by apply stable_consistent. Qed.

Lemma updateDisplay_spec (s : State) :
  consistent s → ∃ s', updateDisplay s = (Ok tt, s') ∧ untouched s s'.
Proof.
  intros Hs. unfold updateDisplay.
  destruct (Z.eqb_spec (length_of (articles s)) 0) as [|Hne]; [apply keeps_skip|].
  destruct (consistent_current s Hs Hne) as [article ->].
  eexists. split; [reflexivity|]. by repeat split.
Qed.

Lemma triple_updateDisplay : triple consistent updateDisplay consistent.
Proof.
  intros s Hs. destruct (updateDisplay_spec s Hs) as (s' & Hrun & Hu).
  exists s'. split; [exact Hrun|]. by eapply untouched_consistent.
Qed.

(** [play] ends well, and playing unless the list is empty. *)
Lemma play_spec (s : State) :
  consistent s →
  ∃ s', play s = (Ok tt, s') ∧ same_list s s'
        ∧ isPlaying s' = (if length_of (articles s) =? 0 then isPlaying s else true)
        ∧ selectedVoice s' = selectedVoice s.
Proof.
  intros Hs. unfold play.
  destruct (Z.eqb_spec (length_of (articles s)) 0) as [|Hne]; [by exists s|].
  destruct (consistent_current s Hs Hne) as [article ->].
  cbn [block]. unfold assign at 1.
  destruct (keeps_block [updatePlayButton; does ProgressTimer;
                         speak ("Next, from " +:+ fi_source article +:+ ". "
                                +:+ fi_summary article) (AfterSummary article)]
              ltac:(repeat constructor;
                    [apply keeps_updatePlayButton | apply keeps_does | apply keeps_speak])
              (set_isPlaying true s)) as (s' & Hrun & Hl & Hp & Hv & _).
  exists s'. split; [exact Hrun|]. split; [exact Hl|]. split; [exact Hp | exact Hv].
Qed.

Lemma triple_play : triple consistent play consistent.
Proof.
  intros s Hs. destruct (play_spec s Hs) as (s' & Hrun & Hl & _).
  exists s'. split; [exact Hrun|]. by eapply stable_consistent.
Qed.

(** [markPlayed] adds the id to the set and stores the last 200 ids. *)
Lemma markPlayed_spec (id : string) (s : State) :
  ∃ s', markPlayed id s = (Ok tt, s')
        ∧ articles s' = articles s ∧ currentIndex s' = currentIndex s
        ∧ isPlaying s' = isPlaying s ∧ selectedVoice s' = selectedVoice s
        ∧ playedIds s' = Set_add id (playedIds s)
        ∧ st_articles (localStorage s') = st_articles (localStorage s)
        ∧ st_played (localStorage s') = Some (slice_last 200 (playedIds s')).
Proof. eexists. split; [reflexivity|]. by repeat split. Qed.

Lemma NoDup_Set_add (id : string) (set : list string) : NoDup set → NoDup (Set_add id set).
Proof.
  intros Hn. unfold Set_add. case_bool_decide; [exact Hn|].
  apply NoDup_app. split; [exact Hn|]. split; [|apply NoDup_singleton].
  intros x Hx ->%list_elem_of_singleton. done.
Qed.


Lemma triple_markPlayed (id : string) (R : list FeedItem → Z → Prop) :
  triple (within R) (markPlayed id) (within R).
Proof.
  intros s [(Hi & Hn & Hst) Hr].
  destruct (markPlayed_spec id s) as (s' & Hrun & Ha & Hc & _ & _ & Hp & Hs & _).
  exists s'. split; [exact Hrun|]. unfold within, consistent.
  rewrite Ha, Hc, Hp, Hs. repeat split; try done; try apply Hi. by apply NoDup_Set_add.
Qed.


Lemma triple_consistent_keeps (m : Script) : keeps m → triple consistent m consistent.
Proof. apply triple_keeps, stable_consistent. Qed.

Lemma triple_play_if : triple consistent (λ s, if isPlaying s then play s else skip s) consistent.
Proof.
  apply triple_if.
  - eapply triple_weaken; [| |apply triple_play]; [by intros s [? _] | done].
  - intros s [Hs _]. by exists s.
Qed.




Lemma skipArticle_spec (s : State) (article : FeedItem) :
  consistent s →
  current s = Some article →
  currentIndex s < length_of (articles s) - 1 →
  ∃ s', skipArticle s = (Ok tt, s')
        ∧ consistent s'
        ∧ articles s' = articles s
        ∧ currentIndex s' = currentIndex s + 1
        ∧ playedIds s' = Set_add (fi_id article) (playedIds s).
Proof.
  intros Hs Hcur Hlt. unfold skipArticle.
  destruct (Z.ltb_spec (currentIndex s) (length_of (articles s) - 1)); [|lia].
  cbn [block].
  destruct (keeps_stop s) as (s1 & -> & Hu1).
  pose proof (untouched_consistent _ _ Hu1 Hs) as Hs1.
  destruct Hu1 as ((Ha1 & Hc1 & Hp1 & _) & _).
  unfold markPlayed_current, current. rewrite Ha1, Hc1.
  change (at_index (articles s) (currentIndex s)) with (current s). rewrite Hcur.
  destruct (triple_markPlayed (fi_id article) (λ _ _, True) s1) as (s2 & Hrun2 & Hs2 & _);
    [by split|].
  destruct (markPlayed_spec (fi_id article) s1) as (s2' & Hrun2' & Ha2 & Hc2 & _ & _ & Hp2 & _).
  rewrite Hrun2 in Hrun2'. injection Hrun2' as <-. rewrite Hrun2.
  unfold assign at 1.
  assert (consistent (set_currentIndex (currentIndex s2 + 1) s2)) as Hs3.
  { destruct Hs2 as ((H0 & _) & Hn & Hst).
    split; [cbn; rewrite Hc2, Hc1, Ha2, Ha1 in *; lia|]. by split. }
  destruct (updateDisplay_spec _ Hs3) as (s4 & -> & Hu4).
  pose proof (untouched_consistent _ _ Hu4 Hs3) as Hs4.
  destruct Hu4 as ((Ha4 & Hc4 & Hp4 & _) & Hplay4 & _).
  cbn [articles currentIndex playedIds isPlaying set_currentIndex] in Ha4, Hc4, Hp4, Hplay4.
  destruct (keeps_does RenderList s4) as (s5 & Hrun5 & Hu5).
  unfold renderList. rewrite Hrun5.
  pose proof (untouched_consistent _ _ Hu5 Hs4) as Hs5.
  destruct Hu5 as ((Ha5 & Hc5 & Hp5 & _) & _).
  destruct (triple_play_if s5 Hs5) as (s6 & Hrun6 & Hs6).
  assert (same_list s5 s6) as (Ha6 & Hc6 & Hp6 & _).
  { revert Hrun6. destruct (isPlaying s5).
    - destruct (play_spec s5 Hs5) as (s6' & -> & Hl & _). by intros [= <-].
    - intros [= <-]. apply same_list_refl. }
  rewrite Hrun6. exists s6. split; [reflexivity|]. split; [exact Hs6|].
  split; [congruence|]. split; congruence.
Qed.









Lemma splice_one_empty {A} (start : Z) : splice_one start ([] : list A) = [].
Proof. unfold splice_one. by destruct (start <? 0). Qed.

Lemma splice_one_in_range {A} (start : Z) (array : list A) :
  0 ≤ start < length_of array →
  splice_one start array = delete (Z.to_nat start) array
  ∧ length_of (splice_one start array) = length_of array - 1.
Proof.
  intros H. unfold splice_one, length_of in *.
  destruct (Z.ltb_spec start 0) as [|_]; [lia|].
  rewrite Z.min_l by lia. split; [reflexivity|].
  rewrite length_delete; [lia|]. apply lookup_lt_is_Some. lia.
Qed.

(** Once the current article is spliced out, the index is at most the
    length of the list. *)
Lemma splice_one_current (s : State) :
  consistent s →
  0 ≤ currentIndex s ≤ length_of (splice_one (currentIndex s) (articles s)).
Proof.
  intros ((H0 & Hlt) & _).
  destruct (articles s) as [|a l] eqn:E.
  - rewrite splice_one_empty. unfold length_of in *. simpl in *. lia.
  - rewrite <- E in *.
    assert (0 < length_of (articles s)) by (rewrite E; unfold length_of; simpl; lia).
    destruct (splice_one_in_range (currentIndex s) (articles s)) as [_ ->]; lia.
Qed.

Lemma removeCurrentArticle_spec (s : State) :
  consistent s →
  let rest := splice_one (currentIndex s) (articles s) in
  ∃ s', removeCurrentArticle s = (Ok tt, s')
        ∧ consistent s'
        ∧ articles s' = rest
        ∧ playedIds s' = playedIds s
        ∧ st_articles (localStorage s') = Some rest
        ∧ currentIndex s'
          = (if length_of rest =? 0 then currentIndex s
             else if length_of rest <=? currentIndex s then length_of rest - 1
                  else currentIndex s)
        ∧ isPlaying s' = (if length_of rest =? 0 then isPlaying s else true).
Proof.
  intros Hs rest. unfold removeCurrentArticle. cbn [block].
  destruct (keeps_stop s) as (s1 & -> & (Ha & Hc & Hp & Hst) & Hplay & _).
  pose proof (splice_one_current s Hs) as Hidx. fold rest in Hidx.
  destruct Hs as (_ & Hn & _).
  unfold assign at 1 2. cbn [set_articles set_localStorage articles currentIndex localStorage].
  rewrite Ha, Hc. fold rest.
  destruct (Z.eqb_spec (length_of rest) 0) as [Hempty|Hne].
  { eexists. split; [reflexivity|]. cbn.
    split; [|by repeat split].
    unfold consistent. cbn. rewrite Hc, Hp. split; [lia | done]. }
  cbn [block articles currentIndex set_articles set_localStorage].
  pose (s2 := set_localStorage (setItem_articles rest (localStorage s1)) (set_articles rest s1)).
  fold s2.
  pose (index := if length_of rest <=? currentIndex s then length_of rest - 1
                 else currentIndex s).
  assert (∃ s3, (if length_of rest <=? currentIndex s
                 then assign (set_currentIndex (length_of rest - 1)) s2
                 else skip s2) = (Ok tt, s3)
                ∧ articles s3 = rest ∧ currentIndex s3 = index
                ∧ playedIds s3 = playedIds s
                ∧ localStorage s3 = setItem_articles rest (localStorage s1))
    as (s3 & -> & Ha3 & Hc3 & Hp3 & Hst3).
  { unfold index. destruct (length_of rest <=? currentIndex s).
    - eexists. split; [reflexivity|]. by repeat split.
    - exists s2. split; [reflexivity|]. by repeat split. }
  assert (consistent s3) as Hs3.
  { unfold consistent. rewrite Ha3, Hc3, Hp3, Hst3. cbn.
    split; [|done]. unfold index. destruct (Z.leb_spec (length_of rest) (currentIndex s)); lia. }
  destruct (updateDisplay_spec s3 Hs3) as (s4 & -> & Hu4).
  pose proof (untouched_consistent _ _ Hu4 Hs3) as Hs4.
  destruct Hu4 as ((Ha4 & Hc4 & Hp4 & Hst4) & _).
  destruct (keeps_does RenderList s4) as (s5 & Hrun5 & Hu5).
  unfold renderList. rewrite Hrun5.
  pose proof (untouched_consistent _ _ Hu5 Hs4) as Hs5.
  destruct Hu5 as ((Ha5 & Hc5 & Hp5 & Hst5) & _).
  destruct (play_spec s5 Hs5) as (s6 & -> & (Ha6 & Hc6 & Hp6 & Hst6) & Hplay6 & _).
  exists s6. split; [reflexivity|].
  split; [eapply stable_consistent; [|exact Hs5]; by repeat split|].
  split; [congruence|]. split; [congruence|].
  split; [rewrite Hst6, Hst5, Hst4, Hst3; reflexivity|].
  split; [unfold index in Hc3; congruence|].
  rewrite Hplay6, Ha5, Ha4, Ha3. by destruct (Z.eqb_spec (length_of rest) 0).
Qed.





Lemma NoDup_Set_from (array : list string) : NoDup (Set_from array).
Proof.
  unfold Set_from.
  enough (∀ set, NoDup set → NoDup (foldl (λ set value, Set_add value set) set array)) as H.
  { apply H. constructor. }
  induction array as [|x array IH]; intros set Hset; [exact Hset|].
  cbn [foldl]. by apply IH, NoDup_Set_add.
Qed.

Lemma started_consistent (stored : Storage) :
  fst (onDOMContentLoaded (initial stored)) = Ok tt ∧ consistent (started stored).
Proof.
  unfold started.
  assert (triple (λ s, s = initial stored) onDOMContentLoaded consistent) as H.
  { eapply triple_cons.
    - apply triple_assign with (Q := consistent). intros s ->.
      unfold initial. cbn [localStorage].
      destruct (st_articles stored) as [cached|] eqn:E.
      + split; [cbn; unfold length_of; lia|]. split; [apply NoDup_Set_from|].
        cbn. by rewrite E.
      + split; [cbn; lia|]. split; [apply NoDup_Set_from|]. cbn. by rewrite E.
    - apply triple_cons with consistent; [|by apply triple_nil].
      intros s Hs. destruct (0 <? length_of (articles s)).
      + revert s Hs.
        apply triple_cons with consistent; [apply triple_consistent_keeps, keeps_does|].
        apply triple_cons with consistent; [apply triple_updateDisplay|].
        apply triple_consistent_keeps, keeps_block. repeat constructor; apply keeps_does.
      + apply (triple_consistent_keeps _ (keeps_does _)), Hs. }
  destruct (H (initial stored) eq_refl) as (s' & -> & Hs'). done.
Qed.


End Script.

Section Playback.

Import Player.

(** ** Played ids *)

Lemma Set_from_NoDup (array : list string) : NoDup array → Set_from array = array.
Proof.
  unfold Set_from.
  enough (∀ set, NoDup (set ++ array) →
            foldl (λ set value, Set_add value set) set array = set ++ array) as H.
  { intros Hn. by apply (H []). }
  induction array as [|x array IH]; intros set Hn; [by rewrite app_nil_r|].
  cbn [foldl]. unfold Set_add at 2. rewrite bool_decide_eq_false_2.
  - rewrite IH; rewrite <- app_assoc; [reflexivity | exact Hn].
  - apply NoDup_app in Hn as (_ & Hdisj & _). intros Hx. apply (Hdisj x Hx). by left.
Qed.

Lemma slice_last_suffix {A} (count : nat) (array : list A) :
  take (length array - count) array ++ slice_last count array = array.
Proof. apply take_drop. Qed.

Lemma slice_last_length {A} (count : nat) (array : list A) :
  length (slice_last count array) = min count (length array).
Proof. unfold slice_last. rewrite length_drop. lia. Qed.

Lemma slice_last_snoc {A} (count : nat) (array : list A) (x : A) :
  (0 < count)%nat → last (slice_last count (array ++ [x])) = Some x.
Proof.
  intros Hc. unfold slice_last. rewrite length_app. cbn [length].
  rewrite drop_app_le by lia. apply last_snoc.
Qed.

Lemma NoDup_slice_last (count : nat) (array : list string) :
  NoDup array → NoDup (slice_last count array).
Proof.
  intros Hn. rewrite <- (slice_last_suffix count array) in Hn.
  by apply NoDup_app in Hn as (_ & _ & Hn).
Qed.

(** X20.  The played ids are a set kept in the order of first play, and
    [markPlayed] stores its last 200 elements: the stored list is the tail
    of the set, an id played for the first time is its last element, an id
    played before keeps its place (so that it leaves the stored list after
    200 newer ones, however often it is played again), and a page loaded
    from this storage starts with exactly the stored ids as its set. *)
Theorem played_ids_keep_the_last_200 (id : string) (s : State) :
  NoDup (playedIds s) →
  ∃ s' stored,
    markPlayed id s = (Ok tt, s')
    ∧ st_played (localStorage s') = Some stored
    ∧ id ∈ playedIds s'
    ∧ NoDup (playedIds s')
    ∧ (∃ older, playedIds s' = older ++ stored)
    ∧ length stored = min 200 (length (playedIds s'))
    ∧ (id ∉ playedIds s → playedIds s' = playedIds s ++ [id] ∧ last stored = Some id)
    ∧ (id ∈ playedIds s → playedIds s' = playedIds s)
    ∧ playedIds (initial (localStorage s')) = stored.
Proof.
  intros Hn.
  destruct (markPlayed_spec id s) as (s' & Hrun & _ & _ & _ & _ & Hp & _ & Hst).
  exists s', (slice_last 200 (playedIds s')).
  split; [exact Hrun|]. split; [exact Hst|].
  assert (NoDup (playedIds s')) as Hn' by (rewrite Hp; by apply NoDup_Set_add).
  split.
  { rewrite Hp. unfold Set_add. case_bool_decide; [done|].
    apply elem_of_app. right. by apply list_elem_of_singleton. }
  split; [exact Hn'|].
  split; [eexists; symmetry; apply slice_last_suffix|].
  split; [apply slice_last_length|].
  split.
  { intros Hnew. rewrite Hp. unfold Set_add. rewrite bool_decide_eq_false_2 by done.
    split; [reflexivity|]. apply slice_last_snoc. lia. }
  split.
  { intros Hold. rewrite Hp. unfold Set_add. by rewrite bool_decide_eq_true_2. }
  unfold initial. cbn [playedIds]. rewrite Hst. cbn [default].
  by apply Set_from_NoDup, NoDup_slice_last.
Qed.

(** ** Removing the current article *)

Lemma at_index_delete {A} (array : list A) (i : Z) :
  0 ≤ i → at_index (delete (Z.to_nat i) array) i = at_index array (i + 1).
Proof.
  intros Hi. unfold at_index.
  destruct (Z.ltb_spec i 0), (Z.ltb_spec (i + 1) 0); try lia.
  rewrite list_lookup_delete_ge by lia. f_equal. lia.
Qed.

(** X21.  Removing the current article takes exactly that article out of
    the list, in memory and in storage, and leaves the others in their
    order; the article that followed it becomes the current one, or the new
    last one when there was none; and unless the list is now empty the
    script starts to play, also when it was paused. *)
Theorem removing_moves_to_the_follower (s : State) (article : FeedItem) :
  consistent s →
  current s = Some article →
  ∃ s', removeCurrentArticle s = (Ok tt, s')
        ∧ articles s' = delete (Z.to_nat (currentIndex s)) (articles s)
        ∧ st_articles (localStorage s') = Some (articles s')
        ∧ (∀ follower, at_index (articles s) (currentIndex s + 1) = Some follower →
             currentIndex s' = currentIndex s ∧ current s' = Some follower)
        ∧ (at_index (articles s) (currentIndex s + 1) = None → articles s' ≠ [] →
             currentIndex s' = currentIndex s - 1)
        ∧ (articles s' ≠ [] → isPlaying s' = true)
        ∧ consistent s'.
Proof.
  intros Hs Hcur.
  destruct (removeCurrentArticle_spec s Hs) as (s' & Hrun & Hs' & Ha & _ & Hst & Hc & Hplay).
  assert (0 ≤ currentIndex s < length_of (articles s)) as Hin.
  { unfold current, at_index, length_of in *.
    destruct (Z.ltb_spec (currentIndex s) 0); [done|].
    apply lookup_lt_Some in Hcur. lia. }
  destruct (splice_one_in_range _ _ Hin) as [Hsplice Hlen].
  rewrite Hsplice in *.
  exists s'. split; [exact Hrun|]. split; [exact Ha|].
  split; [by rewrite Ha|].
  assert (∀ l : list FeedItem, l ≠ [] → (length_of l =? 0) = false) as Hne0.
  { intros [|x l] Hl; [done|]. unfold length_of. simpl. lia. }
  split; [|split; [|split; [|exact Hs']]].
  - intros follower Hf.
    assert (currentIndex s + 1 < length_of (articles s)) as Hlt.
    { unfold at_index, length_of in *.
      destruct (Z.ltb_spec (currentIndex s + 1) 0); [done|].
      apply lookup_lt_Some in Hf. lia. }
    assert (currentIndex s' = currentIndex s) as Hc'.
    { rewrite Hc.
      destruct (Z.eqb_spec (length_of (delete (Z.to_nat (currentIndex s)) (articles s))) 0);
        [reflexivity|].
      destruct (Z.leb_spec (length_of (delete (Z.to_nat (currentIndex s)) (articles s)))
                  (currentIndex s)); [lia | reflexivity]. }
    split; [exact Hc'|]. unfold current. rewrite Ha, Hc', at_index_delete by lia. exact Hf.
  - intros Hnone Hne. rewrite <- Ha, Hc in *. rewrite (Hne0 _ Hne).
    assert (length_of (articles s) ≤ currentIndex s + 1).
    { unfold at_index, length_of in *.
      destruct (Z.ltb_spec (currentIndex s + 1) 0); [lia|].
      apply lookup_ge_None in Hnone. lia. }
    rewrite Ha in *.
    destruct (Z.leb_spec (length_of (delete (Z.to_nat (currentIndex s)) (articles s)))
                (currentIndex s)); lia.
  - intros Hne. rewrite Hplay, <- Ha. by rewrite (Hne0 _ Hne).
Qed.

End Playback.

(** ** Playback to the end of the list *)

Section Rounds.

Import Player.

Lemma Set_add_grows (id x : string) (set : list string) : x ∈ set → x ∈ Set_add id set.
Proof.
  intros Hx. unfold Set_add. case_bool_decide; [exact Hx|]. apply elem_of_app. by left.
Qed.

Lemma Set_add_holds (id : string) (set : list string) : id ∈ Set_add id set.
Proof.
  unfold Set_add. case_bool_decide; [done|].
  apply elem_of_app. right. by apply list_elem_of_singleton.
Qed.

Lemma play_onEnd_spec (article : FeedItem) (s : State) :
  consistent s →
  ∃ s', play_onEnd (AfterSummary article) s = (Ok tt, s')
        ∧ consistent s'
        ∧ articles s' = articles s ∧ currentIndex s' = currentIndex s
        ∧ isPlaying s' = isPlaying s
        ∧ playedIds s' = Set_add (fi_id article) (playedIds s).
Proof.
  intros (Hi & Hn & Hst). eexists. split; [reflexivity|].
  split; [|by repeat split].
  split; [exact Hi|]. split; [by apply NoDup_Set_add | exact Hst].
Qed.

Lemma play_onTimeout_spec (s : State) :
  consistent s →
  length_of (articles s) ≠ 0 →
  ∃ s', play_onTimeout s = (Ok tt, s')
        ∧ consistent s'
        ∧ articles s' = articles s ∧ playedIds s' = playedIds s
        ∧ (isPlaying s = true → currentIndex s < length_of (articles s) - 1 →
             currentIndex s' = currentIndex s + 1 ∧ isPlaying s' = true)
        ∧ (currentIndex s = length_of (articles s) - 1 →
             currentIndex s' = currentIndex s ∧ isPlaying s' = false).
Proof.
  intros Hs Hne. unfold play_onTimeout.
  destruct (isPlaying s) eqn:Hplay; cbn [andb].
  - destruct (Z.ltb_spec (currentIndex s) (length_of (articles s) - 1)) as [Hlt|Hge].
    + cbn [block]. unfold assign at 1.
      assert (consistent (set_currentIndex (currentIndex s + 1) s)) as Hs1.
      { destruct Hs as ((H0 & _) & Hn & Hst). split; [cbn; lia|]. by split. }
      destruct (updateDisplay_spec _ Hs1) as (s2 & -> & Hu2).
      pose proof (untouched_consistent _ _ Hu2 Hs1) as Hs2.
      destruct Hu2 as ((Ha2 & Hc2 & Hp2 & _) & _).
      cbn [articles currentIndex playedIds set_currentIndex] in Ha2, Hc2, Hp2.
      destruct (keeps_does RenderList s2) as (s3 & Hrun3 & Hu3).
      unfold renderList. rewrite Hrun3.
      pose proof (untouched_consistent _ _ Hu3 Hs2) as Hs3.
      destruct Hu3 as ((Ha3 & Hc3 & Hp3 & _) & _).
      destruct (play_spec s3 Hs3) as (s4 & -> & Hl4 & Hplay4 & _).
      exists s4. split; [reflexivity|].
      split; [by eapply stable_consistent|].
      destruct Hl4 as (Ha4 & Hc4 & Hp4 & _).
      split; [congruence|]. split; [congruence|].
      split; [|intros; lia]. intros _ _. split; [congruence|].
      rewrite Hplay4, Ha3, Ha2.
      by destruct (Z.eqb_spec (length_of (articles s)) 0).
    + destruct (Z.leb_spec (length_of (articles s) - 1) (currentIndex s)); [|lia].
      eexists. split; [reflexivity|]. split; [exact Hs|].
      split; [reflexivity|]. split; [reflexivity|].
      split; [intros; lia | intros; split; reflexivity].
  - destruct (Z.leb_spec (length_of (articles s) - 1) (currentIndex s)).
    + eexists. split; [reflexivity|]. split; [exact Hs|].
      split; [reflexivity|]. split; [reflexivity|].
      split; [intros; discriminate | intros; split; reflexivity].
    + exists s. split; [reflexivity|]. split; [exact Hs|].
      split; [reflexivity|]. split; [reflexivity|].
      split; [intros; discriminate | intros; lia].
Qed.

(** One round: the current article is marked, and the script moves on or
    stops at the last article. *)
Lemma round_spec (s : State) (article : FeedItem) :
  consistent s →
  current s = Some article →
  isPlaying s = true →
  consistent (round s)
  ∧ articles (round s) = articles s
  ∧ fi_id article ∈ playedIds (round s)
  ∧ (∀ id, id ∈ playedIds s → id ∈ playedIds (round s))
  ∧ (currentIndex s < length_of (articles s) - 1 →
       currentIndex (round s) = currentIndex s + 1 ∧ isPlaying (round s) = true)
  ∧ (currentIndex s = length_of (articles s) - 1 →
       currentIndex (round s) = currentIndex s ∧ isPlaying (round s) = false).
Proof.
  intros Hs Hcur Hplay. unfold round. rewrite Hcur.
  destruct (play_onEnd_spec article s Hs) as (s1 & -> & Hs1 & Ha1 & Hc1 & Hplay1 & Hp1).
  cbn [snd].
  assert (length_of (articles s) ≠ 0) as Hne.
  { unfold current, at_index, length_of in *.
    destruct (currentIndex s <? 0); [done|]. apply lookup_lt_Some in Hcur. lia. }
  destruct (play_onTimeout_spec s1 Hs1) as (s2 & -> & Hs2 & Ha2 & Hp2 & Hnext & Hlast);
    [by rewrite Ha1|].
  cbn [snd]. rewrite Ha1, Hc1, Hplay1, Hplay in *.
  split; [exact Hs2|]. split; [congruence|].
  split; [rewrite Hp2, Hp1; apply Set_add_holds|].
  split; [intros id Hid; rewrite Hp2, Hp1; by apply Set_add_grows|].
  split; [intros Hlt; by apply Hnext | exact Hlast].
Qed.

Lemma rounds_spec (n : nat) (s : State) :
  consistent s →
  isPlaying s = true →
  0 ≤ currentIndex s →
  Z.of_nat (S n) = length_of (articles s) - currentIndex s →
  isPlaying (rounds (S n) s) = false
  ∧ currentIndex (rounds (S n) s) = length_of (articles s) - 1
  ∧ articles (rounds (S n) s) = articles s
  ∧ (∀ id, id ∈ playedIds s → id ∈ playedIds (rounds (S n) s))
  ∧ (∀ article, article ∈ drop (Z.to_nat (currentIndex s)) (articles s) →
       fi_id article ∈ playedIds (rounds (S n) s)).
Proof.
  revert s. induction n as [|n IH]; intros s Hs Hplay H0 Hlen.
  - assert (is_Some (current s)) as [article Hcur].
    { apply consistent_current; [exact Hs | lia]. }
    destruct (round_spec s article Hs Hcur Hplay) as (Hs' & Ha & Hid & Hmono & _ & Hlast).
    destruct Hlast as [Hc Hstop]; [lia|].
    cbn [rounds]. split; [exact Hstop|]. split; [lia|]. split; [exact Ha|].
    split; [exact Hmono|].
    intros a Hin.
    assert (drop (Z.to_nat (currentIndex s)) (articles s) = [article]) as Hdrop.
    { unfold current, at_index, length_of in *.
      destruct (Z.ltb_spec (currentIndex s) 0); [lia|].
      rewrite (drop_S _ _ _ Hcur), drop_ge; [reflexivity | lia]. }
    rewrite Hdrop in Hin. apply list_elem_of_singleton in Hin as ->. exact Hid.
  - assert (is_Some (current s)) as [article Hcur].
    { apply consistent_current; [exact Hs | lia]. }
    destruct (round_spec s article Hs Hcur Hplay) as (Hs' & Ha & Hid & Hmono & Hnext & _).
    destruct Hnext as [Hc Hgo]; [lia|].
    destruct (IH (round s) Hs' Hgo) as (Hstop & Hidx & Hart & Hmono' & Hall).
    { lia. } { rewrite Ha, Hc. lia. }
    change (rounds (S (S n)) s) with (rounds (S n) (round s)).
    split; [exact Hstop|]. split; [by rewrite Hidx, Ha|]. split; [by rewrite Hart|].
    split; [intros id Hin; by apply Hmono', Hmono|].
    intros a Hin.
    unfold current, at_index in Hcur. destruct (Z.ltb_spec (currentIndex s) 0); [lia|].
    rewrite (drop_S _ _ _ Hcur) in Hin. apply elem_of_cons in Hin as [->|Hin].
    + by apply Hmono'.
    + apply Hall. rewrite Ha, Hc.
      replace (Z.to_nat (currentIndex s + 1)) with (S (Z.to_nat (currentIndex s))) by lia.
      exact Hin.
Qed.

(** X22.  Left alone, playback runs to the end of the list: when the
    script is playing and each spoken summary ends and its timer fires,
    every article from the current one on is marked as played, in turn,
    and the script stops at the last article, no longer playing; the list
    itself is not changed. *)
Theorem playback_runs_to_the_end (s : State) :
  consistent s →
  articles s ≠ [] →
  isPlaying s = true →
  let n := Z.to_nat (length_of (articles s) - currentIndex s) in
  isPlaying (rounds n s) = false
  ∧ currentIndex (rounds n s) = length_of (articles s) - 1
  ∧ articles (rounds n s) = articles s
  ∧ (∀ id, id ∈ playedIds s → id ∈ playedIds (rounds n s))
  ∧ (∀ article, article ∈ drop (Z.to_nat (currentIndex s)) (articles s) →
       fi_id article ∈ playedIds (rounds n s)).
Proof.
  intros Hs Hne Hplay n.
  assert (0 ≤ currentIndex s < length_of (articles s)) as Hidx.
  { destruct Hs as ((H0 & Hlt) & _). split; [exact H0|].
    destruct (articles s); [done|]. unfold length_of in *. simpl in *. lia. }
  destruct (Z.to_nat (length_of (articles s) - currentIndex s)) as [|m] eqn:E; [lia|].
  subst n. apply rounds_spec; [exact Hs | exact Hplay | lia | lia].
Qed.

(** X27.  Pause halts the advance to the next article, Stop does not.
    While the script is playing an article that is not the last, and the
    timer that follows a summary is under way: after [pause] the timer
    leaves the index where it is and nothing plays; after [stop], which
    silences the speech but leaves [isPlaying] set, the timer moves on to
    the next article and plays it. *)
Theorem pause_halts_the_advance_and_stop_does_not (s : State) :
  consistent s →
  isPlaying s = true →
  currentIndex s < length_of (articles s) - 1 →
  (∃ s1 s2, pause s = (Ok tt, s1) ∧ play_onTimeout s1 = (Ok tt, s2)
            ∧ currentIndex s2 = currentIndex s ∧ isPlaying s2 = false
            ∧ page s2 = page s1)
  ∧ (∃ s1 s2, stop s = (Ok tt, s1) ∧ play_onTimeout s1 = (Ok tt, s2)
              ∧ currentIndex s2 = currentIndex s + 1 ∧ isPlaying s2 = true).
Proof.
  intros Hs Hplay Hlt.
  assert (length_of (articles s) ≠ 0) as Hne by (destruct Hs as [[? _] _]; lia).
  split.
  - destruct (keeps_stop s) as (s0 & Hstop & (Ha & Hc & _) & _).
    eexists _, _. split.
    { unfold pause. cbn [block]. rewrite Hstop. reflexivity. }
    unfold play_onTimeout. cbn [isPlaying set_isPlaying set_page andb articles currentIndex].
    rewrite Ha, Hc.
    destruct (Z.leb_spec (length_of (articles s) - 1) (currentIndex s)); [lia|].
    split; [reflexivity|]. split; [exact Hc|]. split; reflexivity.
  - destruct (keeps_stop s) as (s1 & Hstop & Hu).
    pose proof (untouched_consistent _ _ Hu Hs) as Hs1.
    destruct Hu as ((Ha & Hc & _) & Hp & _).
    destruct (play_onTimeout_spec s1 Hs1) as (s2 & Hrun & _ & _ & _ & Hnext & _);
      [by rewrite Ha|].
    exists s1, s2. split; [exact Hstop|]. split; [exact Hrun|].
    rewrite <- Hc. apply Hnext; [by rewrite Hp | by rewrite Ha, Hc].
Qed.

(** ** Actions *)

Lemma action_request_spec (toast path : string) (s : State) (article : FeedItem) :
  current s = Some article →
  action_request toast path s
  = (Ok tt, set_page (page s ++ [Toast toast; Fetch "POST" path (Some (action_body article))]) s).
Proof.
  intros Hcur. unfold action_request. rewrite Hcur. cbn. unfold set_page. cbn.
  by rewrite <- app_assoc.
Qed.

Lemma action_fetched_spec (after : option string) (s : State) :
  consistent s →
  ∃ s', action_fetched true after s = (Ok tt, s')
        ∧ articles s' = splice_one (currentIndex s) (articles s).
Proof.
  intros Hs. unfold action_fetched, try_. cbn [block].
  assert (∃ s0, match after with Some msg => showToast msg | None => skip end s
                = (Ok tt, s0) ∧ untouched s s0) as (s0 & -> & Hu).
  { destruct after; [apply keeps_does | apply keeps_skip]. }
  destruct (removeCurrentArticle_spec s0 (untouched_consistent _ _ Hu Hs))
    as (s' & -> & _ & Ha & _).
  exists s'. split; [reflexivity|].
  destruct Hu as ((Ha0 & Hc0 & _) & _). by rewrite Ha, Ha0, Hc0.
Qed.

(** X23.  An action settles on the article that is current when the
    response arrives.  The request names the article that was current when
    the button was pressed; when nothing moves the index in between, that
    article is the one taken out of the list; when the user skips ahead
    while the request is under way, the article skipped to is taken out
    and the article the request named stays in the list. *)
Theorem action_settles_on_the_current_article
    (toast path : string) (after : option string) (s : State) (article : FeedItem) :
  consistent s →
  current s = Some article →
  let i := Z.to_nat (currentIndex s) in
  ∃ s1,
    action_request toast path s = (Ok tt, s1)
    ∧ page s1 = page s ++ [Toast toast; Fetch "POST" path (Some (action_body article))]
    ∧ (∃ s2, action_fetched true after s1 = (Ok tt, s2)
             ∧ articles s2 = delete i (articles s))
    ∧ (∀ follower, at_index (articles s) (currentIndex s + 1) = Some follower →
         ∃ s2 s3, skipArticle s1 = (Ok tt, s2)
                  ∧ action_fetched true after s2 = (Ok tt, s3)
                  ∧ articles s3 = delete (S i) (articles s)
                  ∧ articles s3 !! i = Some article).
Proof.
  intros Hs Hcur i.
  rewrite (action_request_spec toast path s article Hcur).
  eexists. split; [reflexivity|]. split; [reflexivity|].
  set (s1 := set_page _ s).
  assert (consistent s1) as Hs1 by exact Hs.
  assert (0 ≤ currentIndex s < length_of (articles s)) as Hin.
  { unfold current, at_index, length_of in *.
    destruct (Z.ltb_spec (currentIndex s) 0); [done|].
    apply lookup_lt_Some in Hcur. lia. }
  split.
  - destruct (action_fetched_spec after s1 Hs1) as (s2 & Hrun & Ha). exists s2.
    split; [exact Hrun|].
    rewrite Ha. change (splice_one (currentIndex s) (articles s) = delete i (articles s)).
    by destruct (splice_one_in_range _ _ Hin) as [-> _].
  - intros follower Hf.
    assert (currentIndex s + 1 < length_of (articles s)) as Hlt.
    { unfold at_index, length_of in *.
      destruct (Z.ltb_spec (currentIndex s + 1) 0); [done|].
      apply lookup_lt_Some in Hf. lia. }
    destruct (skipArticle_spec s1 article Hs1 Hcur) as (s2 & Hskip & Hs2 & Ha2 & Hc2 & _).
    { change (currentIndex s < length_of (articles s) - 1). lia. }
    change (articles s1) with (articles s) in Ha2.
    change (currentIndex s1) with (currentIndex s) in Hc2.
    destruct (action_fetched_spec after s2 Hs2) as (s3 & Hrun & Ha3).
    exists s2, s3. split; [exact Hskip|]. split; [exact Hrun|].
    rewrite Ha3, Ha2, Hc2.
    destruct (splice_one_in_range (currentIndex s + 1) (articles s)) as [-> _]; [lia|].
    replace (Z.to_nat (currentIndex s + 1)) with (S i) by lia.
    split; [reflexivity|].
    rewrite list_lookup_delete_lt by lia.
    unfold current, at_index in Hcur.
    destruct (Z.ltb_spec (currentIndex s) 0); [lia | exact Hcur].
Qed.

End Rounds.

(** ** The script and the worker *)

Section EndToEnd.

Import Player.

Variable URL_hostname : string → option string.
Variable env : Env.

(** What the worker answers to the speech request of the script. *)
Lemma speech_answers (text voice : string) (w w' : World) (resp : Response) :
  fetch URL_hostname (speech_of text voice) env w = (Ok resp, w') →
  resp = browser_tts corsHeaders (Some text)
  ∨ (∃ data, resp = audio_response corsHeaders data)
  ∨ (∃ e, resp = error_response e).
Proof.
  unfold fetch, dispatch, speech_of. simpl. unfold try_catch.
  destruct (handleTTS _ env corsHeaders w) as [[r|e] w1] eqn:Hrun.
  - intros [= <- <-]. revert Hrun.
    unfold handleTTS, request_json. cbn [req_json jb_text jb_voice].
    unfold bind, ret, console_log, console_error, http_fetch.
    destruct (negb (JS.truthy (OPENAI_API_KEY env))); [cbv beta; intros [= <- _]; by left|].
    cbn [jb_text jb_voice emit upstream].
    destruct (upstream w) as [|r0 rest]; [discriminate|].
    destruct (negb (rs_ok r0)); cbn [emit]; cbv beta iota; intros [= <- _];
      [by left | right; left; by eexists].
  - unfold on_error, bind, console_error, ret. intros [= <- _]. right; right. by eexists.
Qed.

(** How the script takes each of these answers. *)
Lemma speak_fetched_fallback (text : string) (onEnd : callback) (s : State) (body : option string) :
  speak_fetched (Some (browser_tts corsHeaders body)) text onEnd s
  = (Ok tt, set_page (page s ++ browser_fallback text onEnd "Server requested browser TTS") s).
Proof.
  transitivity
    (Ok tt, set_page (((page s ++ [ConsoleError ["TTS error:"; "Server requested browser TTS"]])
                       ++ [Toast "Audio failed, using browser"])
                      ++ [SynthSpeak text onEnd false]) s);
    [reflexivity|].
  by rewrite <- !app_assoc.
Qed.

Lemma speak_fetched_audio (text : string) (onEnd : callback) (s : State) (data : string) :
  speak_fetched (Some (audio_response corsHeaders data)) text onEnd s
  = (Ok tt, set_page (page s ++ [AudioPlay (BodyStream data) onEnd])
              (set_currentAudio (Some (BodyStream data)) s)).
Proof. reflexivity. Qed.

Lemma speak_fetched_error (text : string) (onEnd : callback) (s : State) (e : string) :
  speak_fetched (Some (error_response e)) text onEnd s
  = (Ok tt, set_page (page s ++ browser_fallback text onEnd "TTS Network Error") s).
Proof.
  transitivity
    (Ok tt, set_page (((page s ++ [ConsoleError ["TTS error:"; "TTS Network Error"]])
                       ++ [Toast "Audio failed, using browser"])
                      ++ [SynthSpeak text onEnd false]) s);
    [reflexivity|].
  by rewrite <- !app_assoc.
Qed.

Lemma speak_fetched_failed (text : string) (onEnd : callback) (s : State) :
  speak_fetched None text onEnd s
  = (Ok tt, set_page (page s ++ browser_fallback text onEnd "Failed to fetch") s).
Proof.
  transitivity
    (Ok tt, set_page (((page s ++ [ConsoleError ["TTS error:"; "Failed to fetch"]])
                       ++ [Toast "Audio failed, using browser"])
                      ++ [SynthSpeak text onEnd false]) s);
    [reflexivity|].
  by rewrite <- !app_assoc.
Qed.

(** With a voice of the worker, [speak] ends on the request for the text
    in that voice. *)
Lemma speak_requests (text : string) (onEnd : callback) : speech_is_requested text onEnd.
Proof.
  intros s Hvoice. unfold speak. cbn [block].
  destruct (keeps_stop s) as (s1 & -> & _ & _ & Hv & _).
  rewrite Hv, Hvoice. eexists. split; [reflexivity|].
  cbn. apply last_snoc.
Qed.

(** X24.  Speech comes whatever the worker answers to the script's
    request.  With a voice other than [browser], [speak] sends the worker
    the text and the voice; the worker does answer; when it answers with
    audio the script plays that audio, and when it answers with the
    fallback or with an error, or when the request itself fails, the script
    speaks the same text with the voice of the browser.  In each case the
    [onEnd] of the text is kept, so that playback goes on, and the list and
    the index are not touched. *)
Theorem speech_comes_whatever_the_worker_answers
    (text voice : string) (onEnd : callback) (w : World) (s : State) :
  ∃ resp w' s',
    speech_is_requested text onEnd
    ∧ fetch URL_hostname (speech_of text voice) env w = (Ok resp, w')
    ∧ speak_fetched (Some resp) text onEnd s = (Ok tt, s')
    ∧ same_list s s'
    ∧ ((∃ data, resp = audio_response corsHeaders data
                ∧ currentAudio s' = Some (BodyStream data)
                ∧ page s' = page s ++ [AudioPlay (BodyStream data) onEnd])
       ∨ (resp_headers resp = corsHeaders ++ [("Content-Type", "application/json")]
          ∧ currentAudio s' = currentAudio s
          ∧ ∃ error, page s' = page s ++ browser_fallback text onEnd error))
    ∧ speak_fetched None text onEnd s
      = (Ok tt, set_page (page s ++ browser_fallback text onEnd "Failed to fetch") s).
Proof.
  destruct (fetch_total URL_hostname env (speech_of text voice) w) as (resp & w' & Hrun).
  exists resp, w'.
  destruct (speech_answers _ _ _ _ _ Hrun) as [-> | [[data ->] | [e ->]]].
  - eexists. split; [apply speak_requests|].
    split; [exact Hrun|]. split; [apply speak_fetched_fallback|].
    split; [by repeat split|]. split; [|apply speak_fetched_failed].
    right. split; [reflexivity|]. split; [reflexivity|]. by eexists.
  - eexists. split; [apply speak_requests|].
    split; [exact Hrun|]. split; [apply speak_fetched_audio|].
    split; [by repeat split|]. split; [|apply speak_fetched_failed].
    left. by eexists.
  - eexists. split; [apply speak_requests|].
    split; [exact Hrun|]. split; [apply speak_fetched_error|].
    split; [by repeat split|]. split; [|apply speak_fetched_failed].
    right. split; [reflexivity|]. split; [reflexivity|]. by eexists.
Qed.

(** What the worker answers to a feed request. *)
Lemma feed_answers (location : option string) (w w' : World) (resp : Response) :
  fetch URL_hostname (get "/api/feed" location) env w = (Ok resp, w') →
  (∃ items total loc, resp = json_response corsHeaders (BodyFeed items total loc))
  ∨ (∃ e, resp = error_response e).
Proof.
  unfold fetch, dispatch, get. simpl. unfold try_catch.
  match goal with
  | |- context [handleFeed URL_hostname ?rq env corsHeaders w] =>
      destruct (handleFeed URL_hostname rq env corsHeaders w) as [[r|e] w1] eqn:Hrun
  end.
  - intros [= <- <-]. apply handleFeed_inv in Hrun as (c & l & w2 & items & _ & _ & ->).
    left. by eexists _, _, _.
  - unfold on_error, bind, console_error, ret. intros [= <- _]. right. by eexists.
Qed.

Lemma syncFeed_fetched_feed (items : list FeedItem) (total : nat) (loc : string) (s : State) :
  ∃ s', syncFeed_fetched (Some (json_response corsHeaders (BodyFeed items total loc))) s
        = (Ok tt, s')
        ∧ articles s' = items ∧ currentIndex s' = 0
        ∧ st_articles (localStorage s') = Some items
        ∧ playedIds s' = playedIds s ∧ isPlaying s' = isPlaying s.
Proof.
  unfold syncFeed_fetched, try_. cbn [json json_response resp_body d_error d_articles default].
  destruct items as [|item items].
  - eexists. split; [reflexivity|]. by repeat split.
  - eexists. split; [reflexivity|]. by repeat split.
Qed.

Lemma syncFeed_fetched_error (e : string) (s : State) :
  e ≠ "" →
  syncFeed_fetched (Some (error_response e)) s
  = (Ok tt, set_page (page s ++ sync_failure e) s).
Proof.
  intros He. destruct e as [|c e]; [done|].
  transitivity
    (Ok tt, set_page ((((page s ++ [ConsoleError ["Sync error:"; String c e]])
                        ++ [Toast ("Sync failed: " +:+ String c e)])
                       ++ [Status "Sync failed"]) ++ [Show Empty]) s);
    [reflexivity|].
  by rewrite <- !app_assoc.
Qed.

(** X25.  A sync shows what the worker answers: the worker does answer a
    feed request; when it answers with a feed, the items become the list of
    the script, in memory and in storage, and the first of them is the
    current one; when it answers with an error, the script reports
    [Sync failed] with the message of the worker and shows the empty view,
    while its list, its index and its storage stay as they were. *)
Theorem sync_shows_what_the_worker_answers
    (location : option string) (w : World) (s : State) :
  ∃ resp w' s',
    fetch URL_hostname (get "/api/feed" location) env w = (Ok resp, w')
    ∧ syncFeed_fetched (Some resp) s = (Ok tt, s')
    ∧ ((∃ items total loc,
          resp = json_response corsHeaders (BodyFeed items total loc)
          ∧ articles s' = items ∧ currentIndex s' = 0
          ∧ st_articles (localStorage s') = Some items
          ∧ playedIds s' = playedIds s)
       ∨ (∃ e, resp = error_response e
               ∧ (e ≠ "" → s' = set_page (page s ++ sync_failure e) s))).
Proof.
  destruct (fetch_total URL_hostname env (get "/api/feed" location) w) as (resp & w' & Hrun).
  exists resp, w'.
  destruct (feed_answers _ _ _ _ Hrun) as [(items & total & loc & ->) | [e ->]].
  - destruct (syncFeed_fetched_feed items total loc s) as (s' & Hs' & Ha & Hc & Hst & Hp & _).
    exists s'. split; [exact Hrun|]. split; [exact Hs'|]. left. by eexists _, _, _.
  - destruct e as [|c e].
    + eexists. split; [exact Hrun|]. split; [reflexivity|]. right. by eexists.
    + eexists. split; [exact Hrun|]. split; [by apply syncFeed_fetched_error|].
      right. by eexists.
Qed.

End EndToEnd.

(** * The further properties at work on the example worlds *)

(** Three 429 answers in a row: the fourth answer, the page, is not asked
    for. *)
Lemma three_rate_limits_witness :
  ∃ w', fetchAllReadwiseArticles example_env "all" world_rate_limited_thrice
        = (Throw "Readwise API error: 429", w')
        ∧ upstream w' = [list_page [article_1] None]
        ∧ fetch_count (trace w') = 3%nat.
Proof.
  destruct (three_rate_limits_fail_the_sync example_env "all" world_rate_limited_thrice
              (failure 429 "") (failure 429 "") (failure 429 "") [list_page [article_1] None])
    as (w' & Hrun & Hup & _ & Htrace).
  - reflexivity.
  - reflexivity.
  - reflexivity.
  - reflexivity.
  - exists w'. split; [exact Hrun|]. split; [exact Hup|]. rewrite Htrace. reflexivity.
Defined.

(** Two 429 answers, the first with [Retry-After: 2], then the page. *)
Lemma rate_limited_page_witness :
  ∃ w', fetch_page 3 (list_request example_env None) None world_rate_limited_twice
        = (Ok (Some (list_page [article_1] None)), w')
        ∧ upstream w' = []
        ∧ List.filter (λ e, match e with EvSleep _ => true | _ => false end) (trace w')
          = [EvSleep 2000; EvSleep 5000].
Proof.
  destruct (rate_limited_page_is_retried (list_request example_env None)
              [{| rs_status := 429; rs_retry_after := Some 2; rs_text := ""; rs_json := None |};
               failure 429 ""]
              (list_page [article_1] None) [] world_rate_limited_twice)
    as (w' & Hrun & Hup & _ & _ & Htrace).
  - reflexivity.
  - repeat constructor.
  - simpl. lia.
  - discriminate.
  - exists w'. split; [exact Hrun|]. split; [exact Hup|]. rewrite Htrace. reflexivity.
Defined.

(** The sync of [world_two_pages] costs two requests. *)
Lemma sync_cost_witness :
  ∃ evs,
    trace (snd (fetchAllReadwiseArticles example_env "all" world_two_pages))
    = trace world_two_pages ++ evs
    ∧ (fetch_count evs ≤ 30)%nat.
Proof.
  destruct (sync_costs_at_most_thirty_requests example_env "all" world_two_pages
              (snd (fetchAllReadwiseArticles example_env "all" world_two_pages))
              (fst (fetchAllReadwiseArticles example_env "all" world_two_pages)))
    as (evs & Htrace & _ & Hcount & _).
  - vm_compute. reflexivity.
  - exists evs. split; [exact Htrace | exact Hcount].
Defined.

(** The article store answers the list request with a 401. *)
Lemma failed_list_fetch_witness :
  fst (fetch SimpleURL.hostname (get "/api/feed" None) example_env world_unauthorized)
  = Ok (error_response "Readwise API error: 401").
Proof.
  rewrite (failed_list_fetch_fails_the_feed SimpleURL.hostname example_env None
             world_unauthorized (failure 401 "Unauthorized") []).
  - reflexivity.
  - reflexivity.
  - discriminate.
  - reflexivity.
Defined.

(** The pass over [world_deferred] serves two items for two summarizer
    calls. *)
Lemma feed_pass_witness :
  ∃ items evs,
    resp_body (json_response corsHeaders
                 (BodyFeed [feed_item SimpleURL.hostname article_2 "Summary two.";
                            feed_item SimpleURL.hostname article_1 "Summary one."] 2 "all"))
    = BodyFeed items 2 "all"
    ∧ (length items ≤ MAX_ARTICLES)%nat
    ∧ (summarizer_calls evs ≤ 2)%nat.
Proof.
  destruct (feed_pass_is_capped SimpleURL.hostname example_env (get "/api/feed" None)
              corsHeaders world_deferred
              (snd (handleFeed SimpleURL.hostname (get "/api/feed" None) example_env
                      corsHeaders world_deferred))
              (json_response corsHeaders
                 (BodyFeed [feed_item SimpleURL.hostname article_2 "Summary two.";
                            feed_item SimpleURL.hostname article_1 "Summary one."] 2 "all")))
    as (cands & laterIds & w1 & items & evs & Hc & Hbody & Hcap & _ & _ & _ & Hcalls).
  - vm_compute. reflexivity.
  - assert (length cands = 2%nat) as Hlen.
    { cbn in Hbody. by injection Hbody as _ <-. }
    exists items, evs. rewrite Hlen in Hbody, Hcalls.
    split; [exact Hbody|]. split; [exact Hcap | exact Hcalls].
Defined.

(** The summary of [article-1] is in the cache. *)
Lemma cache_hit_witness :
  ∃ w', getCachedOrSummarize SimpleURL.hostname article_1 example_env world_deferred_cached
        = (Ok "Summary one.", w')
        ∧ upstream w' = upstream world_deferred_cached.
Proof.
  destruct (cache_hit_needs_no_network SimpleURL.hostname example_env article_1
              world_deferred_cached) as (cached & Hread & Hrun).
  - vm_compute. reflexivity.
  - vm_compute in Hread. injection Hread as <-.
    eexists. split; [exact Hrun | reflexivity].
Defined.

(** The summarizer fails, then answers: the second call generates and
    stores. *)
Lemma failed_generation_witness :
  ∃ w' w'',
    getCachedOrSummarize SimpleURL.hostname article_1 example_env world_summarizer_recovers
    = (Throw "Claude API error: 529 - Overloaded", w')
    ∧ kv w' = ∅
    ∧ getCachedOrSummarize SimpleURL.hostname article_1 example_env w'
      = (Ok "A short summary.", w'').
Proof.
  destruct (failed_generation_is_not_cached SimpleURL.hostname example_env article_1
              world_summarizer_recovers
              (snd (getCachedOrSummarize SimpleURL.hostname article_1 example_env
                      world_summarizer_recovers))
              "Claude API error: 529 - Overloaded")
    as (Hkv & _ & _ & _ & _ & Hnext).
  - vm_compute. reflexivity.
  - destruct (Hnext (message "A short summary.") [] "A short summary.")
      as (w'' & Hrun & _); [reflexivity..|].
    eexists _, w''. split; [vm_compute; reflexivity|]. split; [exact Hkv | exact Hrun].
Defined.

(** Without a key the text goes back to the browser; with one, a refusal of
    the speech service does the same. *)
Lemma speech_fallback_witness :
  fst (handleTTS (post "/api/tts" (speech_body (Some "Hello"))) example_env corsHeaders
         world_speech_refused)
  = Ok (browser_tts corsHeaders (Some "Hello"))
  ∧ upstream (snd (handleTTS (post "/api/tts" (speech_body (Some "Hello"))) example_env
                     corsHeaders world_speech_refused))
    = [failure 401 "Invalid key"]
  ∧ fst (handleTTS (post "/api/tts" (speech_body (Some "Hello"))) speaking_env corsHeaders
           world_speech_refused)
    = Ok (browser_tts corsHeaders (Some "Hello")).
Proof.
  destruct (speech_falls_back_to_the_browser example_env
              (post "/api/tts" (speech_body (Some "Hello"))) (speech_body (Some "Hello"))
              corsHeaders world_speech_refused eq_refl) as [Hnone _].
  destruct (speech_falls_back_to_the_browser speaking_env
              (post "/api/tts" (speech_body (Some "Hello"))) (speech_body (Some "Hello"))
              corsHeaders world_speech_refused eq_refl) as [_ Hkey].
  rewrite (Hnone eq_refl).
  rewrite (Hkey "Hello" (failure 401 "Invalid key") [] eq_refl eq_refl eq_refl).
  repeat split; reflexivity.
Defined.

(** A body without [text], sent to a worker that holds a key. *)
Lemma speech_error_witness :
  ∃ e, fst (fetch SimpleURL.hostname (post "/api/tts" (speech_body None)) speaking_env
              world_speech_refused)
       = Ok (error_response e).
Proof.
  destruct (speech_errors_that_reach_the_client SimpleURL.hostname speaking_env
              (speech_body None) world_speech_refused eq_refl) as [Hnone _].
  destruct (Hnone eq_refl) as [e He]. exists e. by rewrite He.
Defined.


(** Deleting [article-1] while the article store answers 500. *)
Lemma delete_marker_witness :
  ∃ w',
    fetch SimpleURL.hostname (post "/api/delete" (id_body "article-1")) example_env
      world_failing_update
    = (Ok (error_response "Readwise delete error: 500"), w')
    ∧ KV.read (now w') (kv w') "heard:article-1" = Some "1700000010000".
Proof.
  destruct (delete_keeps_marker_when_upstream_fails SimpleURL.hostname example_env
              (id_body "article-1") world_failing_update
              (snd (handleDelete (post "/api/delete" (id_body "article-1")) example_env
                      corsHeaders world_failing_update))
              "Readwise delete error: 500")
    as (Hfetch & _ & _ & Hread).
  { vm_compute. reflexivity. }
  eexists. split; [exact Hfetch | exact Hread].
Defined.



(** An archive request without a JSON body. *)
Lemma malformed_body_witness :
  ∃ e, fetch SimpleURL.hostname malformed_archive example_env world_heard
       = (Ok (error_response e), emit (EvLog ["Worker error:"; e]) world_heard).
Proof.
  apply (malformed_body_changes_nothing SimpleURL.hostname example_env malformed_archive
           world_heard).
  - reflexivity.
  - apply list_elem_of_In. simpl. tauto.
  - reflexivity.
Defined.

(** After the pass over [world_deferred] the summary of [article-1] can be
    read from the store. *)
Lemma served_summaries_witness :
  let w' := snd (handleFeed SimpleURL.hostname (get "/api/feed" None) example_env corsHeaders
                   world_deferred) in
  KV.read (now w') (kv w') "summary:article-1" = Some "Summary one.".
Proof.
  intros w'.
  apply (served_summaries_are_cached SimpleURL.hostname example_env (get "/api/feed" None)
           corsHeaders world_deferred w'
           (json_response corsHeaders
              (BodyFeed [feed_item SimpleURL.hostname article_2 "Summary two.";
                         feed_item SimpleURL.hostname article_1 "Summary one."] 2 "all"))
           [feed_item SimpleURL.hostname article_2 "Summary two.";
            feed_item SimpleURL.hostname article_1 "Summary one."] 2 "all"
           ltac:(vm_compute; reflexivity) eq_refl
           (feed_item SimpleURL.hostname article_1 "Summary one.")).
  - apply list_elem_of_In. simpl. tauto.
  - discriminate.
Defined.

(** The one page of [world_feed_scope] names no next page. *)
Lemma last_page_witness :
  fetchAllReadwiseArticles example_env "feed" world_feed_scope
  = (Ok [article_2; article_1],
     {| kv := kv world_feed_scope; now := now world_feed_scope; upstream := [];
        trace := [EvFetch (list_request example_env None)] |}).
Proof.
  rewrite (sync_ends_with_a_full_or_last_page example_env "feed" world_feed_scope
             (list_page [article_1; article_2; article_3; article_4] None) []
             (ListPayload (Some [article_1; article_2; article_3; article_4]) None)).
  - reflexivity.
  - reflexivity.
  - reflexivity.
  - reflexivity.
  - right. reflexivity.
Defined.

(** The two pages of [world_two_pages], the second asked for by the cursor of
    the first. *)
Lemma cursor_witness :
  ∃ w', fetchAllReadwiseArticles example_env "all" world_two_pages
        = (Ok [article_2; article_1], w')
        ∧ trace w' = [EvFetch (list_request example_env None); EvSleep 1000;
                      EvFetch (list_request example_env (Some "cursor-2"))].
Proof.
  eexists.
  rewrite (sync_follows_the_cursor example_env "all" world_two_pages
             (list_page [article_1] (Some "cursor-2")) (list_page [article_2] None) []
             (ListPayload (Some [article_1]) (Some "cursor-2"))
             (ListPayload (Some [article_2]) None) "cursor-2").
  - split; reflexivity.
  - reflexivity.
  - reflexivity.
  - reflexivity.
  - reflexivity.
  - reflexivity.
  - reflexivity.
  - discriminate.
  - vm_compute. lia.
  - right. reflexivity.
Defined.


(** * The properties of the script at work *)


(** [article-1] is played for the first time. *)
Lemma played_ids_witness :
  ∃ s', Player.markPlayed "article-1" loaded = (Ok tt, s')
        ∧ Player.st_played (Player.localStorage s') = Some ["article-0"; "article-1"].
Proof.
  destruct (played_ids_keep_the_last_200 "article-1" loaded)
    as (s' & stored & Hrun & Hst & _).
  - change (NoDup ["article-0"]). apply NoDup_singleton.
  - exists s'. split; [exact Hrun|]. rewrite Hst.
    vm_compute in Hrun. injection Hrun as <-. vm_compute in Hst. by injection Hst as <-.
Defined.

(** The first of three articles is removed. *)
Lemma removing_witness :
  ∃ s', Player.removeCurrentArticle loaded = (Ok tt, s')
        ∧ Player.articles s' = [item_2; item_4]
        ∧ Player.current s' = Some item_2
        ∧ Player.isPlaying s' = true.
Proof.
  destruct (removing_moves_to_the_follower loaded item_1)
    as (s' & Hrun & Ha & _ & Hnext & _ & Hplay & _).
  - apply started_consistent.
  - reflexivity.
  - exists s'. split; [exact Hrun|]. split; [exact Ha|].
    split; [apply (Hnext item_2 eq_refl)|].
    apply Hplay. rewrite Ha. discriminate.
Defined.

(** Three articles are played, one after the other. *)
Lemma playback_witness :
  Player.isPlaying (rounds 3 playing) = false
  ∧ Player.currentIndex (rounds 3 playing) = 2
  ∧ Player.playedIds (rounds 3 playing)
    = ["article-0"; "article-1"; "article-2"; "article-4"].
Proof.
  destruct (playback_runs_to_the_end playing) as (Hstop & Hidx & _).
  - destruct (triple_play loaded) as (s' & Hrun & Hs'); [apply started_consistent|].
    unfold playing. by rewrite Hrun.
  - discriminate.
  - reflexivity.
  - split; [exact Hstop|]. split; [exact Hidx|]. vm_compute. reflexivity.
Defined.

(** The first article is archived; the user skips before the request
    settles. *)
Lemma action_witness :
  ∃ s1 s2 s3,
    Player.archiveArticle loaded = (Ok tt, s1)
    ∧ Player.skipArticle s1 = (Ok tt, s2)
    ∧ Player.archiveArticle_fetched true s2 = (Ok tt, s3)
    ∧ Player.articles s3 = [item_1; item_4].
Proof.
  destruct (action_settles_on_the_current_article "Archiving..." "/api/archive"
              (Some "Archived") loaded item_1)
    as (s1 & Hrun1 & _ & _ & Hskip).
  - apply started_consistent.
  - reflexivity.
  - destruct (Hskip item_2 eq_refl) as (s2 & s3 & Hrun2 & Hrun3 & Ha & _).
    exists s1, s2, s3. split; [exact Hrun1|]. split; [exact Hrun2|].
    split; [exact Hrun3 | exact Ha].
Defined.

(** The first of three articles is playing. *)
Lemma pause_and_stop_witness :
  (∃ s1 s2, Player.pause playing = (Ok tt, s1) ∧ Player.play_onTimeout s1 = (Ok tt, s2)
            ∧ Player.currentIndex s2 = 0 ∧ Player.isPlaying s2 = false)
  ∧ (∃ s1 s2, Player.stop playing = (Ok tt, s1) ∧ Player.play_onTimeout s1 = (Ok tt, s2)
              ∧ Player.currentIndex s2 = 1 ∧ Player.isPlaying s2 = true).
Proof.
  destruct (pause_halts_the_advance_and_stop_does_not playing)
    as [(s1 & s2 & H1 & H2 & Hc & Hp & _) (t1 & t2 & H1' & H2' & Hc' & Hp')].
  - destruct (triple_play loaded) as (s' & Hrun & Hs'); [apply started_consistent|].
    unfold playing. by rewrite Hrun.
  - reflexivity.
  - vm_compute. reflexivity.
  - split; [exists s1, s2 | exists t1, t2]; repeat split; assumption.
Defined.
